(** * gyro: a fixed-cadence game loop

    A shallow embedding of [gyro.go] and the properties of its pacing loop:
    the target-rate setter and the per-frame budget it derives, the
    start/stop life cycle, the order of the phase callbacks, the delta time
    handed to the update callback, the frame-rate meter, the pacing sleep and
    the recovery of panics raised by the callbacks.

    [gyro.go] holds three successive revisions of the package.  The program
    verified here is the latest one (the [Loop] with a [recoverFunc]); the
    setters of the two earlier revisions are kept in [Rev1] and [Rev2], the
    configuration surface of the first, with its safe mode and [Quit], in
    [SafeMode], and the loop of the second in [Rev2Run]. *)

From Stdlib Require Import ZArith List Bool Lia Zpower QArith String.
From Stdlib Require Import Floats.SpecFloat.
Import ListNotations.
Local Open Scope Z_scope.

(** ** Go's fixed-width integers

    [int] is taken at its 64-bit width, so [int] and [int64] coincide.
    Arithmetic on them wraps around. *)

Definition max_int : Z := 2 ^ 63 - 1.
Definition min_int : Z := - 2 ^ 63.

Definition wrap64 (z : Z) : Z := (z + 2 ^ 63) mod 2 ^ 64 - 2 ^ 63.

Definition uint16 (z : Z) : Z := z mod 2 ^ 16.

(** [clamp x lo hi]: [x] forced into the interval from [lo] to [hi]. *)
Definition clamp (x lo hi : Z) : Z := Z.max lo (Z.min x hi).

(** ** float32

    IEEE-754 binary32 with round-to-nearest-even, the arithmetic Go uses for
    [float32]: 24 bits of precision, exponents below 128. *)

Module Float32.

Definition prec : Z := 24.
Definition emax : Z := 128.

Definition float32 : Type := spec_float.

(** [float32(n)] for an integer [n]. *)
Definition of_int (n : Z) : float32 := binary_normalize prec emax n 0 false.

Definition div : float32 -> float32 -> float32 := SFdiv prec emax.
Definition mul : float32 -> float32 -> float32 := SFmul prec emax.

(** [int(f)]: the fractional part is discarded.  Go leaves the result
    unspecified when [f] is not finite; the setter never produces such a
    value, and the model returns 0 there. *)
Definition to_int (f : float32) : Z :=
  match f with
  | S754_finite s m e =>
      let a := match e with
               | Zneg p => Z.quot (Zpos m) (2 ^ Zpos p)
               | _ => Zpos m * 2 ^ e
               end in
      if s then - a else a
  | _ => 0
  end.

End Float32.

(** ** Package time

    A [Time] is a reading of the monotonic clock and a [Duration] a signed
    64-bit count, both in nanoseconds. *)

Definition Duration : Type := Z.
Definition Time : Type := Z.

Definition Millisecond : Duration := 1000000.
Definition Second : Duration := 1000000000.

Definition maxDuration : Duration := 2 ^ 63 - 1.
Definition minDuration : Duration := - 2 ^ 63.

(** [t.Sub(u)]: the difference, kept within the range of a [Duration]. *)
Definition Time_Sub (t u : Time) : Duration :=
  Z.max minDuration (Z.min maxDuration (t - u)).

(** [d.Milliseconds()]: integer division, rounding toward zero. *)
Definition Duration_Milliseconds (d : Duration) : Z := Z.quot d Millisecond.

(** [d.Seconds()]: whole seconds plus the remaining nanoseconds over 1e9.
    The float64 sum is read as the rational it approximates; rounding to
    float64 is monotone and leaves 1 in place, so the comparison with 1 made
    by the loop is the same on both. *)
Definition Duration_Seconds (d : Duration) : Q :=
  (inject_Z (Z.quot d Second) + inject_Z (Z.rem d Second) / inject_Z Second)%Q.

(** ** Values the loop holds *)

(** Function values are known to the loop by identity only: it stores them,
    tests them against nil and calls them. *)
Definition InputFunc : Type := nat.
Definition UpdateFunc : Type := nat.
Definition RenderFunc : Type := nat.
Definition RecoverFunc : Type := nat.

(** A non-nil interface value, as [recover()] hands it over: what a callback
    passed to [panic], or a run-time error. *)
Inductive any : Type :=
| value (repr : string)
| runtimeError (msg : string).

Inductive error : Type :=
| errors_New (msg : string).

(** Modelled from the spec: [ERR_NO_UPDATE_FUNC], the message of the error
    [Start] returns without an update function.  The constant is declared in
    a file of the package that is not part of the sources at hand; the
    specification names the failure MissingUpdateCallback. *)
Definition ERR_NO_UPDATE_FUNC : string := "MissingUpdateCallback".

(** The state of a [chan struct{}] on which nothing is ever sent. *)
Inductive chan : Type :=
| chan_nil
| chan_open
| chan_closed.

(** The [Loop] struct.  Its [once] field is declared and never used. *)
Record Loop : Type := mkLoop {
  targetFps : Z;
  msPerFrame : Z;
  stopCh : chan;
  isDebugMode : bool;
  isRunning : bool;
  input : option InputFunc;
  update : option UpdateFunc;
  render : option RenderFunc;
  recoverFunc : option RecoverFunc;
  currentFps : Z
}.

(** [&Loop{}] *)
Definition zero_Loop : Loop :=
  mkLoop 0 0 chan_nil false false None None None None 0.

(** ** Configuration

    Each setter returns its receiver, here the updated value. *)

Definition DEFAULT_FPS : Z := 60.

Definition SetDebug (debug : bool) (l : Loop) : Loop :=
  mkLoop (targetFps l) (msPerFrame l) (stopCh l) debug (isRunning l)
         (input l) (update l) (render l) (recoverFunc l) (currentFps l).

Definition SetTargetFps (fps : Z) (l : Loop) : Loop :=
  let targetFps' := Z.max fps 1 in
  let msPerFrame' :=
    Float32.to_int
      (Float32.mul
         (Float32.div (Float32.of_int 1) (Float32.of_int targetFps'))
         (Float32.of_int 1000)) in
  mkLoop targetFps' msPerFrame' (stopCh l) (isDebugMode l) (isRunning l)
         (input l) (update l) (render l) (recoverFunc l) (currentFps l).

Definition NewLoop : Loop := SetTargetFps DEFAULT_FPS zero_Loop.

Definition GetTargetFps (l : Loop) : Z := targetFps l.
Definition GetCurrentFps (l : Loop) : Z := currentFps l.
Definition IsRunning (l : Loop) : bool := isRunning l.

Definition SetUpdateFunc (f : option UpdateFunc) (l : Loop) : Loop :=
  mkLoop (targetFps l) (msPerFrame l) (stopCh l) (isDebugMode l) (isRunning l)
         (input l) f (render l) (recoverFunc l) (currentFps l).

Definition SetInputFunc (f : option InputFunc) (l : Loop) : Loop :=
  mkLoop (targetFps l) (msPerFrame l) (stopCh l) (isDebugMode l) (isRunning l)
         f (update l) (render l) (recoverFunc l) (currentFps l).

Definition SetRenderFunc (f : option RenderFunc) (l : Loop) : Loop :=
  mkLoop (targetFps l) (msPerFrame l) (stopCh l) (isDebugMode l) (isRunning l)
         (input l) (update l) f (recoverFunc l) (currentFps l).

Definition SetRecoverFunc (f : option RecoverFunc) (l : Loop) : Loop :=
  mkLoop (targetFps l) (msPerFrame l) (stopCh l) (isDebugMode l) (isRunning l)
         (input l) (update l) (render l) f (currentFps l).

(** Field assignments made by [Start], [Stop] and [run]. *)

Definition set_isRunning (b : bool) (l : Loop) : Loop :=
  mkLoop (targetFps l) (msPerFrame l) (stopCh l) (isDebugMode l) b
         (input l) (update l) (render l) (recoverFunc l) (currentFps l).

Definition set_stopCh (c : chan) (l : Loop) : Loop :=
  mkLoop (targetFps l) (msPerFrame l) c (isDebugMode l) (isRunning l)
         (input l) (update l) (render l) (recoverFunc l) (currentFps l).

Definition set_currentFps (n : Z) (l : Loop) : Loop :=
  mkLoop (targetFps l) (msPerFrame l) (stopCh l) (isDebugMode l) (isRunning l)
         (input l) (update l) (render l) (recoverFunc l) n.

(** ** The earlier revisions of the rate setter *)

Module Rev1.

(** First revision: the rate is a [uint16], the budget a [float32]. *)
Record loop : Type := mkloop {
  targetFps : Z;
  msPerFrame : Float32.float32
}.

Definition SetTargetFps (fps : Z) (l : loop) : loop :=
  let targetFps' := uint16 (Z.max (Z.min fps 65535) 1) in
  mkloop targetFps'
         (Float32.div (Float32.of_int 1000) (Float32.of_int targetFps')).

Definition GetTargetFps (l : loop) : Z := targetFps l.

End Rev1.

Module Rev2.

(** Second revision: rate and budget are [int]s and the budget is computed
    with integer division. *)
Record Loop : Type := mkLoop {
  targetFps : Z;
  msPerFrame : Z
}.

Definition SetTargetFps (fps : Z) (l : Loop) : Loop :=
  let targetFps' := Z.max fps 1 in
  mkLoop targetFps' (wrap64 (Z.quot 1 targetFps' * 1000)).

End Rev2.

(** ** The first revision and its safe mode

    The configuration surface of the first revision, with the flag that
    freezes the callbacks of a running loop, and [Quit].  Its loop runs the
    update function on goroutines of its own and is not modelled; of [Start]
    there is what it does before it hands over to that loop. *)

Module SafeMode.

Record loop : Type := mkloop {
  targetFps : Z;
  msPerFrame : Float32.float32;
  quitCh : chan;
  isDebugMode : bool;
  isSafeMode : bool;
  isRunning : bool;
  input : option InputFunc;
  update : option UpdateFunc;
  render : option RenderFunc;
  currentFps : Z
}.

(** [&loop{}] *)
Definition zero_loop : loop :=
  mkloop 0 (S754_zero false) chan_nil false false false None None None 0.

Definition shouldPreventSensitiveChanges (l : loop) : bool :=
  isSafeMode l && isRunning l.

Definition SetDebug (debug : bool) (l : loop) : loop :=
  mkloop (targetFps l) (msPerFrame l) (quitCh l) debug (isSafeMode l)
         (isRunning l) (input l) (update l) (render l) (currentFps l).

Definition SetSafeMode (safe : bool) (l : loop) : loop :=
  if shouldPreventSensitiveChanges l then l
  else
    mkloop (targetFps l) (msPerFrame l) (quitCh l) (isDebugMode l) safe
           (isRunning l) (input l) (update l) (render l) (currentFps l).

Definition SetTargetFps (fps : Z) (l : loop) : loop :=
  let targetFps' := uint16 (Z.max (Z.min fps 65535) 1) in
  mkloop targetFps'
         (Float32.div (Float32.of_int 1000) (Float32.of_int targetFps'))
         (quitCh l) (isDebugMode l) (isSafeMode l) (isRunning l)
         (input l) (update l) (render l) (currentFps l).

Definition NewLoop : loop := SetTargetFps DEFAULT_FPS zero_loop.

Definition GetTargetFps (l : loop) : Z := targetFps l.

Definition SetUpdateFunc (f : option UpdateFunc) (l : loop) : loop :=
  if shouldPreventSensitiveChanges l then l
  else
    mkloop (targetFps l) (msPerFrame l) (quitCh l) (isDebugMode l)
           (isSafeMode l) (isRunning l) (input l) f (render l) (currentFps l).

Definition SetInputFunc (f : option InputFunc) (l : loop) : loop :=
  if shouldPreventSensitiveChanges l then l
  else
    mkloop (targetFps l) (msPerFrame l) (quitCh l) (isDebugMode l)
           (isSafeMode l) (isRunning l) f (update l) (render l) (currentFps l).

Definition SetRenderFunc (f : option RenderFunc) (l : loop) : loop :=
  if shouldPreventSensitiveChanges l then l
  else
    mkloop (targetFps l) (msPerFrame l) (quitCh l) (isDebugMode l)
           (isSafeMode l) (isRunning l) (input l) (update l) f (currentFps l).

Definition IsRunning (l : loop) : bool := isRunning l.

Definition GetCurrentFps (l : loop) : Z := currentFps l.

(** [Start] up to its [l.once.Do(l.start)]: the error for a missing update
    function, or the loop flagged as running. *)
Definition Start_enter (l : loop) : error + loop :=
  match update l with
  | None => inl (errors_New ERR_NO_UPDATE_FUNC)
  | Some _ =>
      inr (mkloop (targetFps l) (msPerFrame l) (quitCh l) (isDebugMode l)
                  (isSafeMode l) true (input l) (update l) (render l)
                  (currentFps l))
  end.

Section Quit.

(** The message of the error [Quit] returns; the constant is declared in a
    file of the package that is not part of the sources at hand. *)
Variable ERR_QUIT_CHAN_BLOCKED : string.

(** [Quit]: a send in a [select] with a [default].  The send goes through
    when the channel is open and the loop is waiting to receive from it; on
    a nil channel it never does; on a closed one it panics. *)
Definition Quit (receiving : bool) (l : loop) : option error + any :=
  match quitCh l with
  | chan_open =>
      if receiving then inl None
      else inl (Some (errors_New ERR_QUIT_CHAN_BLOCKED))
  | chan_nil => inl (Some (errors_New ERR_QUIT_CHAN_BLOCKED))
  | chan_closed => inr (runtimeError "send on closed channel")
  end.

End Quit.

(** What a program can do to a loop. *)
Inductive op : Type :=
| op_Debug (debug : bool)
| op_SafeMode (safe : bool)
| op_TargetFps (fps : Z)
| op_UpdateFunc (f : option UpdateFunc)
| op_InputFunc (f : option InputFunc)
| op_RenderFunc (f : option RenderFunc)
| op_Start.

Definition apply (o : op) (l : loop) : loop :=
  match o with
  | op_Debug debug => SetDebug debug l
  | op_SafeMode safe => SetSafeMode safe l
  | op_TargetFps fps => SetTargetFps fps l
  | op_UpdateFunc f => SetUpdateFunc f l
  | op_InputFunc f => SetInputFunc f l
  | op_RenderFunc f => SetRenderFunc f l
  | op_Start =>
      match Start_enter l with
      | inl _ => l
      | inr l' => l'
      end
  end.

(** The operations of [os], the first one first. *)
Definition apply_all (os : list op) (l : loop) : loop :=
  fold_left (fun l o => apply o l) os l.

End SafeMode.

(** ** The world around the loop

    The loop reads the clock, sleeps and calls the functions registered with
    it.  What these do is the environment's choice and is drawn from two
    oracles: [drift n] is the time that passes until the [n]-th use of the
    clock, [effects n] what the [n]-th call of a registered function does.
    A call takes some time, may stop the loop (the function calls [Stop], or
    another goroutine does while the function runs) and returns or panics.
    Registration is done before the loop starts; functions are assumed to
    come back, as the package assumes. *)

Record effect : Type := mkEffect {
  took : Duration;
  stops : bool;
  raised : option any
}.

Record Env : Type := mkEnv {
  drift : nat -> Duration;
  effects : nat -> effect
}.

(** Everything the loop does to its surroundings, in order. *)
Inductive event : Type :=
| ev_now (t : Time)
| ev_input (f : InputFunc)
| ev_update (f : UpdateFunc) (deltaTime : Duration)
| ev_render (f : RenderFunc)
| ev_recover (f : RecoverFunc) (r : any)
| ev_sleep (d : Duration).

Record World : Type := mkWorld {
  loop : Loop;
  clock : Time;
  reads : nat;
  calls : nat;
  log : list event
}.

Definition boot (l : Loop) : World := mkWorld l 0 0 0 [].

Definition with_loop (l : Loop) (w : World) : World :=
  mkWorld l (clock w) (reads w) (calls w) (log w).

(** How a piece of code ends: it returns, it panics, or it is still looping
    when the fuel given to [run] is spent. *)
Inductive result (A : Type) : Type :=
| Ret (a : A) (w : World)
| Panic (r : any) (w : World)
| Spin (w : World).

Arguments Ret {A} a w.
Arguments Panic {A} r w.
Arguments Spin {A} w.

Definition world_of {A : Type} (r : result A) : World :=
  match r with
  | Ret _ w => w
  | Panic _ w => w
  | Spin w => w
  end.

Definition M (A : Type) : Type := World -> result A.

Definition ret {A : Type} (a : A) : M A := fun w => Ret a w.

Definition bind {A B : Type} (m : M A) (k : A -> M B) : M B :=
  fun w =>
    match m w with
    | Ret a w' => k a w'
    | Panic r w' => Panic r w'
    | Spin w' => Spin w'
    end.

Declare Scope go_scope.
Delimit Scope go_scope with go.
Notation "x <- m ;; k" := (bind m (fun x => k))
  (at level 61, m at next level, right associativity) : go_scope.
Notation "m ;; k" := (bind m (fun _ => k))
  (at level 61, right associativity) : go_scope.
Local Open Scope go_scope.

Definition get_loop : M Loop := fun w => Ret (loop w) w.

Definition modify_loop (f : Loop -> Loop) : M unit :=
  fun w => Ret tt (with_loop (f (loop w)) w).

(** [time.Now()] *)
Definition time_Now (env : Env) : M Time :=
  fun w =>
    let t := clock w + drift env (reads w) in
    Ret t (mkWorld (loop w) t (S (reads w)) (calls w) (log w ++ [ev_now t])).

(** [time.Since(t0)], that is [time.Now().Sub(t0)] *)
Definition time_Since (env : Env) (t0 : Time) : M Duration :=
  t <- time_Now env ;; ret (Time_Sub t t0).

(** [time.Sleep(d)]: at least [d], nothing when [d] is not positive. *)
Definition time_Sleep (env : Env) (d : Duration) : M unit :=
  fun w =>
    Ret tt (mkWorld (loop w) (clock w + Z.max d 0 + drift env (reads w))
                    (S (reads w)) (calls w) (log w ++ [ev_sleep d])).

(** [close(c)] *)
Definition close (c : chan) : chan + any :=
  match c with
  | chan_open => inl chan_closed
  | chan_closed => inr (runtimeError "close of closed channel")
  | chan_nil => inr (runtimeError "close of nil channel")
  end.

(** ** Stop *)

Definition Stop : M (option error) :=
  l <- get_loop ;;
  if negb (isRunning l) then ret None
  else
    modify_loop (set_isRunning false) ;;
    l <- get_loop ;;
    match close (stopCh l) with
    | inl c => modify_loop (set_stopCh c) ;; ret None
    | inr r => fun w => Panic r w
    end.

(** A call of a registered function: [e] names the function and its
    argument. *)
Definition call (env : Env) (e : event) : M unit :=
  fun w =>
    let eff := effects env (calls w) in
    let w1 := mkWorld (loop w) (clock w + took eff) (reads w) (S (calls w))
                      (log w ++ [e]) in
    ((if stops eff then Stop ;; ret tt else ret tt) ;;
     match raised eff with
     | Some r => fun w' => Panic r w'
     | None => ret tt
     end) w1.

(** ** run *)

(** The local variables of [run]. *)
Record frame : Type := mkFrame {
  frameCounter : Z;
  lastFrame : Time;
  lastSecond : Time
}.

(** [case <-l.stopCh] is ready once the channel is closed; an open channel
    with no sender and a nil channel never are, and [default] runs. *)
Definition stop_received (l : Loop) : bool :=
  match stopCh l with
  | chan_closed => true
  | _ => false
  end.

(** The [default] branch of the select: one iteration. *)
Definition iteration (env : Env) (loc : frame) : M frame :=
  start <- time_Now env ;;
  l <- get_loop ;;
  match input l with
  | Some f => call env (ev_input f)
  | None => ret tt
  end ;;
  l <- get_loop ;;
  match update l with
  | Some f =>
      deltaTime <- time_Since env (lastFrame loc) ;;
      call env (ev_update f deltaTime)
  | None => ret tt
  end ;;
  l <- get_loop ;;
  match render l with
  | Some f => call env (ev_render f)
  | None => ret tt
  end ;;
  lastFrame' <- time_Now env ;;
  let frameCounter' := wrap64 (frameCounter loc + 1) in
  elapsed <- time_Since env (lastSecond loc) ;;
  meter <-
    (if Qle_bool 1 (Duration_Seconds elapsed) then
       modify_loop (set_currentFps frameCounter') ;;
       lastSecond' <- time_Now env ;;
       ret (0, lastSecond')
     else ret (frameCounter', lastSecond loc)) ;;
  l <- get_loop ;;
  sinceStart <- time_Since env start ;;
  let sleepTime := wrap64 (msPerFrame l - Duration_Milliseconds sinceStart) in
  (if 0 <? sleepTime then time_Sleep env (wrap64 (sleepTime * Millisecond))
   else ret tt) ;;
  ret (mkFrame (fst meter) lastFrame' (snd meter)).

(** The [for] loop, at most [fuel] times round. *)
Fixpoint run_loop (fuel : nat) (env : Env) (loc : frame) (w : World)
  : result unit :=
  match fuel with
  | O => Spin w
  | S fuel' =>
      if stop_received (loop w) then Ret tt w
      else
        match iteration env loc w with
        | Ret loc' w' => run_loop fuel' env loc' w'
        | Panic r w' => Panic r w'
        | Spin w' => Spin w'
        end
  end.

Definition run (fuel : nat) (env : Env) : M unit :=
  modify_loop (set_stopCh chan_open) ;;
  lastFrame0 <- time_Now env ;;
  lastSecond0 <- time_Now env ;;
  run_loop fuel env (mkFrame 0 lastFrame0 lastSecond0).

(** ** Start *)

(** The body of [Start] below its [defer] statement. *)
Definition Start_body (fuel : nat) (env : Env) : M (option error) :=
  l <- get_loop ;;
  match update l with
  | None => ret (Some (errors_New ERR_NO_UPDATE_FUNC))
  | Some _ =>
      if isRunning l then ret None
      else
        modify_loop (set_isRunning true) ;;
        run fuel env ;;
        ret None
  end.

(** The deferred function, run when the body panics with [r]: [recover()]
    yields [r], never nil, and [l.recoverFunc] is read and called then. *)
Definition recovered (env : Env) (r : any) : M (option error) :=
  l <- get_loop ;;
  match recoverFunc l with
  | Some f => call env (ev_recover f r) ;; ret None
  | None =>
      fun w =>
        Panic (runtimeError "invalid memory address or nil pointer dereference") w
  end.

Definition Start (fuel : nat) (env : Env) : M (option error) :=
  fun w =>
    match recoverFunc (loop w) with
    | Some _ =>
        match Start_body fuel env w with
        | Panic r w' => recovered env r w'
        | other => other
        end
    | None => Start_body fuel env w
    end.

(** ** Reading the log *)

Definition is_phase (e : event) : bool :=
  match e with
  | ev_input _ | ev_update _ _ | ev_render _ => true
  | _ => false
  end.

Definition is_sleep (e : event) : bool :=
  match e with
  | ev_sleep _ => true
  | _ => false
  end.

Definition is_call (e : event) : bool :=
  match e with
  | ev_now _ | ev_sleep _ => false
  | _ => true
  end.

Definition opt_list {A : Type} (o : option A) (f : A -> list event)
  : list event :=
  match o with
  | Some a => f a
  | None => []
  end.

(** The events of the three phases of an iteration that starts at [ts];
    [tu] is the reading of the clock taken for the delta time. *)
Definition phase_calls (l : Loop) (loc : frame) (ts tu : Time) : list event :=
  ev_now ts
    :: opt_list (input l) (fun f => [ev_input f])
    ++ opt_list (update l)
         (fun f => [ev_now tu; ev_update f (Time_Sub tu (lastFrame loc))])
    ++ opt_list (render l) (fun f => [ev_render f]).

(** ** Invariants *)

(** The budget is the whole number of milliseconds in a second over the
    rate. *)
Definition budget_ok (l : Loop) : Prop :=
  1 <= targetFps l <= max_int /\ msPerFrame l = 1000 / targetFps l.

(** A loop flagged as running has an open stop channel. *)
Definition stop_ready (l : Loop) : Prop :=
  isRunning l = true -> stopCh l = chan_open.

(** The clock does not go backwards. *)
Definition monotone (env : Env) : Prop :=
  (forall n, 0 <= drift env n) /\ (forall n, 0 <= took (effects env n)).

(** The configuration of a loop: every field but the run state and the
    published rate. *)
Definition same_setup (l l' : Loop) : Prop :=
  targetFps l' = targetFps l /\ msPerFrame l' = msPerFrame l /\
  isDebugMode l' = isDebugMode l /\ input l' = input l /\
  update l' = update l /\ render l' = render l /\
  recoverFunc l' = recoverFunc l.

(** The run state while [run] is on the stack: running with an open channel,
    or stopped with the channel closed. *)
Definition run_state (l : Loop) : Prop :=
  (isRunning l = true /\ stopCh l = chan_open) \/
  (isRunning l = false /\ stopCh l = chan_closed).

(** No pacing sleep among the events. *)
Definition no_sleep (evs : list event) : Prop :=
  forall d, ~ In (ev_sleep d) evs.

(** The loop as [Stop] leaves a running one. *)
Definition stopped (l : Loop) : Loop :=
  set_stopCh chan_closed (set_isRunning false l).

(** ** The two halves of an iteration

    [iteration] first calls the registered functions and then does its
    bookkeeping: the finish time of the frame, the rate meter and the pacing
    sleep.  The two halves are named here, with the code of [iteration], so
    that what follows can speak of the world between them. *)

(** The calls of the three phases, followed by [k]. *)
Definition phases_then {A : Type} (env : Env) (loc : frame) (k : M A) : M A :=
  l <- get_loop ;;
  match input l with
  | Some f => call env (ev_input f)
  | None => ret tt
  end ;;
  l <- get_loop ;;
  match update l with
  | Some f =>
      deltaTime <- time_Since env (lastFrame loc) ;;
      call env (ev_update f deltaTime)
  | None => ret tt
  end ;;
  l <- get_loop ;;
  match render l with
  | Some f => call env (ev_render f)
  | None => ret tt
  end ;;
  k.

(** The bookkeeping of an iteration whose first reading of the clock was
    [start]. *)
Definition finish_frame (env : Env) (loc : frame) (start : Time) : M frame :=
  lastFrame' <- time_Now env ;;
  let frameCounter' := wrap64 (frameCounter loc + 1) in
  elapsed <- time_Since env (lastSecond loc) ;;
  meter <-
    (if Qle_bool 1 (Duration_Seconds elapsed) then
       modify_loop (set_currentFps frameCounter') ;;
       lastSecond' <- time_Now env ;;
       ret (0, lastSecond')
     else ret (frameCounter', lastSecond loc)) ;;
  l <- get_loop ;;
  sinceStart <- time_Since env start ;;
  let sleepTime := wrap64 (msPerFrame l - Duration_Milliseconds sinceStart) in
  (if 0 <? sleepTime then time_Sleep env (wrap64 (sleepTime * Millisecond))
   else ret tt) ;;
  ret (mkFrame (fst meter) lastFrame' (snd meter)).

(** The events of the three phases, without the reading of the clock that
    opens the iteration. *)
Definition phase_events (l : Loop) (loc : frame) (tu : Time) : list event :=
  opt_list (input l) (fun f => [ev_input f])
    ++ opt_list (update l)
         (fun f => [ev_now tu; ev_update f (Time_Sub tu (lastFrame loc))])
    ++ opt_list (render l) (fun f => [ev_render f]).

(** ** What a stretch of a run does *)

(** One of the calls numbered [a] to [b - 1] stops the loop. *)
Definition stops_within (env : Env) (a b : nat) : Prop :=
  exists k, (a <= k < b)%nat /\ stops (effects env k) = true.

(** None of the calls numbered [a] to [b - 1] panics. *)
Definition quiet_within (env : Env) (a b : nat) : Prop :=
  forall k, (a <= k < b)%nat -> raised (effects env k) = None.

(** From [w] to [w'] the loop made calls of registered functions and read
    the clock: the configuration and the published rate are as they were,
    and the stop channel is closed in [w'] if it was in [w] or one of the
    calls made in between stopped the loop. *)
Definition advances (env : Env) (w w' : World) : Prop :=
  same_setup (loop w) (loop w') /\
  currentFps (loop w') = currentFps (loop w) /\
  run_state (loop w') /\
  (calls w <= calls w')%nat /\
  (stopCh (loop w') = chan_closed <->
   stopCh (loop w) = chan_closed \/ stops_within env (calls w) (calls w')) /\
  (monotone env -> clock w <= clock w').

(** ** The loop as [Start] enters it *)

(** The local variables of [run] when it reaches its [for] statement. *)
Definition entry_frame (env : Env) (w : World) : frame :=
  let t0 := clock w + drift env (reads w) in
  mkFrame 0 t0 (t0 + drift env (S (reads w))).

(** The world in which [Start] reaches the [for] statement of [run]: the
    loop is flagged as running, its stop channel is new and the clock has
    been read twice. *)
Definition entry_world (env : Env) (w : World) : World :=
  let t0 := clock w + drift env (reads w) in
  let t1 := t0 + drift env (S (reads w)) in
  mkWorld (set_stopCh chan_open (set_isRunning true (loop w))) t1
          (S (S (reads w))) (calls w) ((log w ++ [ev_now t0]) ++ [ev_now t1]).

(** ** Counting the calls of update *)

Definition is_update (e : event) : bool :=
  match e with
  | ev_update _ _ => true
  | _ => false
  end.

(** The number of calls of the update function among the events. *)
Definition updates (evs : list event) : Z :=
  Z.of_nat (List.length (filter is_update evs)).

(** ** Runs that differ in the calls of [Stop] only *)

(** The environment [env] with the calls of [Stop] taken out. *)
Definition unstopped (env : Env) : Env :=
  mkEnv (drift env)
        (fun n => mkEffect (took (effects env n)) false (raised (effects env n))).

(** Two loops that differ in the run state at most. *)
Definition alike (l l' : Loop) : Prop :=
  same_setup l l' /\ currentFps l' = currentFps l.

(** Two worlds that differ in the run state of the loop at most, during a
    run. *)
Definition agree (w w' : World) : Prop :=
  clock w' = clock w /\ reads w' = reads w /\ calls w' = calls w /\
  log w' = log w /\ alike (loop w) (loop w') /\
  run_state (loop w) /\ run_state (loop w').

(** Two results that differ so. *)
Definition agree_on {A B : Type} (R : A -> B -> Prop)
  (r : result A) (r' : result B) : Prop :=
  match r, r' with
  | Ret a v, Ret b v' => R a b /\ agree v v'
  | Panic x v, Panic y v' => x = y /\ agree v v'
  | Spin v, Spin v' => agree v v'
  | _, _ => False
  end.

(** Two pieces of code that do the same but for the run state. *)
Definition sim {A B : Type} (R : A -> B -> Prop) (m : M A) (m' : M B) : Prop :=
  forall w w', agree w w' -> agree_on R (m w) (m' w').

(** ** The loop of the second revision

    [Start], [Stop] and [run] of the second revision.  Its struct has the
    fields of the latest one but [recoverFunc], and [currentFps] is a
    [uint16]; its methods are run here on the latest struct and leave
    [recoverFunc] alone.  [Stop] and the calls of the three phases read as
    in the latest revision; the rate setter, the rate meter and the pacing
    sleep differ, and [Start] has no [defer]. *)

Module Rev2Run.

Definition uint64 (z : Z) : Z := z mod 2 ^ 64.

Definition SetTargetFps (fps : Z) (l : Loop) : Loop :=
  let targetFps' := Z.max fps 1 in
  mkLoop targetFps' (wrap64 (Z.quot 1 targetFps' * 1000))
         (stopCh l) (isDebugMode l) (isRunning l)
         (input l) (update l) (render l) (recoverFunc l) (currentFps l).

(** The bookkeeping of an iteration whose first reading of the clock was
    [start]; [frameCounter] is a [uint64] here. *)
Definition finish_frame (env : Env) (loc : frame) (start : Time) : M frame :=
  lastFrame' <- time_Now env ;;
  let frameCounter' := uint64 (frameCounter loc + 1) in
  elapsed <- time_Since env (lastSecond loc) ;;
  meter <-
    (if 1000 <? elapsed then
       modify_loop
         (set_currentFps
            (uint16 (uint64 (frameCounter' * Second) / uint64 elapsed))) ;;
       lastSecond' <- time_Now env ;;
       ret (0, lastSecond')
     else ret (frameCounter', lastSecond loc)) ;;
  l <- get_loop ;;
  sinceStart <- time_Since env start ;;
  let sleepTime := wrap64 (wrap64 (msPerFrame l * Millisecond) - sinceStart) in
  (if 0 <? sleepTime then time_Sleep env sleepTime else ret tt) ;;
  ret (mkFrame (fst meter) lastFrame' (snd meter)).

(** The [default] branch of the select: one iteration. *)
Definition iteration (env : Env) (loc : frame) : M frame :=
  start <- time_Now env ;;
  phases_then env loc (finish_frame env loc start).

Fixpoint run_loop (fuel : nat) (env : Env) (loc : frame) (w : World)
  : result unit :=
  match fuel with
  | O => Spin w
  | S fuel' =>
      if stop_received (loop w) then Ret tt w
      else
        match iteration env loc w with
        | Ret loc' w' => run_loop fuel' env loc' w'
        | Panic r w' => Panic r w'
        | Spin w' => Spin w'
        end
  end.

Definition run (fuel : nat) (env : Env) : M unit :=
  modify_loop (set_stopCh chan_open) ;;
  lastFrame0 <- time_Now env ;;
  lastSecond0 <- time_Now env ;;
  run_loop fuel env (mkFrame 0 lastFrame0 lastSecond0).

Definition Start (fuel : nat) (env : Env) : M (option error) :=
  l <- get_loop ;;
  match update l with
  | None => ret (Some (errors_New ERR_NO_UPDATE_FUNC))
  | Some _ =>
      if isRunning l then ret None
      else
        modify_loop (set_isRunning true) ;;
        run fuel env ;;
        ret None
  end.

End Rev2Run.

(** ** The states a program can bring a loop into

    A loop is made by [NewLoop], and then configured, started and stopped.
    The rate handed to [SetTargetFps] is an [int]. *)

Inductive config : Type :=
| cfg_Debug (debug : bool)
| cfg_TargetFps (fps : Z)
| cfg_UpdateFunc (f : option UpdateFunc)
| cfg_InputFunc (f : option InputFunc)
| cfg_RenderFunc (f : option RenderFunc)
| cfg_RecoverFunc (f : option RecoverFunc).

Definition configure (c : config) (l : Loop) : Loop :=
  match c with
  | cfg_Debug debug => SetDebug debug l
  | cfg_TargetFps fps => SetTargetFps fps l
  | cfg_UpdateFunc f => SetUpdateFunc f l
  | cfg_InputFunc f => SetInputFunc f l
  | cfg_RenderFunc f => SetRenderFunc f l
  | cfg_RecoverFunc f => SetRecoverFunc f l
  end.

Definition int_arg (c : config) : Prop :=
  match c with
  | cfg_TargetFps fps => min_int <= fps <= max_int
  | _ => True
  end.

Inductive reachable : World -> Prop :=
| reach_NewLoop : reachable (boot NewLoop)
| reach_configure c w :
    reachable w -> int_arg c -> reachable (with_loop (configure c (loop w)) w)
| reach_Stop w : reachable w -> reachable (world_of (Stop w))
| reach_Start fuel env w :
    reachable w -> reachable (world_of (Start fuel env w)).

(** Two configuration calls write the same field. *)
Definition same_field (c1 c2 : config) : bool :=
  match c1, c2 with
  | cfg_Debug _, cfg_Debug _ => true
  | cfg_TargetFps _, cfg_TargetFps _ => true
  | cfg_UpdateFunc _, cfg_UpdateFunc _ => true
  | cfg_InputFunc _, cfg_InputFunc _ => true
  | cfg_RenderFunc _, cfg_RenderFunc _ => true
  | cfg_RecoverFunc _, cfg_RecoverFunc _ => true
  | _, _ => false
  end.

(** ** The handling of faults, as the specification words it

    A fault raised by a phase callback is handed to the registered handler,
    [Start] returns normally, nothing more is run, and the loop is left as
    [Stop] leaves it: no longer flagged as running. *)
Definition fault_ends_as_stopped : Prop :=
  forall fuel env w h r wp,
    recoverFunc (loop w) = Some h ->
    Start_body fuel env w = Panic r wp ->
    raised (effects env (calls wp)) = None ->
    exists w',
      Start fuel env w = Ret None w' /\
      log w' = log wp ++ [ev_recover h r] /\
      IsRunning (loop w') = false.

(** ** A sample program

    Every use of the clock costs a microsecond and every call two
    milliseconds; the call numbered [stop_at] stops the loop and the call
    numbered [panic_at] panics. *)
Definition sample_env (stop_at panic_at : nat) : Env :=
  mkEnv (fun _ => 1000)
        (fun n => mkEffect 2000000 (Nat.eqb n stop_at)
                           (if Nat.eqb n panic_at then Some (value "boom")
                            else None)).

Definition onInput : InputFunc := 1%nat.
Definition onUpdate : UpdateFunc := 2%nat.
Definition onRender : RenderFunc := 3%nat.
Definition onFault : RecoverFunc := 4%nat.

(** A loop at 50 frames a second with its three phases registered. *)
Definition sample_loop : Loop :=
  SetRenderFunc (Some onRender)
    (SetUpdateFunc (Some onUpdate)
       (SetInputFunc (Some onInput) (SetTargetFps 50 NewLoop))).

(** The same with a fault handler. *)
Definition guarded_loop : Loop := SetRecoverFunc (Some onFault) sample_loop.

(** The sample loop two iterations into its run. *)
Definition running_world : World :=
  world_of (Start 2 (sample_env 100 100) (boot sample_loop)).

(** The frame of an iteration some way into a run. *)
Definition sample_frame : frame := mkFrame 5 0 0.

(** An environment in which nothing ever stops the loop or panics. *)
Definition steady_env : Env :=
  mkEnv (fun _ => 1000) (fun _ => mkEffect 2000000 false None).

(** The sample loop after a run that its update function stopped in the
    second iteration. *)
Definition stopped_world : World :=
  world_of (Start 6 (sample_env 4 100) (boot sample_loop)).

(** A loop of the first revision with an update function, in safe mode,
    started. *)
Definition started_loop : SafeMode.loop :=
  SafeMode.apply_all
    [SafeMode.op_UpdateFunc (Some onUpdate); SafeMode.op_SafeMode true;
     SafeMode.op_Start]
    SafeMode.NewLoop.

(** * Proofs *)

(** ** Rounding to float32

    Facts on the rounding of [SpecFloat] at the precision of float32, for
    values in the normal range. *)

Section Rounding.

Lemma digits2_pos_size p : digits2_pos p = Pos.size p.
Proof. induction p; simpl; congruence. Qed.

Lemma Zdigits2_bounds p :
  2 ^ (Zdigits2 (Zpos p) - 1) <= Zpos p < 2 ^ Zdigits2 (Zpos p).
Proof.
  unfold Zdigits2. rewrite digits2_pos_size.
  pose proof (Pos.size_gt p) as Hgt. pose proof (Pos.size_le p) as Hle.
  apply Pos2Z.pos_lt_pos in Hgt. apply Pos2Z.pos_le_pos in Hle.
  rewrite Pos2Z.inj_pow in Hgt, Hle.
  split; [|exact Hgt].
  replace (Zpos (Pos.size p)) with (Z.succ (Zpos (Pos.size p) - 1)) in Hle by lia.
  rewrite Z.pow_succ_r in Hle by lia. lia.
Qed.

Lemma Zdigits2_unique p n :
  2 ^ (n - 1) <= Zpos p < 2 ^ n -> Zdigits2 (Zpos p) = n.
Proof.
  intros [Hlo Hhi]. destruct (Zdigits2_bounds p) as [Dlo Dhi].
  assert (Hd : 0 < Zdigits2 (Zpos p)) by (simpl; lia).
  assert (Hn : 0 < n).
  { destruct (Z_lt_le_dec 0 n) as [|Hn0]; [assumption|].
    destruct (Z.eq_dec n 0) as [->|]; [simpl in Hhi; lia|].
    rewrite (Z.pow_neg_r 2 n) in Hhi by lia. lia. }
  destruct (Z_lt_le_dec (Zdigits2 (Zpos p)) n) as [Hlt|Hge].
  - assert (2 ^ Zdigits2 (Zpos p) <= 2 ^ (n - 1)) by (apply Z.pow_le_mono_r; lia). lia.
  - destruct (Z.eq_dec (Zdigits2 (Zpos p)) n) as [|Hne]; [assumption|].
    assert (2 ^ n <= 2 ^ (Zdigits2 (Zpos p) - 1)) by (apply Z.pow_le_mono_r; lia). lia.
Qed.

Lemma shr_1_m r : 0 <= shr_m r -> shr_m (shr_1 r) = shr_m r / 2.
Proof.
  destruct r as [m b s]; simpl. intros Hm.
  destruct m as [|[q|q|]|q]; simpl; try reflexivity; try lia.
  - rewrite Pos2Z.inj_xI. apply Z.div_unique with (r := 1); lia.
  - rewrite Pos2Z.inj_xO. apply Z.div_unique with (r := 0); lia.
Qed.

Lemma iter_shr_1_m p : forall r,
  0 <= shr_m r -> shr_m (iter_pos shr_1 p r) = shr_m r / 2 ^ Zpos p.
Proof.
  induction p as [p IH|p IH|]; intros r Hr; simpl iter_pos.
  - assert (H1 : 0 <= shr_m (shr_1 r)) by (rewrite shr_1_m by assumption; apply Z.div_pos; lia).
    assert (H2 : 0 <= shr_m (iter_pos shr_1 p (shr_1 r))) by (rewrite IH by assumption; apply Z.div_pos; lia).
    rewrite IH, IH, shr_1_m by assumption.
    rewrite !Z.div_div by lia. f_equal.
    replace (Zpos p~1) with (1 + Zpos p + Zpos p) by lia.
    rewrite !Z.pow_add_r by lia. change (2 ^ 1) with 2. ring.
  - assert (H2 : 0 <= shr_m (iter_pos shr_1 p r)) by (rewrite IH by assumption; apply Z.div_pos; lia).
    rewrite IH, IH by assumption.
    rewrite !Z.div_div by lia. f_equal.
    replace (Zpos p~0) with (Zpos p + Zpos p) by lia.
    rewrite Z.pow_add_r by lia. ring.
  - rewrite shr_1_m by assumption. reflexivity.
Qed.

Lemma shr_m_shr r e n :
  0 <= shr_m r -> 0 <= n ->
  shr_m (fst (shr r e n)) = shr_m r / 2 ^ n /\ snd (shr r e n) = e + n.
Proof.
  intros Hr Hn. destruct n as [|p|p]; simpl; try lia.
  - rewrite Z.div_1_r. lia.
  - rewrite iter_shr_1_m by assumption. auto.
Qed.

Lemma shr_record_of_loc_m m l : shr_m (shr_record_of_loc m l) = m.
Proof. destruct l as [|[]]; reflexivity. Qed.

Lemma round_nearest_even_range m l :
  m <= round_nearest_even m l <= m + 1.
Proof. destruct l as [|[]]; simpl; try lia. destruct (Z.even m); lia. Qed.


Lemma binary_round_aux_normal s mx ex lx k :
  0 < mx -> Zdigits2 mx = 24 + k -> 0 <= k ->
  -149 <= ex + k -> ex + k + 1 <= 104 ->
  exists m' e',
    binary_round_aux 24 128 s mx ex lx = S754_finite s m' e' /\
    2 ^ 23 <= Zpos m' < 2 ^ 24 /\
    ex + k <= e' <= ex + k + 1 /\
    mx / 2 ^ k <= Zpos m' * 2 ^ (e' - ex - k) <= mx / 2 ^ k + 1 /\
    (k = 0 -> lx = loc_Exact -> Zpos m' = mx /\ e' = ex).
Proof.
  intros Hmx Hd Hk Hlo Hhi.
  destruct mx as [|px|px]; try lia.
  pose proof (Zdigits2_bounds px) as Hb. rewrite Hd in Hb.
  replace (24 + k - 1) with (23 + k) in Hb by lia.
  rewrite !Z.pow_add_r in Hb by lia.
  assert (H2k : 0 < 2 ^ k) by (apply Z.pow_pos_nonneg; lia).
  set (m1 := Zpos px / 2 ^ k).
  assert (Hm1 : 2 ^ 23 <= m1 < 2 ^ 24).
  { unfold m1. split.
    - apply Z.div_le_lower_bound; lia.
    - apply Z.div_lt_upper_bound; lia. }
  unfold binary_round_aux, shr_fexp. rewrite Hd.
  replace (fexp 24 128 (24 + k + ex) - ex) with k by (unfold fexp, emin; lia).
  destruct (shr_m_shr (shr_record_of_loc (Zpos px) lx) ex k) as [E1 E2];
    [rewrite shr_record_of_loc_m; lia | lia |].
  rewrite shr_record_of_loc_m in E1. fold m1 in E1.
  assert (Hex : k = 0 -> lx = loc_Exact ->
                fst (shr (shr_record_of_loc (Zpos px) lx) ex k)
                = Build_shr_record (Zpos px) false false).
  { intros -> ->. reflexivity. }
  destruct (shr (shr_record_of_loc (Zpos px) lx) ex k) as [mrs1 e1].
  simpl in E1, E2, Hex. subst e1. rewrite E1.
  pose proof (round_nearest_even_range m1 (loc_of_shr_record mrs1)) as Hr.
  set (m2 := round_nearest_even m1 (loc_of_shr_record mrs1)) in *.
  assert (Hm2 : 0 < m2) by lia.
  destruct m2 as [|p2|p2] eqn:Em2; try lia.
  destruct (Z_lt_le_dec (Zpos p2) (2 ^ 24)) as [Hlt|Hge].
  - rewrite (Zdigits2_unique p2 24) by (simpl (24 - 1); lia).
    replace (fexp 24 128 (24 + (ex + k)) - (ex + k)) with 0 by (unfold fexp, emin; lia).
    simpl shr. cbv beta iota. simpl shr_m.
    replace (ex + k <=? 128 - 24) with true by (symmetry; apply Z.leb_le; lia).
    exists p2, (ex + k). split; [reflexivity|].
    split; [lia|]. split; [lia|].
    replace (ex + k - ex - k) with 0 by lia. rewrite Z.pow_0_r, Z.mul_1_r.
    split; [lia|].
    intros K0 L0. specialize (Hex K0 L0). subst k lx mrs1.
    unfold m2 in Em2. simpl in Em2. unfold m1 in Em2. rewrite Z.pow_0_r, Z.div_1_r in Em2.
    split; [congruence | lia].
  - assert (Ep2 : Zpos p2 = 2 ^ 24) by lia.
    rewrite (Zdigits2_unique p2 25) by (simpl (25 - 1); lia).
    replace (fexp 24 128 (25 + (ex + k)) - (ex + k)) with 1 by (unfold fexp, emin; lia).
    assert (Ep : p2 = 16777216%positive) by (apply Pos2Z.inj; rewrite Ep2; reflexivity).
    subst p2. simpl shr. cbv beta iota. simpl shr_m.
    replace (ex + k + 1 <=? 128 - 24) with true by (symmetry; apply Z.leb_le; lia).
    exists 8388608%positive, (ex + k + 1). split; [reflexivity|].
    split; [simpl; lia|]. split; [lia|].
    replace (ex + k + 1 - ex - k) with 1 by lia.
    change (Zpos 8388608 * 2 ^ 1) with (2 ^ 24).
    split; [lia|].
    intros K0 L0. specialize (Hex K0 L0). subst k lx mrs1.
    unfold m2 in Em2. simpl in Em2. unfold m1 in Em2. rewrite Z.pow_0_r, Z.div_1_r in Em2.
    exfalso. simpl in Hb. lia.
Qed.


Lemma binary_round_aux_upper s mx ex lx k :
  0 < mx -> Zdigits2 mx = 24 + k -> 0 <= k ->
  -149 <= ex + k -> ex + k + 1 <= 104 ->
  exists m' e',
    binary_round_aux 24 128 s mx ex lx = S754_finite s m' e' /\
    2 ^ 23 <= Zpos m' < 2 ^ 24 /\
    ex + k <= e' <= ex + k + 1 /\
    Zpos m' * 2 ^ (e' - ex) <= mx + 2 ^ k.
Proof.
  intros Hmx Hd Hk Hlo Hhi.
  destruct (binary_round_aux_normal s mx ex lx k Hmx Hd Hk Hlo Hhi)
    as (m' & e' & E & Hm & He & [_ Hv] & _).
  exists m', e'. repeat split; try assumption; try lia.
  replace (e' - ex) with (e' - ex - k + k) by lia.
  rewrite Z.pow_add_r by lia.
  assert (H2k : 0 < 2 ^ k) by (apply Z.pow_pos_nonneg; lia).
  pose proof (Z.mul_div_le mx (2 ^ k) H2k).
  nia.
Qed.

Lemma shl_align_spec mx ex ex' :
  (ex' < ex ->
     Zpos (fst (shl_align mx ex ex')) = Zpos mx * 2 ^ (ex - ex') /\
     snd (shl_align mx ex ex') = ex') /\
  (ex <= ex' -> shl_align mx ex ex' = (mx, ex)).
Proof.
  unfold shl_align. split; intros H.
  - destruct (ex' - ex) as [|d|d] eqn:E; try lia. cbn [fst snd]. split; [|reflexivity].
    change (Pos.iter xO mx d) with (shift_pos d mx).
    rewrite shift_pos_correct, Z.pow_pos_fold.
    replace (ex - ex') with (Zpos d) by (rewrite <- Pos2Z.opp_neg, <- E; ring). ring.
  - destruct (ex' - ex) as [|d|d] eqn:E; try lia; reflexivity.
Qed.

End Rounding.

(** ** The budget computed by [SetTargetFps] *)

Section Budget.
Import Float32.

Lemma of_int_large fps :
  1001 <= fps < 2 ^ 63 ->
  exists m e, of_int fps = S754_finite false m e /\
    2 ^ 23 <= Zpos m < 2 ^ 24 /\ -14 <= e <= 40 /\
    16400384 <= Zpos m * 2 ^ (e + 14).
Proof.
  intros [Hlo Hhi]. destruct fps as [|p|p]; try lia.
  pose proof (Zdigits2_bounds p) as Hb.
  set (d := Zdigits2 (Zpos p)) in *.
  assert (Hd : 10 <= d <= 63).
  { split.
    - destruct (Z_lt_le_dec d 10) as [Hlt|]; [|assumption].
      assert (2 ^ d <= 2 ^ 9) by (apply Z.pow_le_mono_r; lia).
      change (2 ^ 9) with 512 in *. lia.
    - destruct (Z_lt_le_dec 63 d) as [Hlt|]; [|lia].
      assert (2 ^ 63 <= 2 ^ (d - 1)) by (apply Z.pow_le_mono_r; lia). lia. }
  unfold of_int, binary_normalize, binary_round.
  change (Zpos (digits2_pos p)) with d.
  replace (fexp prec emax (d + 0)) with (d - 24) by (unfold fexp, emin, prec, emax; lia).
  destruct (shl_align_spec p 0 (d - 24)) as [Hneg Hpos].
  destruct (Z_lt_le_dec (d - 24) 0) as [Hlt|Hge].
  - destruct (Hneg Hlt) as [Em Ee]. clear Hneg Hpos.
    destruct (shl_align p 0 (d - 24)) as [mz ez]. cbn [fst snd] in Em, Ee. subst ez.
    replace (0 - (d - 24)) with (24 - d) in Em by lia.
    assert (Hmz : 2 ^ 23 <= Zpos mz < 2 ^ 24).
    { assert (E23 : 2 ^ 23 = 2 ^ (d - 1) * 2 ^ (24 - d))
        by (rewrite <- Z.pow_add_r by lia; f_equal; lia).
      assert (E24 : 2 ^ 24 = 2 ^ d * 2 ^ (24 - d))
        by (rewrite <- Z.pow_add_r by lia; f_equal; lia).
      rewrite Em, E23, E24.
      assert (0 < 2 ^ (24 - d)) by (apply Z.pow_pos_nonneg; lia).
      split; [apply Z.mul_le_mono_nonneg_r | apply Z.mul_lt_mono_pos_r]; lia. }
    destruct (binary_round_aux_normal false (Zpos mz) (d - 24) loc_Exact 0)
      as (m' & e' & E & Hm & He & _ & Hx); try lia.
    { apply Zdigits2_unique. simpl (24 + 0 - 1). simpl (24 + 0). exact Hmz. }
    destruct (Hx eq_refl eq_refl) as [Hm' He'].
    exists m', e'. split; [exact E|]. split; [lia|]. split; [lia|].
    rewrite Hm', He', Em. replace (d - 24 + 14) with (d - 10) by lia.
    rewrite <- Z.mul_assoc, <- Z.pow_add_r by lia.
    replace (24 - d + (d - 10)) with 14 by lia. change (2 ^ 14) with 16384. lia.
  - rewrite (Hpos Hge). clear Hneg Hpos.
    destruct (binary_round_aux_normal false (Zpos p) 0 loc_Exact (d - 24))
      as (m' & e' & E & Hm & He & _ & _); try lia.
    exists m', e'. split; [exact E|]. split; [lia|]. split; [lia|].
    assert (2 ^ 14 <= 2 ^ (e' + 14)) by (apply Z.pow_le_mono_r; lia).
    change (2 ^ 14) with 16384 in *. change (2 ^ 23) with 8388608 in *. nia.
Qed.


Lemma div_one_normal m e :
  2 ^ 23 <= Zpos m < 2 ^ 24 -> -14 <= e <= 40 ->
  exists my ey q,
    div (of_int 1) (S754_finite false m e) = S754_finite false my ey /\
    2 ^ 23 <= Zpos my < 2 ^ 24 /\
    -47 - e <= ey <= -45 - e /\
    2 ^ 23 <= q /\ q * Zpos m <= 2 ^ 47 /\
    Zpos my * 2 ^ (ey + 47 + e) <= q + 2.
Proof.
  intros Hm He.
  change (of_int 1) with (S754_finite false 8388608 (-23)).
  unfold div, SFdiv, SFdiv_core_binary.
  rewrite (Zdigits2_unique m 24) by (simpl (24 - 1); exact Hm).
  change (Zdigits2 (Zpos 8388608)) with 24.
  replace (Z.min (fexp prec emax (24 + -23 - (24 + e))) (-23 - e)) with (-47 - e)
    by (unfold fexp, emin, prec, emax; lia).
  replace (-23 - e - (-47 - e)) with 24 by lia.
  change (Z.shiftl (Zpos 8388608) 24) with (2 ^ 47).
  pose proof (Z_div_mod (2 ^ 47) (Zpos m) (Zgt_pos_0 m)) as Hq.
  destruct (Z.div_eucl (2 ^ 47) (Zpos m)) as [q r]. destruct Hq as [Eq Hr].
  change (2 ^ 23) with 8388608 in *. change (2 ^ 24) with 16777216 in *.
  change (2 ^ 47) with 140737488355328 in *.
  assert (Hq : 8388608 <= q <= 16777216) by nia.
  assert (Hqm : q * Zpos m <= 140737488355328) by nia.
  destruct q as [|pq|pq]; try lia.
  destruct (Z_lt_le_dec (Zpos pq) 16777216) as [Hlt|Hge].
  - destruct (binary_round_aux_upper (xorb false false) (Zpos pq) (-47 - e)
                (new_location (Zpos m) r) 0)
      as (my & ey & E & Hmy & Hey & Hv); try lia.
    { apply Zdigits2_unique. simpl (24 + 0 - 1). simpl (24 + 0).
      change (2 ^ 23) with 8388608. change (2 ^ 24) with 16777216. lia. }
    exists my, ey, (Zpos pq). split; [exact E|].
    change (2 ^ 23) with 8388608 in *. change (2 ^ 24) with 16777216 in *.
    repeat split; try lia.
    replace (ey + 47 + e) with (ey - (-47 - e)) by lia.
    change (2 ^ 0) with 1 in Hv. lia.
  - destruct (binary_round_aux_upper (xorb false false) (Zpos pq) (-47 - e)
                (new_location (Zpos m) r) 1)
      as (my & ey & E & Hmy & Hey & Hv); try lia.
    { apply Zdigits2_unique. simpl (24 + 1 - 1). simpl (24 + 1).
      change (2 ^ 24) with 16777216. change (2 ^ 25) with 33554432. lia. }
    exists my, ey, (Zpos pq). split; [exact E|].
    change (2 ^ 23) with 8388608 in *. change (2 ^ 24) with 16777216 in *.
    repeat split; try lia.
    replace (ey + 47 + e) with (ey - (-47 - e)) by lia.
    change (2 ^ 1) with 2 in Hv. lia.
Qed.

Lemma mul_1000_normal my ey :
  2 ^ 23 <= Zpos my < 2 ^ 24 -> -100 <= ey <= 0 ->
  exists m' e',
    mul (S754_finite false my ey) (of_int 1000) = S754_finite false m' e' /\
    ey - 14 <= e' /\
    Zpos m' * 2 ^ (e' - (ey - 14)) <= Zpos my * 16384000 + 2 ^ 24.
Proof.
  intros Hm He.
  change (of_int 1000) with (S754_finite false 16384000 (-14)).
  unfold mul, SFmul. rewrite Pos2Z.inj_mul.
  change (2 ^ 23) with 8388608 in *. change (2 ^ 24) with 16777216 in *.
  set (P := Zpos my * Zpos 16384000).
  assert (HP : 2 ^ 46 <= P < 2 ^ 48).
  { unfold P. change (2 ^ 46) with 70368744177664.
    change (2 ^ 48) with 281474976710656. lia. }
  assert (P0 : 0 < P) by (unfold P; lia).
  replace (ey + -14) with (ey - 14) by lia.
  destruct (Z_lt_le_dec P (2 ^ 47)) as [Hlt|Hge].
  - destruct (binary_round_aux_upper (xorb false false) P (ey - 14) loc_Exact 23)
      as (m' & e' & E & Hm' & He' & Hv); try lia.
    { destruct P as [|pP|pP]; try lia. apply Zdigits2_unique.
      simpl (24 + 23 - 1). simpl (24 + 23). lia. }
    exists m', e'. split; [exact E|]. split; [lia|].
    change (2 ^ 23) with 8388608 in Hv. unfold P in Hv. lia.
  - destruct (binary_round_aux_upper (xorb false false) P (ey - 14) loc_Exact 24)
      as (m' & e' & E & Hm' & He' & Hv); try lia.
    { destruct P as [|pP|pP]; try lia. apply Zdigits2_unique.
      simpl (24 + 24 - 1). simpl (24 + 24). lia. }
    exists m', e'. split; [exact E|]. split; [lia|].
    change (2 ^ 24) with 16777216 in Hv. unfold P in Hv. lia.
Qed.

Lemma budget_large fps :
  1001 <= fps < 2 ^ 63 ->
  to_int (mul (div (of_int 1) (of_int fps)) (of_int 1000)) = 0.
Proof.
  intros Hfps.
  destruct (of_int_large fps Hfps) as (m & e & -> & Hm & He & Hx).
  destruct (div_one_normal m e Hm He) as (my & ey & q & -> & Hmy & Hey & Hq & Hqm & Hy).
  destruct (mul_1000_normal my ey Hmy) as (m' & e' & -> & He' & Hv); [lia|].
  set (a := ey + 47 + e) in *. set (b := e' - (ey - 14)) in *.
  set (T := 2 ^ (e + 14)) in *.
  assert (Ha : 0 <= a <= 2) by (unfold a; lia).
  assert (Hb : 0 <= b) by (unfold b; lia).
  assert (HT : 0 < T) by (apply Z.pow_pos_nonneg; lia).
  assert (H2a : 1 <= 2 ^ a <= 4).
  { split.
    - apply (Z.pow_le_mono_r 2 0 a); lia.
    - apply (Z.pow_le_mono_r 2 a 2); lia. }
  assert (H2b : 0 < 2 ^ b) by (apply Z.pow_pos_nonneg; lia).
  change (2 ^ 23) with 8388608 in *. change (2 ^ 24) with 16777216 in *.
  change (2 ^ 47) with 140737488355328 in *.
  set (W := Zpos m' * 2 ^ (a + b)).
  assert (HW1 : W <= (q + 2) * 16384000 + 16777216 * 4).
  { unfold W. rewrite Z.pow_add_r by lia.
    transitivity ((Zpos my * 16384000 + 16777216) * 2 ^ a).
    - rewrite (Z.mul_comm (2 ^ a)), Z.mul_assoc. apply Z.mul_le_mono_nonneg_r; lia.
    - rewrite Z.mul_add_distr_r.
      apply Z.add_le_mono.
      + rewrite <- Z.mul_assoc, (Z.mul_comm 16384000), Z.mul_assoc.
        apply Z.mul_le_mono_nonneg_r; lia.
      + apply Z.mul_le_mono_nonneg_l; lia. }
  assert (HW2 : q * 16400384 <= 140737488355328 * T).
  { transitivity (q * (Zpos m * T)).
    - apply Z.mul_le_mono_nonneg_l; lia.
    - rewrite Z.mul_assoc. apply Z.mul_le_mono_nonneg_r; lia. }
  assert (HW : W < 140737488355328 * T) by lia.
  assert (E47 : 140737488355328 * T = 2 ^ (47 + (e + 14))).
  { rewrite Z.pow_add_r by lia. reflexivity. }
  rewrite E47 in HW.
  assert (Hab : a + b < 47 + (e + 14)).
  { apply (Z.pow_lt_mono_r_iff 2); [lia | lia |].
    apply Z.le_lt_trans with W; [|exact HW].
    unfold W. assert (0 < 2 ^ (a + b)) by (apply Z.pow_pos_nonneg; lia). nia. }
  assert (Ee' : e' = - (47 + (e + 14) - (a + b))) by (unfold a, b; lia).
  assert (Hneg : 0 < 47 + (e + 14) - (a + b)) by lia.
  destruct (47 + (e + 14) - (a + b)) as [|n|n] eqn:En; try lia.
  rewrite Ee'. cbn [to_int Z.opp].
  apply Z.quot_small. split; [lia|].
  apply (Z.mul_lt_mono_pos_r (2 ^ (a + b))); [apply Z.pow_pos_nonneg; lia|].
  fold W. rewrite <- Z.pow_add_r by lia.
  replace (Zpos n + (a + b)) with (47 + (e + 14)) by lia. exact HW.
Qed.

Lemma budget_small_table :
  forallb (fun n => to_int (mul (div (of_int 1) (of_int (Z.of_nat n)))
                                (of_int 1000))
                    =? 1000 / Z.of_nat n)
          (seq 1 1000) = true.
Proof. vm_compute. reflexivity. Qed.

Lemma budget_small fps :
  1 <= fps <= 1000 ->
  to_int (mul (div (of_int 1) (of_int fps)) (of_int 1000)) = 1000 / fps.
Proof.
  intros H. pose proof budget_small_table as T.
  rewrite forallb_forall in T.
  specialize (T (Z.to_nat fps)). rewrite Z2Nat.id in T by lia.
  apply Z.eqb_eq, T, in_seq. lia.
Qed.

(** The float32 computation of the setter is the integer quotient. *)
Lemma budget_quotient fps :
  1 <= fps <= max_int ->
  to_int (mul (div (of_int 1) (of_int fps)) (of_int 1000)) = 1000 / fps.
Proof.
  intros [Hlo Hhi]. unfold max_int in Hhi.
  destruct (Z_le_gt_dec fps 1000) as [Hs|Hl].
  - apply budget_small. lia.
  - rewrite budget_large by lia. symmetry. apply Z.div_small. lia.
Qed.

End Budget.

(** ** Sequencing *)

Section Sequencing.

Context {A B : Type}.
Implicit Types (m : M A) (k : A -> M B).

Lemma bind_Ret m k w b w' :
  bind m k w = Ret b w' ->
  exists a w1, m w = Ret a w1 /\ k a w1 = Ret b w'.
Proof.
  unfold bind. destruct (m w) as [a w1|r w1|w1]; try discriminate.
  intros H. exists a, w1. auto.
Qed.

Lemma bind_Panic m k w r w' :
  bind m k w = Panic r w' ->
  m w = Panic r w' \/ exists a w1, m w = Ret a w1 /\ k a w1 = Panic r w'.
Proof.
  unfold bind. destruct (m w) as [a w1|r1 w1|w1]; try discriminate.
  - intros H. right. exists a, w1. auto.
  - intros H. left. inversion H. reflexivity.
Qed.

Lemma bind_Spin m k w w' :
  bind m k w = Spin w' ->
  m w = Spin w' \/ exists a w1, m w = Ret a w1 /\ k a w1 = Spin w'.
Proof.
  unfold bind. destruct (m w) as [a w1|r1 w1|w1]; try discriminate.
  - intros H. right. exists a, w1. auto.
  - intros H. left. inversion H. reflexivity.
Qed.

End Sequencing.

(** ** Stop *)

Lemma Stop_eq w :
  Stop w =
  if isRunning (loop w) then
    match stopCh (loop w) with
    | chan_open => Ret None (with_loop (stopped (loop w)) w)
    | chan_closed =>
        Panic (runtimeError "close of closed channel")
              (with_loop (set_isRunning false (loop w)) w)
    | chan_nil =>
        Panic (runtimeError "close of nil channel")
              (with_loop (set_isRunning false (loop w)) w)
    end
  else Ret None w.
Proof.
  unfold Stop, bind, get_loop, modify_loop, ret.
  destruct (isRunning (loop w)); simpl; [|reflexivity].
  destruct (stopCh (loop w)); reflexivity.
Qed.

(** ** Calls of registered functions *)

Lemma same_setup_refl l : same_setup l l.
Proof. unfold same_setup. tauto. Qed.

Lemma same_setup_trans l1 l2 l3 :
  same_setup l1 l2 -> same_setup l2 l3 -> same_setup l1 l3.
Proof. unfold same_setup. intuition congruence. Qed.

Lemma call_eq env e w :
  call env e w =
  let eff := effects env (calls w) in
  let w1 := mkWorld (loop w) (clock w + took eff) (reads w) (S (calls w))
                    (log w ++ [e]) in
  match (if stops eff then Stop w1 else Ret None w1) with
  | Ret _ w2 =>
      match raised eff with
      | Some r => Panic r w2
      | None => Ret tt w2
      end
  | Panic r w2 => Panic r w2
  | Spin w2 => Spin w2
  end.
Proof.
  unfold call, bind, ret. cbv zeta.
  destruct (stops (effects env (calls w))).
  - destruct (Stop _); try reflexivity.
    destruct (raised (effects env (calls w))); reflexivity.
  - destruct (raised (effects env (calls w))); reflexivity.
Qed.

Lemma call_world env e w :
  let w' := world_of (call env e w) in
  log w' = log w ++ [e] /\
  same_setup (loop w) (loop w') /\
  currentFps (loop w') = currentFps (loop w) /\
  (run_state (loop w) -> run_state (loop w')) /\
  clock w' = clock w + took (effects env (calls w)) /\
  reads w' = reads w /\
  calls w' = S (calls w).
Proof.
  rewrite call_eq. cbv zeta.
  destruct (stops (effects env (calls w))).
  - rewrite Stop_eq. cbn [loop].
    destruct (isRunning (loop w)) eqn:Er.
    + destruct (stopCh (loop w)) eqn:Ec;
        try destruct (raised (effects env (calls w)));
        cbn; unfold same_setup, run_state; cbn;
        repeat split; try reflexivity; intuition congruence.
    + destruct (raised (effects env (calls w)));
        cbn; unfold same_setup; repeat split; auto.
  - destruct (raised (effects env (calls w)));
      cbn; unfold same_setup; repeat split; auto.
Qed.

Lemma call_result env e w :
  run_state (loop w) ->
  call env e w =
  match raised (effects env (calls w)) with
  | Some r => Panic r (world_of (call env e w))
  | None => Ret tt (world_of (call env e w))
  end.
Proof.
  intros Hrs. rewrite call_eq. cbv zeta.
  destruct (stops (effects env (calls w))).
  - rewrite Stop_eq. cbn [loop].
    destruct Hrs as [[-> ->]|[-> _]];
      destruct (raised (effects env (calls w))); reflexivity.
  - destruct (raised (effects env (calls w))); reflexivity.
Qed.

Lemma call_Ret_raised env e w u w' :
  call env e w = Ret u w' -> raised (effects env (calls w)) = None.
Proof.
  rewrite call_eq. cbv zeta.
  destruct (stops (effects env (calls w))).
  - destruct (Stop _); try discriminate.
    destruct (raised (effects env (calls w))); [discriminate | reflexivity].
  - destruct (raised (effects env (calls w))); [discriminate | reflexivity].
Qed.

Lemma call_Panic_raised env e w r w' :
  run_state (loop w) ->
  call env e w = Panic r w' ->
  calls w' = S (calls w) /\ raised (effects env (calls w)) = Some r.
Proof.
  intros Hrs H. pose proof (call_world env e w) as W. rewrite H in W.
  cbn [world_of] in W. destruct W as (_ & _ & _ & _ & _ & _ & Hc).
  split; [exact Hc|].
  rewrite (call_result env e w Hrs) in H.
  destruct (raised (effects env (calls w))); [|discriminate H].
  injection H as -> _. reflexivity.
Qed.

Lemma call_not_Spin env e w w' : call env e w <> Spin w'.
Proof.
  rewrite call_eq. cbv zeta.
  destruct (stops (effects env (calls w))).
  - rewrite Stop_eq. cbn [loop].
    destruct (isRunning (loop w)); [destruct (stopCh (loop w))|];
      try destruct (raised (effects env (calls w))); discriminate.
  - destruct (raised (effects env (calls w))); discriminate.
Qed.

(** ** Package time *)

Lemma Seconds_ge_1 d : Qle_bool 1 (Duration_Seconds d) = (Second <=? d).
Proof.
  unfold Duration_Seconds.
  pose proof (Z.quot_rem' d Second) as E.
  set (q := Z.quot d Second) in *. set (r := Z.rem d Second) in *.
  assert (Heq : (inject_Z q + inject_Z r / inject_Z Second
                 == inject_Z d / inject_Z Second)%Q).
  { rewrite E. rewrite inject_Z_plus, inject_Z_mult. field.
    unfold Second. discriminate. }
  destruct (Qle_bool 1 (inject_Z q + inject_Z r / inject_Z Second)) eqn:B;
    destruct (Z.leb_spec Second d) as [H|H]; try reflexivity; exfalso.
  - apply Qle_bool_iff in B. rewrite Heq in B.
    unfold Qle, Qdiv, Qmult, Qinv, inject_Z in B. simpl in B.
    unfold Second in H. lia.
  - assert (B' : Qle_bool 1 (inject_Z q + inject_Z r / inject_Z Second) = true).
    { apply Qle_bool_iff. rewrite Heq.
      unfold Qle, Qdiv, Qmult, Qinv, inject_Z. simpl. unfold Second in H. lia. }
    congruence.
Qed.

(** ** One iteration *)

Ltac inv H := inversion H; subst; clear H.

Ltac inv_get H l w :=
  unfold get_loop in H; injection H as ? ?; subst l w.

Ltac split_bind H a w1 H1 :=
  apply bind_Ret in H; destruct H as (a & w1 & H1 & H).

Lemma phase_Ret env (o : option nat) (mk : nat -> event) w u w' :
  match o with
  | Some f => call env (mk f)
  | None => ret tt
  end w = Ret u w' ->
  log w' = log w ++ opt_list o (fun f => [mk f]) /\
  same_setup (loop w) (loop w') /\
  currentFps (loop w') = currentFps (loop w) /\
  (run_state (loop w) -> run_state (loop w')) /\
  (monotone env -> clock w <= clock w').
Proof.
  destruct o as [f|]; intros H.
  - pose proof (call_world env (mk f) w) as W. rewrite H in W. cbn in W.
    destruct W as (L & S & C & R & K & _).
    split; [exact L|]. split; [exact S|]. split; [exact C|]. split; [exact R|].
    intros [_ Hm]. specialize (Hm (calls w)). lia.
  - inv H. rewrite app_nil_r.
    split; [reflexivity|]. split; [apply same_setup_refl|].
    split; [reflexivity|]. split; [tauto|]. intros _. lia.
Qed.

Lemma update_phase_Ret env loc w u w' :
  match update (loop w) with
  | Some f =>
      deltaTime <- time_Since env (lastFrame loc) ;;
      call env (ev_update f deltaTime)
  | None => ret tt
  end w = Ret u w' ->
  exists tu,
    log w' = log w ++ opt_list (update (loop w))
               (fun f => [ev_now tu; ev_update f (Time_Sub tu (lastFrame loc))]) /\
    same_setup (loop w) (loop w') /\
    currentFps (loop w') = currentFps (loop w) /\
    (run_state (loop w) -> run_state (loop w')) /\
    (monotone env -> clock w <= clock w').
Proof.
  intros H. destruct (update (loop w)) as [f|].
  - split_bind H dt w1 Hd. unfold time_Since in Hd.
    split_bind Hd t w2 Hn. inv Hn. inv Hd.
    pose proof (call_world env
      (ev_update f (Time_Sub (clock w + drift env (reads w)) (lastFrame loc)))
      (mkWorld (loop w) (clock w + drift env (reads w)) (S (reads w))
         (calls w) (log w ++ [ev_now (clock w + drift env (reads w))]))) as W.
    rewrite H in W. cbn in W. destruct W as (L & S & C & R & K & _).
    exists (clock w + drift env (reads w)).
    split; [rewrite L, <- app_assoc; reflexivity|].
    split; [exact S|]. split; [exact C|]. split; [exact R|].
    intros [Hd Hm]. specialize (Hd (reads w)). specialize (Hm (calls w)). lia.
  - inv H. exists 0. rewrite app_nil_r.
    split; [reflexivity|]. split; [apply same_setup_refl|].
    split; [reflexivity|]. split; [tauto|]. intros _. lia.
Qed.

Lemma update_phase_Panic env loc w r w' :
  match update (loop w) with
  | Some f =>
      deltaTime <- time_Since env (lastFrame loc) ;;
      call env (ev_update f deltaTime)
  | None => ret tt
  end w = Panic r w' ->
  exists f tu,
    update (loop w) = Some f /\
    log w' = log w ++ [ev_now tu; ev_update f (Time_Sub tu (lastFrame loc))] /\
    same_setup (loop w) (loop w') /\
    currentFps (loop w') = currentFps (loop w) /\
    (run_state (loop w) ->
     run_state (loop w') /\
     calls w' = S (calls w) /\ raised (effects env (calls w)) = Some r).
Proof.
  intros H. destruct (update (loop w)) as [f|]; [|discriminate H].
  apply bind_Panic in H as [H|(dt & w1 & Hd & H)].
  { unfold time_Since, time_Now, bind, ret in H. discriminate H. }
  unfold time_Since in Hd. split_bind Hd t w2 Hn. inv Hn. inv Hd.
  pose proof (call_world env
    (ev_update f (Time_Sub (clock w + drift env (reads w)) (lastFrame loc)))
    (mkWorld (loop w) (clock w + drift env (reads w)) (S (reads w))
       (calls w) (log w ++ [ev_now (clock w + drift env (reads w))]))) as W.
  pose proof (fun Hrs => call_Panic_raised env _ _ r w' Hrs H) as Hraised.
  rewrite H in W. cbn in W, Hraised. destruct W as (L & S & C & R & _).
  exists f, (clock w + drift env (reads w)).
  split; [reflexivity|].
  split; [rewrite L, <- app_assoc; reflexivity|].
  split; [exact S|]. split; [exact C|].
  intros Hrs. split; [exact (R Hrs) | exact (Hraised Hrs)].
Qed.

Lemma iteration_Ret env loc w loc' w' :
  iteration env loc w = Ret loc' w' ->
  exists ts tu tm tn te,
    let l := loop w in
    let rolled := Second <=? Time_Sub tm (lastSecond loc) in
    let sleepTime :=
      wrap64 (msPerFrame l - Duration_Milliseconds (Time_Sub te ts)) in
    log w' =
      log w ++ phase_calls l loc ts tu
        ++ ev_now (lastFrame loc') :: ev_now tm
        :: (if rolled then [ev_now tn] else [])
        ++ ev_now te
        :: (if 0 <? sleepTime
            then [ev_sleep (wrap64 (sleepTime * Millisecond))] else []) /\
    frameCounter loc' = (if rolled then 0 else wrap64 (frameCounter loc + 1)) /\
    lastSecond loc' = (if rolled then tn else lastSecond loc) /\
    currentFps (loop w') =
      (if rolled then wrap64 (frameCounter loc + 1) else currentFps l) /\
    same_setup l (loop w') /\
    (run_state l -> run_state (loop w')) /\
    (monotone env -> clock w <= ts /\ ts <= te /\ te <= clock w').
Proof.
  intros H. unfold iteration in H.
  split_bind H ts w1 H0. inv H0.
  split_bind H l1 w2 H1. inv_get H1 l1 w2. cbn [loop] in H.
  split_bind H u1 w3 H2. apply phase_Ret in H2.
  destruct H2 as (L3 & S3 & C3 & R3 & K3). cbn in L3, S3, C3, R3, K3.
  split_bind H l2 w4 H3. inv_get H3 l2 w4.
  split_bind H u2 w5 H4. apply update_phase_Ret in H4.
  destruct H4 as (tu & L5 & S5 & C5 & R5 & K5).
  split_bind H l3 w6 H5. inv_get H5 l3 w6.
  split_bind H u3 w7 H6. apply phase_Ret in H6.
  destruct H6 as (L7 & S7 & C7 & R7 & K7).
  split_bind H td w8 H7. inv H7.
  split_bind H el w9 H8. unfold time_Since in H8.
  split_bind H8 tm w9' Hn. inv Hn. inv H8. cbn [clock reads loop log calls] in H.
  rewrite Seconds_ge_1 in H.
  set (td := clock w7 + drift env (reads w7)) in *.
  set (tm := td + drift env (S (reads w7))) in *.
  split_bind H meter w10 H9.
  split_bind H l4 w11 H10. inv_get H10 l4 w11.
  split_bind H ss w12 H11. unfold time_Since in H11.
  split_bind H11 te w12' Hn. inv Hn. inv H11.
  split_bind H u4 w13 H12. inv H.
  set (ts := clock w + drift env (reads w)) in *.
  assert (Hin : input (loop w3) = input (loop w) /\
                update (loop w3) = update (loop w) /\
                render (loop w5) = render (loop w) /\
                msPerFrame (loop w7) = msPerFrame (loop w) /\
                currentFps (loop w7) = currentFps (loop w)).
  { unfold same_setup in S3, S5, S7. intuition congruence. }
  destruct Hin as (Ei & Eu & Er & Em & Ec).
  assert (S07 : same_setup (loop w) (loop w7)).
  { eauto using same_setup_trans. }
  assert (L07 : log w7 = log w ++ phase_calls (loop w) loc ts tu).
  { rewrite L7, L5, L3, Er, Eu. unfold phase_calls. cbn [app].
    rewrite <- !app_assoc. reflexivity. }
  destruct (Second <=? Time_Sub tm (lastSecond loc)) eqn:Eroll.
  - split_bind H9 u5 w10' Hm. inv Hm.
    split_bind H9 tn w10'' Hn. inv Hn. inv H9.
    cbn [loop clock reads log calls with_loop set_currentFps msPerFrame fst snd] in *.
    set (tn := tm + drift env (S (S (reads w7)))) in *.
    set (te := tn + drift env (S (S (S (reads w7))))) in *.
    exists ts, tu, tm, tn, te. cbv zeta. rewrite Eroll.
    cbn [lastFrame frameCounter lastSecond]. rewrite <- Em.
    assert (Hk : monotone env ->
                 clock w <= ts /\ ts <= te /\
                 te <= te + Z.max 0 0 + 0 /\ 0 <= drift env (S (S (S (S (reads w7)))))).
    { intros Hmono. pose proof Hmono as [Hd Hc].
      pose proof (Hd (reads w)). pose proof (Hd (reads w7)).
      pose proof (Hd (S (reads w7))). pose proof (Hd (S (S (reads w7)))).
      pose proof (Hd (S (S (S (reads w7))))).
      pose proof (Hd (S (S (S (S (reads w7)))))).
      specialize (K3 Hmono). specialize (K5 Hmono). specialize (K7 Hmono).
      unfold ts, te, tn, tm, td in *. lia. }
    destruct (0 <? wrap64 (msPerFrame (loop w7)
                - Duration_Milliseconds (Time_Sub te ts))) eqn:Es;
      inv H12; cbn [loop clock log];
      (split; [rewrite L07, <- !app_assoc; reflexivity|]);
      (split; [reflexivity|]); (split; [reflexivity|]);
      (split; [reflexivity|]); (split; [exact S07|]); (split; [tauto|]);
      intros Hmono; specialize (Hk Hmono); lia.
  - inv H9.
    cbn [loop clock reads log calls msPerFrame fst snd] in *.
    set (te := tm + drift env (S (S (reads w7)))) in *.
    exists ts, tu, tm, 0, te. cbv zeta. rewrite Eroll.
    cbn [lastFrame frameCounter lastSecond]. rewrite <- Em.
    assert (Hk : monotone env ->
                 clock w <= ts /\ ts <= te /\
                 0 <= drift env (S (S (S (reads w7))))).
    { intros Hmono. pose proof Hmono as [Hd Hc].
      pose proof (Hd (reads w)). pose proof (Hd (reads w7)).
      pose proof (Hd (S (reads w7))). pose proof (Hd (S (S (reads w7)))).
      pose proof (Hd (S (S (S (reads w7))))).
      specialize (K3 Hmono). specialize (K5 Hmono). specialize (K7 Hmono).
      unfold ts, te, tm, td in *. lia. }
    destruct (0 <? wrap64 (msPerFrame (loop w7)
                - Duration_Milliseconds (Time_Sub te ts))) eqn:Es;
      inv H12; cbn [loop clock log];
      (split; [rewrite L07, <- !app_assoc; reflexivity|]);
      (split; [reflexivity|]); (split; [reflexivity|]);
      (split; [congruence|]); (split; [exact S07|]); (split; [tauto|]);
      intros Hmono; specialize (Hk Hmono); lia.
Qed.

Lemma phase_Panic env (o : option nat) (mk : nat -> event) w r w' :
  match o with
  | Some f => call env (mk f)
  | None => ret tt
  end w = Panic r w' ->
  exists f, o = Some f /\
    log w' = log w ++ [mk f] /\
    same_setup (loop w) (loop w') /\
    currentFps (loop w') = currentFps (loop w) /\
    (run_state (loop w) ->
     run_state (loop w') /\
     calls w' = S (calls w) /\ raised (effects env (calls w)) = Some r).
Proof.
  destruct o as [f|]; intros H; [|discriminate H].
  pose proof (fun Hrs => call_Panic_raised env _ _ r w' Hrs H) as Hraised.
  pose proof (call_world env (mk f) w) as W. rewrite H in W. cbn in W.
  destruct W as (L & S & C & R & _).
  exists f. split; [reflexivity|]. split; [exact L|].
  split; [exact S|]. split; [exact C|].
  intros Hrs. split; [exact (R Hrs) | exact (Hraised Hrs)].
Qed.

Lemma phase_not_Spin env (o : option nat) (mk : nat -> event) w w' :
  match o with
  | Some f => call env (mk f)
  | None => ret tt
  end w <> Spin w'.
Proof. destruct o; [apply call_not_Spin | discriminate]. Qed.

Lemma no_sleep_nil : no_sleep [].
Proof. intros d []. Qed.

Lemma no_sleep_app evs1 evs2 :
  no_sleep evs1 -> no_sleep evs2 -> no_sleep (evs1 ++ evs2).
Proof.
  intros H1 H2 d Hin. apply in_app_or in Hin as [Hin|Hin];
    [exact (H1 d Hin) | exact (H2 d Hin)].
Qed.

Lemma no_sleep_cons e evs :
  is_sleep e = false -> no_sleep evs -> no_sleep (e :: evs).
Proof.
  intros He H d [Hin|Hin]; [subst e; discriminate | exact (H d Hin)].
Qed.

Lemma no_sleep_opt_list {A : Type} (o : option A) (f : A -> list event) :
  (forall a, no_sleep (f a)) -> no_sleep (opt_list o f).
Proof. intros H. destruct o; [apply H | apply no_sleep_nil]. Qed.

Lemma no_sleep_phase_calls l loc ts tu : no_sleep (phase_calls l loc ts tu).
Proof.
  unfold phase_calls. apply no_sleep_cons; [reflexivity|].
  apply no_sleep_app.
  { apply no_sleep_opt_list. intros a.
    apply no_sleep_cons; [reflexivity | apply no_sleep_nil]. }
  apply no_sleep_app.
  { apply no_sleep_opt_list. intros a.
    apply no_sleep_cons; [reflexivity|].
    apply no_sleep_cons; [reflexivity | apply no_sleep_nil]. }
  apply no_sleep_opt_list. intros a.
  apply no_sleep_cons; [reflexivity | apply no_sleep_nil].
Qed.

Lemma no_sleep_prefix pre post : no_sleep (pre ++ post) -> no_sleep pre.
Proof. intros H d Hin. apply (H d). apply in_or_app. auto. Qed.

(** The part of an iteration that follows the callbacks neither panics nor
    loops. *)
Ltac tail_returns H :=
  unfold time_Since, time_Now, time_Sleep, modify_loop, get_loop, ret, bind in H;
  repeat match type of H with
         | context [if ?c then _ else _] => destruct c
         end;
  discriminate H.

(** A panic cuts the iteration short in a call of a phase callback. *)
Lemma iteration_Panic env loc w r w' :
  iteration env loc w = Panic r w' ->
  exists ts tu pre e more,
    phase_calls (loop w) loc ts tu = pre ++ e :: more /\
    log w' = log w ++ pre ++ [e] /\
    is_phase e = true /\
    same_setup (loop w) (loop w') /\
    currentFps (loop w') = currentFps (loop w) /\
    (run_state (loop w) ->
     run_state (loop w') /\
     exists n, calls w' = S n /\ raised (effects env n) = Some r).
Proof.
  intros H. unfold iteration in H.
  apply bind_Panic in H as [H|(ts & w1 & H0 & H)]; [discriminate H|]. inv H0.
  apply bind_Panic in H as [H|(l1 & w2 & H1 & H)]; [discriminate H|].
  inv_get H1 l1 w2. cbn [loop] in H.
  set (ts := clock w + drift env (reads w)) in *.
  apply bind_Panic in H as [H|(u1 & w3 & H2 & H)].
  { apply phase_Panic in H as (f & Ef & L & S & C & R). cbn in L, S, C, R.
    exists ts, 0, [ev_now ts], (ev_input f),
      (opt_list (update (loop w))
         (fun f => [ev_now 0; ev_update f (Time_Sub 0 (lastFrame loc))])
       ++ opt_list (render (loop w)) (fun f => [ev_render f])).
    split; [unfold phase_calls; rewrite Ef; reflexivity|].
    split; [rewrite L, <- app_assoc; reflexivity|].
    split; [reflexivity|]. split; [exact S|]. split; [exact C|].
    intros Hrs. destruct (R Hrs) as (R' & Hc & Hv).
    split; [exact R'|]. eexists. split; [exact Hc | exact Hv]. }
  apply phase_Ret in H2. destruct H2 as (L3 & S3 & C3 & R3 & _).
  cbn in L3, S3, C3, R3.
  apply bind_Panic in H as [H|(l2 & w4 & H3 & H)]; [discriminate H|].
  inv_get H3 l2 w4.
  assert (Eu : update (loop w3) = update (loop w))
    by (unfold same_setup in S3; tauto).
  apply bind_Panic in H as [H|(u2 & w5 & H4 & H)].
  { apply update_phase_Panic in H as (f & tu & Ef & L & S & C & R).
    exists ts, tu,
      (ev_now ts :: opt_list (input (loop w)) (fun f => [ev_input f])
         ++ [ev_now tu]),
      (ev_update f (Time_Sub tu (lastFrame loc))),
      (opt_list (render (loop w)) (fun f => [ev_render f])).
    split.
    { unfold phase_calls. rewrite <- Eu, Ef. cbn [opt_list app].
      rewrite <- !app_assoc. reflexivity. }
    split; [rewrite L, L3; cbn [app]; rewrite <- !app_assoc; reflexivity|].
    split; [reflexivity|].
    split; [eauto using same_setup_trans|].
    split; [congruence|].
    intros Hrs. destruct (R (R3 Hrs)) as (R' & Hc & Hv).
    split; [exact R'|]. eexists. split; [exact Hc | exact Hv]. }
  apply update_phase_Ret in H4. destruct H4 as (tu & L5 & S5 & C5 & R5 & _).
  apply bind_Panic in H as [H|(l3 & w6 & H5 & H)]; [discriminate H|].
  inv_get H5 l3 w6.
  assert (Er : render (loop w5) = render (loop w)).
  { unfold same_setup in S3, S5. intuition congruence. }
  apply bind_Panic in H as [H|(u3 & w7 & H6 & H)].
  { apply phase_Panic in H as (f & Ef & L & S & C & R).
    exists ts, tu,
      (ev_now ts :: opt_list (input (loop w)) (fun f => [ev_input f])
         ++ opt_list (update (loop w))
              (fun f => [ev_now tu; ev_update f (Time_Sub tu (lastFrame loc))])),
      (ev_render f), [].
    split.
    { unfold phase_calls. rewrite <- Er, Ef. cbn [opt_list app].
      rewrite <- !app_assoc. reflexivity. }
    split.
    { rewrite L, L5, L3, Eu. cbn [app]. rewrite <- !app_assoc. reflexivity. }
    split; [reflexivity|].
    split; [eauto using same_setup_trans|].
    split; [congruence|].
    intros Hrs. destruct (R (R5 (R3 Hrs))) as (R' & Hc & Hv).
    split; [exact R'|]. eexists. split; [exact Hc | exact Hv]. }
  exfalso. clear - H.
  apply bind_Panic in H as [H|(a1 & v1 & _ & H)]; [discriminate H|].
  apply bind_Panic in H as [H|(a2 & v2 & _ & H)]; [tail_returns H|].
  apply bind_Panic in H as [H|(a3 & v3 & _ & H)]; [tail_returns H|].
  apply bind_Panic in H as [H|(a4 & v4 & _ & H)]; [discriminate H|].
  apply bind_Panic in H as [H|(a5 & v5 & _ & H)]; [tail_returns H|].
  apply bind_Panic in H as [H|(a6 & v6 & _ & H)]; [tail_returns H|].
  discriminate H.
Qed.

Lemma iteration_not_Spin env loc w w' : iteration env loc w <> Spin w'.
Proof.
  intros H. unfold iteration in H.
  apply bind_Spin in H as [H|(a0 & v0 & _ & H)]; [discriminate H|].
  apply bind_Spin in H as [H|(l1 & v1 & _ & H)]; [discriminate H|].
  apply bind_Spin in H as [H|(u1 & v2 & _ & H)]; [exact (phase_not_Spin _ _ _ _ _ H)|].
  apply bind_Spin in H as [H|(l2 & v3 & _ & H)]; [discriminate H|].
  apply bind_Spin in H as [H|(u2 & v4 & _ & H)].
  { destruct (update l2); [|discriminate H].
    apply bind_Spin in H as [H|(dt & v & _ & H)]; [tail_returns H|].
    exact (call_not_Spin _ _ _ _ H). }
  apply bind_Spin in H as [H|(l3 & v5 & _ & H)]; [discriminate H|].
  apply bind_Spin in H as [H|(u3 & v6 & _ & H)]; [exact (phase_not_Spin _ _ _ _ _ H)|].
  apply bind_Spin in H as [H|(a1 & v7 & _ & H)]; [discriminate H|].
  apply bind_Spin in H as [H|(a2 & v8 & _ & H)]; [tail_returns H|].
  apply bind_Spin in H as [H|(a3 & v9 & _ & H)]; [tail_returns H|].
  apply bind_Spin in H as [H|(a4 & v10 & _ & H)]; [discriminate H|].
  apply bind_Spin in H as [H|(a5 & v11 & _ & H)]; [tail_returns H|].
  apply bind_Spin in H as [H|(a6 & v12 & _ & H)]; [tail_returns H|].
  discriminate H.
Qed.

(** ** The loop *)

Lemma snoc_assoc {A : Type} (a b c : list A) (e : A) :
  (a ++ b) ++ c ++ [e] = a ++ (b ++ c) ++ [e].
Proof. rewrite <- !app_assoc. reflexivity. Qed.

Lemma run_loop_fuel_Ret fuel env : forall loc w u w' k,
  run_loop fuel env loc w = Ret u w' ->
  run_loop (fuel + k) env loc w = Ret u w'.
Proof.
  induction fuel as [|fuel IH]; intros loc w u w' k H; [discriminate H|].
  cbn [run_loop Nat.add] in *.
  destruct (stop_received (loop w)); [exact H|].
  destruct (iteration env loc w) as [loc1 w1|r1 w1|w1]; try discriminate H.
  apply IH. exact H.
Qed.

Lemma run_loop_fuel_Panic fuel env : forall loc w r w' k,
  run_loop fuel env loc w = Panic r w' ->
  run_loop (fuel + k) env loc w = Panic r w'.
Proof.
  induction fuel as [|fuel IH]; intros loc w r w' k H; [discriminate H|].
  cbn [run_loop Nat.add] in *.
  destruct (stop_received (loop w)); [discriminate H|].
  destruct (iteration env loc w) as [loc1 w1|r1 w1|w1]; try discriminate H.
  - apply IH. exact H.
  - exact H.
Qed.

(** What holds of the world in which the loop is left, however it ends. *)
Lemma run_loop_world fuel env : forall loc w,
  let w' := world_of (run_loop fuel env loc w) in
  same_setup (loop w) (loop w') /\
  (run_state (loop w) -> run_state (loop w')) /\
  exists evs, log w' = log w ++ evs.
Proof.
  induction fuel as [|fuel IH]; intros loc w; cbn [run_loop].
  - cbn. split; [apply same_setup_refl|]. split; [tauto|].
    exists []. symmetry. apply app_nil_r.
  - destruct (stop_received (loop w)).
    + cbn. split; [apply same_setup_refl|]. split; [tauto|].
      exists []. symmetry. apply app_nil_r.
    + destruct (iteration env loc w) as [loc1 w1|r1 w1|w1] eqn:E.
      * apply iteration_Ret in E.
        destruct E as (ts & tu & tm & tn & te & L & _ & _ & _ & S & R & _).
        cbv zeta in L, S, R. specialize (IH loc1 w1). cbv zeta in IH.
        destruct IH as (S' & R' & evs & L').
        split; [eauto using same_setup_trans|]. split; [tauto|].
        rewrite L', L, <- app_assoc. eexists. reflexivity.
      * apply iteration_Panic in E.
        destruct E as (ts & tu & pre & e & more & _ & L & _ & S & _ & R).
        cbn. split; [exact S|]. split; [intros Hrs; exact (proj1 (R Hrs))|].
        rewrite L. eexists. reflexivity.
      * exfalso. exact (iteration_not_Spin _ _ _ _ E).
Qed.

(** The loop panics in a call of a phase callback, the last thing it did. *)
Lemma run_loop_Panic fuel env : forall loc w r w',
  run_loop fuel env loc w = Panic r w' ->
  (exists pre e, log w' = log w ++ pre ++ [e] /\ is_phase e = true) /\
  (run_state (loop w) ->
   exists n, calls w' = S n /\ raised (effects env n) = Some r).
Proof.
  induction fuel as [|fuel IH]; intros loc w r w' H; [discriminate H|].
  cbn [run_loop] in H.
  destruct (stop_received (loop w)); [discriminate H|].
  destruct (iteration env loc w) as [loc1 w1|r1 w1|w1] eqn:E; try discriminate H.
  - apply iteration_Ret in E.
    destruct E as (ts & tu & tm & tn & te & L & _ & _ & _ & _ & R & _).
    cbv zeta in L, R.
    apply IH in H. destruct H as ((pre & e & L' & P) & Hv).
    split; [|intros Hrs; exact (Hv (R Hrs))].
    rewrite L', L, snoc_assoc. eexists. exists e.
    split; [reflexivity | exact P].
  - inv H. apply iteration_Panic in E.
    destruct E as (ts & tu & pre & e & more & _ & L & P & _ & _ & R).
    split; [exists pre, e; auto|].
    intros Hrs. exact (proj2 (R Hrs)).
Qed.

(** The loop returns once the stop channel is closed. *)
Lemma run_loop_Ret fuel env : forall loc w u w',
  run_loop fuel env loc w = Ret u w' -> stopCh (loop w') = chan_closed.
Proof.
  induction fuel as [|fuel IH]; intros loc w u w' H; [discriminate H|].
  cbn [run_loop] in H.
  destruct (stop_received (loop w)) eqn:Es.
  - inv H. unfold stop_received in Es.
    destruct (stopCh (loop w')); try discriminate Es. reflexivity.
  - destruct (iteration env loc w) as [loc1 w1|r1 w1|w1]; try discriminate H.
    exact (IH _ _ _ _ H).
Qed.

(** ** The pacing sleep *)

(** The time the loop sleeps, in milliseconds, when the budget is read
    without overflow: the budget less the whole milliseconds elapsed. *)
Lemma sleepTime_exact budget ts te :
  0 <= budget <= 1000 -> ts <= te ->
  wrap64 (budget - Duration_Milliseconds (Time_Sub te ts))
  = budget - Duration_Milliseconds (Time_Sub te ts) /\
  0 <= Duration_Milliseconds (Time_Sub te ts) /\
  (0 < budget - Duration_Milliseconds (Time_Sub te ts) ->
   wrap64 ((budget - Duration_Milliseconds (Time_Sub te ts)) * Millisecond)
   = (budget - Duration_Milliseconds (Time_Sub te ts)) * Millisecond).
Proof.
  intros Hb Ht.
  set (d := Time_Sub te ts).
  assert (Hd : 0 <= d <= 9223372036854775807).
  { unfold d, Time_Sub, minDuration, maxDuration.
    change (2 ^ 63) with 9223372036854775808. lia. }
  unfold wrap64, Duration_Milliseconds, Millisecond.
  change (2 ^ 63) with 9223372036854775808.
  change (2 ^ 64) with 18446744073709551616.
  assert (Hq : 0 <= Z.quot d 1000000 <= d).
  { split; [apply Z.quot_pos; lia|].
    rewrite Z.quot_div_nonneg by lia.
    apply Z.div_le_upper_bound; lia. }
  set (q := Z.quot d 1000000) in *.
  split; [|split; [lia|intros Hp]].
  - rewrite (Z.mod_small (budget - q + 9223372036854775808)) by lia. lia.
  - rewrite (Z.mod_small ((budget - q) * 1000000 + 9223372036854775808)) by lia.
    lia.
Qed.

(** With a budget of zero the loop never sleeps. *)
Lemma iteration_no_sleep env loc w :
  msPerFrame (loop w) = 0 -> monotone env ->
  exists evs, log (world_of (iteration env loc w)) = log w ++ evs /\ no_sleep evs.
Proof.
  intros Hms Hmono.
  destruct (iteration env loc w) as [loc1 w1|r1 w1|w1] eqn:E.
  - apply iteration_Ret in E.
    destruct E as (ts & tu & tm & tn & te & L & _ & _ & _ & _ & _ & K).
    cbv zeta in L. destruct (K Hmono) as (_ & Hte & _).
    rewrite Hms in L.
    destruct (sleepTime_exact 0 ts te) as (Ew & Hq & _); [lia | exact Hte |].
    assert (Hs : (0 <? wrap64 (0 - Duration_Milliseconds (Time_Sub te ts))) = false).
    { apply Z.ltb_ge. rewrite Ew. lia. }
    rewrite Hs in L. cbn [world_of]. eexists. split; [exact L|].
    apply no_sleep_app; [apply no_sleep_phase_calls|].
    apply no_sleep_cons; [reflexivity|].
    apply no_sleep_cons; [reflexivity|].
    apply no_sleep_app.
    { destruct (Second <=? _); [|apply no_sleep_nil].
      apply no_sleep_cons; [reflexivity | apply no_sleep_nil]. }
    apply no_sleep_cons; [reflexivity | apply no_sleep_nil].
  - apply iteration_Panic in E.
    destruct E as (ts & tu & pre & e & more & Pc & L & P & _).
    cbn [world_of]. eexists. split; [exact L|].
    apply no_sleep_app.
    + apply (no_sleep_prefix pre (e :: more)). rewrite <- Pc.
      apply no_sleep_phase_calls.
    + apply no_sleep_cons; [|apply no_sleep_nil].
      destruct e; try discriminate P; reflexivity.
  - exfalso. exact (iteration_not_Spin _ _ _ _ E).
Qed.

Lemma run_loop_no_sleep fuel env : forall loc w,
  msPerFrame (loop w) = 0 -> monotone env ->
  exists evs,
    log (world_of (run_loop fuel env loc w)) = log w ++ evs /\ no_sleep evs.
Proof.
  induction fuel as [|fuel IH]; intros loc w Hms Hmono; cbn [run_loop].
  - exists []. split; [symmetry; apply app_nil_r | apply no_sleep_nil].
  - destruct (stop_received (loop w)).
    + exists []. split; [symmetry; apply app_nil_r | apply no_sleep_nil].
    + destruct (iteration_no_sleep env loc w Hms Hmono) as (evs & L & N).
      destruct (iteration env loc w) as [loc1 w1|r1 w1|w1] eqn:E.
      * cbn in L.
        assert (Hms1 : msPerFrame (loop w1) = 0).
        { apply iteration_Ret in E.
          destruct E as (ts & tu & tm & tn & te & _ & _ & _ & _ & S & _).
          cbv zeta in S. unfold same_setup in S. intuition congruence. }
        destruct (IH loc1 w1 Hms1 Hmono) as (evs' & L' & N').
        exists (evs ++ evs'). split; [|apply no_sleep_app; assumption].
        rewrite L', L, app_assoc. reflexivity.
      * exists evs. auto.
      * exists evs. auto.
Qed.

(** ** run and Start *)

Lemma run_eq fuel env w :
  run fuel env w =
  let t0 := clock w + drift env (reads w) in
  let t1 := t0 + drift env (S (reads w)) in
  run_loop fuel env (mkFrame 0 t0 t1)
    (mkWorld (set_stopCh chan_open (loop w)) t1 (S (S (reads w))) (calls w)
             ((log w ++ [ev_now t0]) ++ [ev_now t1])).
Proof. reflexivity. Qed.

Lemma Start_body_eq fuel env w :
  Start_body fuel env w =
  match update (loop w) with
  | None => Ret (Some (errors_New ERR_NO_UPDATE_FUNC)) w
  | Some _ =>
      if isRunning (loop w) then Ret None w
      else
        match run fuel env (with_loop (set_isRunning true (loop w)) w) with
        | Ret _ w' => Ret None w'
        | Panic r w' => Panic r w'
        | Spin w' => Spin w'
        end
  end.
Proof.
  unfold Start_body, bind, get_loop, modify_loop, ret.
  destruct (update (loop w)); [|reflexivity].
  destruct (isRunning (loop w)); [reflexivity|].
  destruct (run fuel env _); reflexivity.
Qed.

(** What holds of the world in which [run] leaves a loop flagged running. *)
Lemma run_world fuel env w :
  isRunning (loop w) = true ->
  let w' := world_of (run fuel env w) in
  same_setup (loop w) (loop w') /\ run_state (loop w') /\
  exists evs, log w' = log w ++ evs.
Proof.
  intros Hr. rewrite run_eq. cbv zeta.
  match goal with
  | |- context [run_loop fuel env ?loc ?v] =>
      destruct (run_loop_world fuel env loc v) as (S & R & evs & L)
  end.
  cbn [loop log] in S, R, L.
  split.
  { unfold same_setup in *. cbn in S. exact S. }
  split.
  { apply R. left. cbn. auto. }
  rewrite L, <- !app_assoc. eexists. reflexivity.
Qed.

Lemma same_setup_budget l l' :
  same_setup l l' -> budget_ok l -> budget_ok l'.
Proof. unfold same_setup, budget_ok. intros (-> & -> & _). auto. Qed.

Lemma run_state_stop_ready l : run_state l -> stop_ready l.
Proof. unfold run_state, stop_ready. intuition congruence. Qed.

Lemma Start_body_world fuel env w :
  let res := Start_body fuel env w in
  same_setup (loop w) (loop (world_of res)) /\
  (stop_ready (loop w) -> stop_ready (loop (world_of res))) /\
  (forall r w', res = Panic r w' ->
     isRunning (loop w) = false /\ run_state (loop w') /\
     (exists pre e, log w' = log w ++ pre ++ [e] /\ is_phase e = true) /\
     (exists n, calls w' = S n /\ raised (effects env n) = Some r)) /\
  exists evs, log (world_of res) = log w ++ evs.
Proof.
  cbv zeta. rewrite Start_body_eq.
  destruct (update (loop w)) as [f|].
  2:{ cbn. split; [apply same_setup_refl|]. split; [tauto|].
      split; [discriminate|]. exists []. symmetry. apply app_nil_r. }
  destruct (isRunning (loop w)) eqn:Er.
  { cbn. split; [apply same_setup_refl|]. split; [tauto|].
    split; [discriminate|]. exists []. symmetry. apply app_nil_r. }
  pose proof (run_world fuel env (with_loop (set_isRunning true (loop w)) w)
                eq_refl) as W.
  cbv zeta in W. cbn [with_loop loop log set_isRunning] in W.
  destruct W as (S & R & evs & L).
  assert (S' : same_setup (loop w)
                 (loop (world_of (run fuel env
                    (with_loop (set_isRunning true (loop w)) w))))).
  { unfold same_setup in *. cbn in S. exact S. }
  destruct (run fuel env (with_loop (set_isRunning true (loop w)) w))
    as [u w1|r1 w1|w1] eqn:E; cbn [world_of] in *.
  - split; [exact S'|]. split; [intros _; apply run_state_stop_ready, R|].
    split; [discriminate|]. exists evs. exact L.
  - split; [exact S'|]. split; [intros _; apply run_state_stop_ready, R|].
    split; [|exists evs; exact L].
    intros r w' Hp. inv Hp. split; [reflexivity|]. split; [exact R|].
    rewrite run_eq in E. cbv zeta in E. apply run_loop_Panic in E.
    destruct E as ((pre & e & Le & P) & Hv). cbn [log with_loop loop] in Le, Hv.
    split; [|apply Hv; left; cbn; auto].
    rewrite Le, <- (app_assoc (log w)), snoc_assoc. eexists. exists e.
    split; [reflexivity | exact P].
  - split; [exact S'|]. split; [intros _; apply run_state_stop_ready, R|].
    split; [discriminate|]. exists evs. exact L.
Qed.

Lemma Start_body_fuel_Panic fuel env w r w' k :
  Start_body fuel env w = Panic r w' ->
  Start_body (fuel + k) env w = Panic r w'.
Proof.
  rewrite !Start_body_eq.
  destruct (update (loop w)); [|discriminate].
  destruct (isRunning (loop w)); [discriminate|].
  rewrite !run_eq. cbv zeta.
  match goal with
  | |- context [run_loop fuel env ?loc ?v] =>
      destruct (run_loop fuel env loc v) as [a1 w1|r1 w1|w1] eqn:E;
        try discriminate
  end.
  intros H. inv H.
  rewrite (run_loop_fuel_Panic _ _ _ _ _ _ k E). reflexivity.
Qed.

Lemma Start_eq fuel env w :
  Start fuel env w =
  match recoverFunc (loop w) with
  | Some _ =>
      match Start_body fuel env w with
      | Panic r w' => recovered env r w'
      | other => other
      end
  | None => Start_body fuel env w
  end.
Proof. reflexivity. Qed.

Lemma recovered_eq env r w f :
  recoverFunc (loop w) = Some f ->
  recovered env r w =
  match call env (ev_recover f r) w with
  | Ret _ w' => Ret None w'
  | Panic r' w' => Panic r' w'
  | Spin w' => Spin w'
  end.
Proof.
  intros H. unfold recovered, bind, get_loop, ret. rewrite H.
  destruct (call env (ev_recover f r) w); reflexivity.
Qed.

(** Whatever [Start] does, it changes neither the configuration nor the
    fitness of the loop to be stopped. *)
Lemma Start_world fuel env w :
  let w' := world_of (Start fuel env w) in
  same_setup (loop w) (loop w') /\
  (stop_ready (loop w) -> stop_ready (loop w')) /\
  exists evs, log w' = log w ++ evs.
Proof.
  cbv zeta. rewrite Start_eq.
  destruct (Start_body_world fuel env w) as (S & R & P & evs & L).
  destruct (recoverFunc (loop w)) as [h|] eqn:Eh; [|eauto].
  destruct (Start_body fuel env w) as [u w1|r1 w1|w1] eqn:E;
    cbn [world_of] in *; [eauto| |eauto].
  destruct (P r1 w1 eq_refl) as (_ & Rs & _).
  assert (Eh1 : recoverFunc (loop w1) = Some h).
  { unfold same_setup in S. intuition congruence. }
  rewrite (recovered_eq env r1 w1 h Eh1).
  pose proof (call_world env (ev_recover h r1) w1) as W. cbv zeta in W.
  destruct W as (Lc & Sc & _ & Rc & _).
  assert (world_of (match call env (ev_recover h r1) w1 with
                    | Ret _ w' => Ret (@None error) w'
                    | Panic r' w' => Panic r' w'
                    | Spin w' => Spin w'
                    end) = world_of (call env (ev_recover h r1) w1)) as ->.
  { destruct (call env (ev_recover h r1) w1); reflexivity. }
  split; [eauto using same_setup_trans|].
  split; [intros _; apply run_state_stop_ready; auto|].
  rewrite Lc, L, <- app_assoc. eexists. reflexivity.
Qed.

(** ** Invariants of the reachable states *)

Lemma SetTargetFps_budget fps l :
  min_int <= fps <= max_int -> budget_ok (SetTargetFps fps l).
Proof.
  intros [Hlo Hhi]. unfold budget_ok, SetTargetFps. cbn [targetFps msPerFrame].
  assert (H : 1 <= Z.max fps 1 <= max_int) by (unfold max_int in *; lia).
  split; [exact H|]. apply budget_quotient. exact H.
Qed.

Lemma Stop_world w :
  let w' := world_of (Stop w) in
  same_setup (loop w) (loop w') /\ stop_ready (loop w') /\ log w' = log w.
Proof.
  cbv zeta. rewrite Stop_eq.
  destruct (isRunning (loop w)) eqn:Er.
  - destruct (stopCh (loop w)); cbn; unfold same_setup, stop_ready; cbn;
      repeat split; auto; discriminate.
  - cbn. split; [apply same_setup_refl|]. split; [|reflexivity].
    unfold stop_ready. congruence.
Qed.

Lemma reachable_invariant w :
  reachable w -> budget_ok (loop w) /\ stop_ready (loop w).
Proof.
  induction 1 as [|c w Hw [Hb Hs] Hc|w Hw [Hb Hs]|fuel env w Hw [Hb Hs]].
  - split.
    + apply SetTargetFps_budget. unfold min_int, max_int, DEFAULT_FPS. lia.
    + unfold stop_ready. cbn. discriminate.
  - cbn [loop with_loop].
    destruct c; cbn [configure int_arg] in *;
      try (split; [exact Hb | exact Hs]).
    split; [apply SetTargetFps_budget; exact Hc | exact Hs].
  - destruct (Stop_world w) as (S & R & _).
    split; [exact (same_setup_budget _ _ S Hb) | exact R].
  - destruct (Start_world fuel env w) as (S & R & _).
    split; [exact (same_setup_budget _ _ S Hb) | exact (R Hs)].
Qed.

(** * The specified properties *)

Lemma sample_env_monotone s p : monotone (sample_env s p).
Proof. split; intros n; cbn; lia. Qed.

(** ** Start and Stop *)

(** C1: with no update function registered, [Start] returns the
    missing-update error and leaves the world as it was: nothing is logged,
    so no iteration was run and neither input, update nor render was called. *)
Theorem Start_without_update fuel env w :
  update (loop w) = None ->
  Start fuel env w = Ret (Some (errors_New ERR_NO_UPDATE_FUNC)) w.
Proof.
  intros H. rewrite Start_eq, Start_body_eq, H.
  destruct (recoverFunc (loop w)); reflexivity.
Qed.

Lemma Start_without_update_witness :
  update (loop (boot (SetTargetFps 60 NewLoop))) = None /\
  Start 10 (sample_env 3 100) (boot (SetTargetFps 60 NewLoop))
  = Ret (Some (errors_New ERR_NO_UPDATE_FUNC)) (boot (SetTargetFps 60 NewLoop)).
Proof.
  split; [reflexivity|].
  apply (Start_without_update 10 (sample_env 3 100)
           (boot (SetTargetFps 60 NewLoop))).
  reflexivity.
Defined.

(** C8: [Start] on a loop that is already running, with an update function
    registered, returns nil and leaves the world as it was: nothing is
    logged, so no second loop was started. *)
Theorem Start_while_running fuel env w f :
  update (loop w) = Some f ->
  isRunning (loop w) = true ->
  Start fuel env w = Ret None w.
Proof.
  intros Hu Hr. rewrite Start_eq, Start_body_eq, Hu, Hr.
  destruct (recoverFunc (loop w)); reflexivity.
Qed.

Lemma Start_while_running_witness :
  update (loop running_world) = Some onUpdate /\
  isRunning (loop running_world) = true /\
  Start 10 (sample_env 3 100) running_world = Ret None running_world.
Proof.
  split; [vm_compute; reflexivity|]. split; [vm_compute; reflexivity|].
  apply (Start_while_running 10 (sample_env 3 100) running_world onUpdate);
    vm_compute; reflexivity.
Defined.

(** C9: [Stop] returns nil in every state a program can reach, and leaves
    the loop not running; a second [Stop] changes nothing, and neither does
    a [Stop] on a loop that is not running, such as one never started. *)
Theorem Stop_succeeds w :
  stop_ready (loop w) ->
  exists w',
    Stop w = Ret None w' /\
    IsRunning (loop w') = false /\
    Stop w' = Ret None w' /\
    (isRunning (loop w) = false -> w' = w).
Proof.
  intros Hs. rewrite Stop_eq.
  destruct (isRunning (loop w)) eqn:Er.
  - rewrite (Hs Er).
    exists (with_loop (stopped (loop w)) w).
    split; [reflexivity|]. split; [reflexivity|].
    split; [rewrite Stop_eq; reflexivity | discriminate].
  - exists w. split; [reflexivity|]. split; [exact Er|].
    split; [rewrite Stop_eq, Er; reflexivity | reflexivity].
Qed.

Lemma Stop_succeeds_witness :
  stop_ready (loop (boot NewLoop)) /\
  exists w',
    Stop (boot NewLoop) = Ret None w' /\
    IsRunning (loop w') = false /\
    Stop w' = Ret None w' /\
    (isRunning (loop (boot NewLoop)) = false -> w' = boot NewLoop).
Proof.
  assert (H : stop_ready (loop (boot NewLoop))).
  { unfold stop_ready. cbn. discriminate. }
  split; [exact H|]. exact (Stop_succeeds (boot NewLoop) H).
Defined.

(** ** The target rate and the budget *)

(** C6: after [SetTargetFps r] the rate reported is [r] clamped between 1
    and the largest value of the integer type that holds it: the largest
    [int] now, 65535 when the rate was a [uint16].  The setter has no way to
    refuse. *)
Theorem SetTargetFps_clamps r l l1 :
  min_int <= r <= max_int ->
  GetTargetFps (SetTargetFps r l) = clamp r 1 max_int /\
  Rev1.GetTargetFps (Rev1.SetTargetFps r l1) = clamp r 1 65535.
Proof.
  intros [Hlo Hhi].
  unfold GetTargetFps, Rev1.GetTargetFps, clamp, SetTargetFps, Rev1.SetTargetFps.
  cbn [targetFps Rev1.targetFps].
  unfold min_int, max_int in *. change (2 ^ 63) with 9223372036854775808 in *.
  split; [lia|].
  unfold uint16. change (2 ^ 16) with 65536.
  rewrite Z.mod_small by lia. lia.
Qed.

Lemma SetTargetFps_clamps_witness :
  min_int <= 70000 <= max_int /\
  GetTargetFps (SetTargetFps 70000 NewLoop) = clamp 70000 1 max_int /\
  Rev1.GetTargetFps (Rev1.SetTargetFps 70000 (Rev1.mkloop 0 (S754_zero false)))
  = clamp 70000 1 65535.
Proof.
  assert (H : min_int <= 70000 <= max_int) by (unfold min_int, max_int; lia).
  split; [exact H|].
  exact (SetTargetFps_clamps 70000 NewLoop (Rev1.mkloop 0 (S754_zero false)) H).
Defined.

(** C5: in every state a program can reach, the stored rate is at least 1
    and the budget is the number of whole milliseconds in one second divided
    by it: budget times rate does not exceed a second, and with one
    millisecond more it would.  [SetTargetFps] stores the rate asked for, or
    1 if that is less, and computes the budget anew from the rate it stored;
    no other setter writes the rate or the budget. *)
Theorem budget_follows_rate w fps :
  reachable w ->
  min_int <= fps <= max_int ->
  (1 <= targetFps (loop w) /\
   msPerFrame (loop w) = Second / Millisecond / targetFps (loop w) /\
   msPerFrame (loop w) * targetFps (loop w) * Millisecond <= Second
   < (msPerFrame (loop w) + 1) * targetFps (loop w) * Millisecond) /\
  (let l' := SetTargetFps fps (loop w) in
   targetFps l' = Z.max fps 1 /\
   msPerFrame l' = Second / Millisecond / Z.max fps 1 /\
   msPerFrame l' * targetFps l' * Millisecond <= Second
   < (msPerFrame l' + 1) * targetFps l' * Millisecond) /\
  (forall c,
     (forall r, c <> cfg_TargetFps r) ->
     targetFps (configure c (loop w)) = targetFps (loop w) /\
     msPerFrame (configure c (loop w)) = msPerFrame (loop w)).
Proof.
  intros Hw Hfps. change (Second / Millisecond) with 1000.
  assert (Hq : forall l, budget_ok l ->
            1 <= targetFps l /\ msPerFrame l = 1000 / targetFps l /\
            msPerFrame l * targetFps l * Millisecond <= Second
            < (msPerFrame l + 1) * targetFps l * Millisecond).
  { intros l [[Hlo _] Hb]. split; [exact Hlo|]. split; [exact Hb|].
    rewrite Hb. unfold Millisecond, Second.
    pose proof (Z.mul_div_le 1000 (targetFps l)) as H1.
    pose proof (Z.mul_succ_div_gt 1000 (targetFps l)) as H2.
    split; nia. }
  split; [|split].
  - apply Hq. apply reachable_invariant. exact Hw.
  - cbv zeta.
    destruct (Hq _ (SetTargetFps_budget fps (loop w) Hfps)) as (_ & Hb & Hm).
    split; [reflexivity|]. split; [exact Hb | exact Hm].
  - intros c Hc. destruct c; try (split; reflexivity).
    exfalso. exact (Hc fps0 eq_refl).
Qed.

Lemma budget_follows_rate_witness :
  reachable (boot NewLoop) /\
  min_int <= 45 <= max_int /\
  (1 <= targetFps (loop (boot NewLoop)) /\
   msPerFrame (loop (boot NewLoop))
   = Second / Millisecond / targetFps (loop (boot NewLoop)) /\
   msPerFrame (loop (boot NewLoop)) * targetFps (loop (boot NewLoop))
     * Millisecond <= Second
   < (msPerFrame (loop (boot NewLoop)) + 1) * targetFps (loop (boot NewLoop))
     * Millisecond) /\
  (let l' := SetTargetFps 45 (loop (boot NewLoop)) in
   targetFps l' = Z.max 45 1 /\
   msPerFrame l' = Second / Millisecond / Z.max 45 1 /\
   msPerFrame l' * targetFps l' * Millisecond <= Second
   < (msPerFrame l' + 1) * targetFps l' * Millisecond) /\
  (forall c,
     (forall r, c <> cfg_TargetFps r) ->
     targetFps (configure c (loop (boot NewLoop)))
     = targetFps (loop (boot NewLoop)) /\
     msPerFrame (configure c (loop (boot NewLoop)))
     = msPerFrame (loop (boot NewLoop))).
Proof.
  assert (H : min_int <= 45 <= max_int) by (unfold min_int, max_int; lia).
  split; [exact reach_NewLoop|]. split; [exact H|].
  exact (budget_follows_rate (boot NewLoop) 45 reach_NewLoop H).
Defined.

(** The rate and the budget of the sample loop: 50 frames a second, 20
    milliseconds. *)
Example sample_loop_budget :
  GetTargetFps sample_loop = 50 /\ msPerFrame sample_loop = 20.
Proof. vm_compute. split; reflexivity. Qed.

Lemma Start_body_no_sleep fuel env w :
  msPerFrame (loop w) = 0 -> monotone env ->
  exists evs,
    log (world_of (Start_body fuel env w)) = log w ++ evs /\ no_sleep evs.
Proof.
  intros Hms Hmono. rewrite Start_body_eq.
  destruct (update (loop w)) as [f|].
  2:{ exists []. split; [symmetry; apply app_nil_r | apply no_sleep_nil]. }
  destruct (isRunning (loop w)).
  { exists []. split; [symmetry; apply app_nil_r | apply no_sleep_nil]. }
  rewrite run_eq. cbv zeta. cbn [with_loop loop clock reads calls log].
  match goal with
  | |- context [run_loop fuel env ?loc ?v] =>
      destruct (run_loop_no_sleep fuel env loc v Hms Hmono) as (evs & L & N);
      destruct (run_loop fuel env loc v) as [a1 w1|r1 w1|w1]
  end; cbn [world_of log] in *;
    rewrite L, <- !app_assoc; eexists; (split; [reflexivity|]);
    (apply no_sleep_cons; [reflexivity|]);
    (apply no_sleep_cons; [reflexivity|]); exact N.
Qed.

Lemma recovered_world env r w :
  exists evs,
    log (world_of (recovered env r w)) = log w ++ evs /\ no_sleep evs.
Proof.
  destruct (recoverFunc (loop w)) as [f|] eqn:E.
  - rewrite (recovered_eq env r w f E).
    pose proof (call_world env (ev_recover f r) w) as W. cbv zeta in W.
    destruct W as (L & _).
    exists [ev_recover f r]. split.
    + destruct (call env (ev_recover f r) w); exact L.
    + apply no_sleep_cons; [reflexivity | apply no_sleep_nil].
  - unfold recovered, bind, get_loop. rewrite E. cbn.
    exists []. split; [symmetry; apply app_nil_r | apply no_sleep_nil].
Qed.

(** With a budget of zero [Start] never sleeps. *)
Lemma Start_no_sleep fuel env w :
  msPerFrame (loop w) = 0 -> monotone env ->
  exists evs, log (world_of (Start fuel env w)) = log w ++ evs /\ no_sleep evs.
Proof.
  intros Hms Hmono. rewrite Start_eq.
  destruct (Start_body_no_sleep fuel env w Hms Hmono) as (evs & L & N).
  destruct (recoverFunc (loop w)); [|eauto].
  destruct (Start_body fuel env w) as [a1 w1|r1 w1|w1]; [eauto| |eauto].
  cbn [world_of] in L.
  destruct (recovered_world env r1 w1) as (evs' & L' & N').
  exists (evs ++ evs'). split; [|apply no_sleep_app; assumption].
  rewrite L', L, app_assoc. reflexivity.
Qed.

(** C10: a target rate above 1000 gives a budget of 0 milliseconds, and a
    loop started with it never sleeps, however its run goes and however
    long it is followed. *)
Theorem unthrottled_above_1000 fps fuel env w :
  1000 < fps <= max_int ->
  monotone env ->
  msPerFrame (SetTargetFps fps (loop w)) = 0 /\
  exists evs,
    log (world_of (Start fuel env (with_loop (SetTargetFps fps (loop w)) w)))
    = log w ++ evs /\
    no_sleep evs.
Proof.
  intros [Hlo Hhi] Hmono.
  assert (Hms : msPerFrame (SetTargetFps fps (loop w)) = 0).
  { destruct (SetTargetFps_budget fps (loop w)) as [_ Hb].
    { unfold min_int, max_int in *. lia. }
    rewrite Hb. cbn [targetFps SetTargetFps].
    apply Z.div_small. lia. }
  split; [exact Hms|].
  exact (Start_no_sleep fuel env (with_loop (SetTargetFps fps (loop w)) w)
           Hms Hmono).
Qed.

Lemma unthrottled_above_1000_witness :
  1000 < 5000 <= max_int /\
  monotone (sample_env 7 100) /\
  msPerFrame (SetTargetFps 5000 (loop (boot sample_loop))) = 0 /\
  exists evs,
    log (world_of (Start 10 (sample_env 7 100)
           (with_loop (SetTargetFps 5000 (loop (boot sample_loop)))
                      (boot sample_loop))))
    = log (boot sample_loop) ++ evs /\
    no_sleep evs.
Proof.
  assert (H : 1000 < 5000 <= max_int) by (unfold max_int; lia).
  split; [exact H|]. split; [exact (sample_env_monotone 7 100)|].
  exact (unthrottled_above_1000 5000 10 (sample_env 7 100) (boot sample_loop)
           H (sample_env_monotone 7 100)).
Defined.

(** ** The earlier budget

    The second revision divided in integers: its budget is a second for a
    rate of 1 and nothing for every other rate.  The float32 division of the
    latest revision replaced it. *)

(** X13: in the second revision the budget is a whole second for a
    requested rate of 1 or less and 0 for every other rate, since
    [1 / l.targetFps] is an integer division. *)
Remark Rev2_budget fps l :
  Rev2.msPerFrame (Rev2.SetTargetFps fps l) = if fps <=? 1 then 1000 else 0.
Proof.
  unfold Rev2.SetTargetFps. cbn [Rev2.msPerFrame].
  destruct (Z.leb_spec fps 1) as [H|H].
  - replace (Z.max fps 1) with 1 by lia. reflexivity.
  - replace (Z.max fps 1) with fps by lia.
    rewrite Z.quot_small by lia. reflexivity.
Qed.

(** ** One iteration of the loop *)

(** [run] enters the loop with a count of zero and two readings of the
    clock, taken as it starts, for the last frame and the last second. *)
Lemma run_starts fuel env w :
  exists t0 t1 v,
    run fuel env w = run_loop fuel env (mkFrame 0 t0 t1) v /\
    log v = log w ++ [ev_now t0; ev_now t1] /\
    same_setup (loop w) (loop v) /\ currentFps (loop v) = currentFps (loop w).
Proof.
  rewrite run_eq. cbv zeta. do 3 eexists. split; [reflexivity|].
  cbn [log loop]. rewrite <- app_assoc.
  split; [reflexivity|]. split; [|reflexivity].
  unfold same_setup. cbn. tauto.
Qed.

(** C2: an iteration reads the clock, calls input, update and render in
    this order, each one if it is registered and not otherwise, and reads
    the clock again for the time the frame was finished.  Update is called
    with one argument: the time from the finish of the previous frame,
    or from the start of the loop in the first iteration, to a reading of
    the clock taken for the call.  An iteration cut short by a panic has
    made a first part of these calls, the last one being the call that
    panicked. *)
Theorem phases_in_order env loc w :
  (exists ts tu,
     match iteration env loc w with
     | Ret loc' w' =>
         exists rest,
           log w' = log w ++ phase_calls (loop w) loc ts tu
                      ++ ev_now (lastFrame loc') :: rest /\
           forall e, In e rest -> is_call e = false
     | Panic _ w' =>
         exists pre e more,
           phase_calls (loop w) loc ts tu = pre ++ e :: more /\
           log w' = log w ++ pre ++ [e] /\
           is_phase e = true
     | Spin _ => False
     end) /\
  (forall fuel, stop_received (loop w) = false ->
     run_loop (S fuel) env loc w = bind (iteration env loc) (run_loop fuel env) w) /\
  (forall fuel, exists t0 t1 v,
     run fuel env w = run_loop fuel env (mkFrame 0 t0 t1) v /\
     log v = log w ++ [ev_now t0; ev_now t1]).
Proof.
  split; [|split].
  - destruct (iteration env loc w) as [loc1 w1|r1 w1|w1] eqn:E.
    + apply iteration_Ret in E.
      destruct E as (ts & tu & tm & tn & te & L & _). cbv zeta in L.
      exists ts, tu. eexists. split; [exact L|].
      intros e [<-|Hin]; [reflexivity|].
      apply in_app_or in Hin as [Hin|[<-|Hin]].
      * destruct (Second <=? _); [|destruct Hin].
        destruct Hin as [<-|[]]. reflexivity.
      * reflexivity.
      * destruct (0 <? _); [|destruct Hin].
        destruct Hin as [<-|[]]. reflexivity.
    + apply iteration_Panic in E.
      destruct E as (ts & tu & pre & e & more & Pc & L & P & _).
      exists ts, tu, pre, e, more. auto.
    + exfalso. exact (iteration_not_Spin _ _ _ _ E).
  - intros fuel Hs. cbn [run_loop]. rewrite Hs. unfold bind.
    destruct (iteration env loc w); reflexivity.
  - intros fuel. destruct (run_starts fuel env w) as (t0 & t1 & v & E & L & _).
    exists t0, t1, v. auto.
Qed.

(** C3: an iteration that runs to its end reads the clock a last time,
    takes the budget less the whole milliseconds elapsed since its first
    reading, and sleeps that long if it is positive; it sleeps at no other
    point, and makes up for no time lost.  An iteration cut short by a
    panic does not sleep. *)
Theorem pacing_sleep env loc w :
  budget_ok (loop w) ->
  monotone env ->
  match iteration env loc w with
  | Ret loc' w' =>
      exists ts te work,
        let elapsed := Duration_Milliseconds (Time_Sub te ts) in
        let sleepTime := msPerFrame (loop w) - elapsed in
        log w' = log w ++ ev_now ts :: work ++ ev_now te
                   :: (if 0 <? sleepTime
                       then [ev_sleep (sleepTime * Millisecond)] else []) /\
        no_sleep work
  | Panic _ w' => exists evs, log w' = log w ++ evs /\ no_sleep evs
  | Spin _ => False
  end.
Proof.
  intros [Hfps Hb] Hmono.
  assert (Hms : 0 <= msPerFrame (loop w) <= 1000).
  { rewrite Hb. split; [apply Z.div_pos; lia|].
    apply Z.div_le_upper_bound; lia. }
  destruct (iteration env loc w) as [loc1 w1|r1 w1|w1] eqn:E.
  - apply iteration_Ret in E.
    destruct E as (ts & tu & tm & tn & te & L & _ & _ & _ & _ & _ & K).
    cbv zeta in L. destruct (K Hmono) as (_ & Hte & _).
    destruct (sleepTime_exact (msPerFrame (loop w)) ts te Hms Hte)
      as (Ew & _ & Ew').
    rewrite Ew in L.
    exists ts, te,
      (opt_list (input (loop w)) (fun f => [ev_input f])
       ++ opt_list (update (loop w))
            (fun f => [ev_now tu; ev_update f (Time_Sub tu (lastFrame loc))])
       ++ opt_list (render (loop w)) (fun f => [ev_render f])
       ++ ev_now (lastFrame loc1) :: ev_now tm
       :: (if Second <=? Time_Sub tm (lastSecond loc) then [ev_now tn] else [])).
    cbv zeta. split.
    + rewrite L. unfold phase_calls. cbn [app].
      destruct (0 <? msPerFrame (loop w) - Duration_Milliseconds (Time_Sub te ts))
        eqn:Es.
      * rewrite Ew' by (apply Z.ltb_lt; exact Es).
        rewrite <- !app_assoc. reflexivity.
      * rewrite <- !app_assoc. reflexivity.
    + pose proof (no_sleep_phase_calls (loop w) loc ts tu) as N.
      unfold phase_calls in N.
      intros d Hin. apply (N d). right.
      rewrite !app_assoc in Hin. apply in_app_or in Hin as [Hin|Hin].
      * rewrite <- !app_assoc in Hin. exact Hin.
      * exfalso. destruct Hin as [Hin|[Hin|Hin]]; try discriminate Hin.
        destruct (Second <=? _); [|destruct Hin].
        destruct Hin as [Hin|[]]. discriminate Hin.
  - apply iteration_Panic in E.
    destruct E as (ts & tu & pre & e & more & Pc & L & P & _).
    eexists. split; [exact L|].
    apply no_sleep_app.
    + apply (no_sleep_prefix pre (e :: more)). rewrite <- Pc.
      apply no_sleep_phase_calls.
    + apply no_sleep_cons; [|apply no_sleep_nil].
      destruct e; try discriminate P; reflexivity.
  - exact (iteration_not_Spin _ _ _ _ E).
Qed.

Lemma pacing_sleep_witness :
  budget_ok (loop (boot sample_loop)) /\
  monotone (sample_env 100 100) /\
  match iteration (sample_env 100 100) sample_frame (boot sample_loop) with
  | Ret loc' w' =>
      exists ts te work,
        let elapsed := Duration_Milliseconds (Time_Sub te ts) in
        let sleepTime := msPerFrame (loop (boot sample_loop)) - elapsed in
        log w' = log (boot sample_loop) ++ ev_now ts :: work ++ ev_now te
                   :: (if 0 <? sleepTime
                       then [ev_sleep (sleepTime * Millisecond)] else []) /\
        no_sleep work
  | Panic _ w' =>
      exists evs, log w' = log (boot sample_loop) ++ evs /\ no_sleep evs
  | Spin _ => False
  end.
Proof.
  assert (H : budget_ok (loop (boot sample_loop))).
  { unfold budget_ok, max_int. vm_compute. intuition discriminate. }
  split; [exact H|]. split; [exact (sample_env_monotone 100 100)|].
  exact (pacing_sleep (sample_env 100 100) sample_frame (boot sample_loop)
           H (sample_env_monotone 100 100)).
Defined.

(** What the sample iteration logs: six milliseconds of callbacks against a
    budget of twenty, and a sleep of fourteen. *)
Example sample_iteration_log :
  log (world_of (iteration (sample_env 100 100) sample_frame (boot sample_loop)))
  = [ev_now 1000; ev_input onInput; ev_now 2002000;
     ev_update onUpdate 2002000; ev_render onRender; ev_now 6003000;
     ev_now 6004000; ev_now 6005000; ev_sleep 14000000].
Proof. vm_compute. reflexivity. Qed.

(** C4: the rate published by a new loop is 0 and neither a configuration
    call nor [Stop] changes it.  An iteration that runs to its end counts
    itself and reads the clock for the age of the window: if that is a
    second or more, the count is published, the count starts again at 0 and
    the window at a fresh reading of the clock; if not, the published rate
    and the start of the window stay as they were.  An iteration cut short
    by a panic publishes nothing.  The first window starts with the loop. *)
Theorem rate_meter env loc w :
  (GetCurrentFps NewLoop = 0 /\
   (forall c l, GetCurrentFps (configure c l) = GetCurrentFps l) /\
   (forall v, GetCurrentFps (loop (world_of (Stop v))) = GetCurrentFps (loop v))) /\
  (exists ts tu tm,
     match iteration env loc w with
     | Ret loc' w' =>
         exists post,
           log w' = log w ++ phase_calls (loop w) loc ts tu
                      ++ ev_now (lastFrame loc') :: ev_now tm :: post /\
           if Second <=? Time_Sub tm (lastSecond loc)
           then GetCurrentFps (loop w') = wrap64 (frameCounter loc + 1) /\
                frameCounter loc' = 0 /\
                exists post', post = ev_now (lastSecond loc') :: post'
           else GetCurrentFps (loop w') = GetCurrentFps (loop w) /\
                frameCounter loc' = wrap64 (frameCounter loc + 1) /\
                lastSecond loc' = lastSecond loc
     | Panic _ w' => GetCurrentFps (loop w') = GetCurrentFps (loop w)
     | Spin _ => False
     end) /\
  (forall fuel, exists t0 t1 v,
     run fuel env w = run_loop fuel env (mkFrame 0 t0 t1) v /\
     log v = log w ++ [ev_now t0; ev_now t1] /\
     GetCurrentFps (loop v) = GetCurrentFps (loop w)).
Proof.
  split; [|split].
  - split; [reflexivity|]. split.
    + intros c l. destruct c; reflexivity.
    + intros v. rewrite Stop_eq.
      destruct (isRunning (loop v)); [destruct (stopCh (loop v))|]; reflexivity.
  - destruct (iteration env loc w) as [loc1 w1|r1 w1|w1] eqn:E.
    + apply iteration_Ret in E.
      destruct E as (ts & tu & tm & tn & te & L & Fc & Ls & C & _).
      cbv zeta in L, Fc, Ls, C.
      exists ts, tu, tm. eexists. split; [exact L|].
      unfold GetCurrentFps.
      destruct (Second <=? Time_Sub tm (lastSecond loc)).
      * split; [exact C|]. split; [exact Fc|].
        rewrite Ls. eexists. reflexivity.
      * auto.
    + apply iteration_Panic in E.
      destruct E as (ts & tu & pre & e & more & _ & _ & _ & _ & C & _).
      exists ts, tu, 0. exact C.
    + exfalso. exact (iteration_not_Spin _ _ _ _ E).
  - intros fuel.
    destruct (run_starts fuel env w) as (t0 & t1 & v & E & L & _ & C).
    exists t0, t1, v. auto.
Qed.

(** ** Faults *)

Lemma call_keeps_loop env e w :
  stops (effects env (calls w)) = false ->
  loop (world_of (call env e w)) = loop w.
Proof.
  intros H. rewrite call_eq. cbv zeta. rewrite H.
  destruct (raised (effects env (calls w))); reflexivity.
Qed.




(** After the recovered fault [Start] no longer starts the loop, until
    [Stop] has been called. *)
Example Start_after_recovered_fault :
  let w1 := world_of (Start 5 (sample_env 100 4) (boot guarded_loop)) in
  IsRunning (loop w1) = true /\
  Start 5 (sample_env 100 100) w1 = Ret None w1 /\
  IsRunning (loop (world_of (Stop w1))) = false.
Proof. vm_compute. split; [|split]; reflexivity. Qed.

(** * The loop over a whole run

    How a run goes on, how it ends, and what holds of all its events. *)

(** ** The calls of an iteration and its bookkeeping *)

Lemma iteration_split env loc :
  iteration env loc
  = (start <- time_Now env ;; phases_then env loc (finish_frame env loc start)).
Proof. reflexivity. Qed.

Lemma phase_calls_events l loc ts tu :
  phase_calls l loc ts tu = ev_now ts :: phase_events l loc tu.
Proof. reflexivity. Qed.

Lemma advances_refl env w : run_state (loop w) -> advances env w w.
Proof.
  intros R. unfold advances.
  split; [apply same_setup_refl|]. split; [reflexivity|]. split; [exact R|].
  split; [lia|]. split; [|intros _; lia].
  split; [auto|]. intros [H|(k & Hk & _)]; [exact H | lia].
Qed.

Lemma advances_trans env w1 w2 w3 :
  advances env w1 w2 -> advances env w2 w3 -> advances env w1 w3.
Proof.
  intros (S1 & C1 & R1 & N1 & H1 & K1) (S2 & C2 & R2 & N2 & H2 & K2).
  unfold advances.
  split; [eauto using same_setup_trans|]. split; [congruence|].
  split; [exact R2|]. split; [lia|]. split.
  - rewrite H2, H1. unfold stops_within. split.
    + intros [[H|(k & Hk & E)]|(k & Hk & E)]; [left; exact H| |];
        right; exists k; split; auto; lia.
    + intros [H|(k & Hk & E)]; [left; left; exact H|].
      destruct (Nat.lt_ge_cases k (calls w2)) as [Hlt|Hge].
      * left. right. exists k. split; [lia | exact E].
      * right. exists k. split; [lia | exact E].
  - intros Hm. specialize (K1 Hm). specialize (K2 Hm). lia.
Qed.

Lemma advances_calls env w w' : advances env w w' -> (calls w <= calls w')%nat.
Proof. intros A. apply A. Qed.

Lemma call_advances env e w :
  run_state (loop w) -> advances env w (world_of (call env e w)).
Proof.
  intros R. pose proof (call_world env e w) as W. cbv zeta in W.
  destruct W as (_ & Hs & C & Rs & K & _ & N). unfold advances.
  split; [exact Hs|]. split; [exact C|]. split; [exact (Rs R)|].
  split; [lia|]. split.
  - rewrite N.
    assert (Hone : stops_within env (calls w) (S (calls w))
                   <-> stops (effects env (calls w)) = true).
    { unfold stops_within. split.
      - intros (k & Hk & E). replace k with (calls w) in E by lia. exact E.
      - intros E. exists (calls w). split; [lia | exact E]. }
    rewrite Hone. clear - R.
    rewrite call_eq. cbv zeta.
    destruct (stops (effects env (calls w))).
    + rewrite Stop_eq. cbn [loop].
      destruct R as [[Hr Hc]|[Hr Hc]]; rewrite Hr; rewrite ?Hc;
        destruct (raised (effects env (calls w))); cbn; rewrite ?Hc;
        intuition (try discriminate; auto).
    + destruct (raised (effects env (calls w))); cbn;
        intuition discriminate.
  - intros [_ Hm]. specialize (Hm (calls w)). lia.
Qed.

Lemma quiet_within_empty env a : quiet_within env a a.
Proof. intros k Hk. lia. Qed.

Lemma quiet_within_one env a :
  raised (effects env a) = None -> quiet_within env a (S a).
Proof. intros H k Hk. replace k with a by lia. exact H. Qed.

Lemma quiet_within_app env a b c :
  quiet_within env a b -> quiet_within env b c -> quiet_within env a c.
Proof.
  intros H1 H2 k Hk.
  destruct (Nat.lt_ge_cases k b); [apply H1 | apply H2]; lia.
Qed.

(** A call of a registered function, if there is one: it returns or it
    panics. *)
Lemma phase_cases env (o : option nat) (mk : nat -> event) w :
  run_state (loop w) ->
  exists w',
    advances env w w' /\ (calls w' <= S (calls w))%nat /\
    ((match o with
      | Some f => call env (mk f)
      | None => ret tt
      end w = Ret tt w' /\
      log w' = log w ++ opt_list o (fun f => [mk f]) /\
      (o <> None -> calls w' = S (calls w)) /\
      quiet_within env (calls w) (calls w'))
     \/
     (exists f r,
        o = Some f /\
        match o with
        | Some f => call env (mk f)
        | None => ret tt
        end w = Panic r w' /\
        log w' = log w ++ [mk f] /\
        calls w' = S (calls w) /\
        raised (effects env (calls w)) = Some r)).
Proof.
  intros R. destruct o as [f|].
  - exists (world_of (call env (mk f) w)).
    pose proof (call_world env (mk f) w) as W. cbv zeta in W.
    destruct W as (L & _ & _ & _ & _ & _ & N).
    split; [apply call_advances; exact R|]. split; [lia|].
    pose proof (call_result env (mk f) w R) as Hres.
    destruct (raised (effects env (calls w))) as [r|] eqn:Er.
    + right. exists f, r. auto.
    + left. split; [exact Hres|]. split; [exact L|]. split; [auto|].
      rewrite N. apply quiet_within_one. exact Er.
  - exists w. split; [apply advances_refl; exact R|]. split; [lia|].
    left. split; [reflexivity|]. split; [symmetry; apply app_nil_r|].
    split; [congruence|]. apply quiet_within_empty.
Qed.

(** The call of update, if it is registered, with the reading of the clock
    made for its argument. *)
Lemma update_phase_cases env loc w :
  run_state (loop w) ->
  let tu := clock w + drift env (reads w) in
  exists w',
    advances env w w' /\ (calls w' <= S (calls w))%nat /\
    (monotone env -> update (loop w) <> None -> tu <= clock w') /\
    ((match update (loop w) with
      | Some f =>
          deltaTime <- time_Since env (lastFrame loc) ;;
          call env (ev_update f deltaTime)
      | None => ret tt
      end w = Ret tt w' /\
      log w' = log w ++ opt_list (update (loop w))
                 (fun f => [ev_now tu; ev_update f (Time_Sub tu (lastFrame loc))]) /\
      (update (loop w) <> None -> calls w' = S (calls w)) /\
      quiet_within env (calls w) (calls w'))
     \/
     (exists f r,
        update (loop w) = Some f /\
        match update (loop w) with
        | Some f =>
            deltaTime <- time_Since env (lastFrame loc) ;;
            call env (ev_update f deltaTime)
        | None => ret tt
        end w = Panic r w' /\
        log w' = log w ++ [ev_now tu; ev_update f (Time_Sub tu (lastFrame loc))] /\
        calls w' = S (calls w) /\
        raised (effects env (calls w)) = Some r)).
Proof.
  intros R tu. destruct (update (loop w)) as [f|].
  - set (w1 := mkWorld (loop w) tu (S (reads w)) (calls w) (log w ++ [ev_now tu])).
    set (e := ev_update f (Time_Sub tu (lastFrame loc))).
    assert (E : (deltaTime <- time_Since env (lastFrame loc) ;;
                 call env (ev_update f deltaTime)) w = call env e w1)
      by reflexivity.
    rewrite E.
    assert (R1 : run_state (loop w1)) by exact R.
    assert (A1 : advances env w w1).
    { unfold advances. cbn [w1 loop calls clock].
      split; [apply same_setup_refl|]. split; [reflexivity|]. split; [exact R|].
      split; [lia|]. split.
      - split; [auto|]. intros [H|(k & Hk & _)]; [exact H | lia].
      - intros [Hd _]. specialize (Hd (reads w)). unfold tu. lia. }
    exists (world_of (call env e w1)).
    pose proof (call_world env e w1) as W. cbv zeta in W.
    destruct W as (L & _ & _ & _ & K & _ & N).
    cbn [w1 log calls clock] in L, N, K.
    split; [exact (advances_trans _ _ _ _ A1 (call_advances env e w1 R1))|].
    split; [lia|]. split.
    { intros [_ Hm] _. specialize (Hm (calls w)). lia. }
    pose proof (call_result env e w1 R1) as Hres. cbn [w1 calls] in Hres.
    fold w1 in Hres.
    destruct (raised (effects env (calls w))) as [r|] eqn:Er.
    + right. exists f, r. split; [reflexivity|]. split; [exact Hres|].
      split; [rewrite L, <- app_assoc; reflexivity|]. auto.
    + left. split; [exact Hres|].
      split; [rewrite L, <- app_assoc; reflexivity|].
      split; [auto|]. rewrite N. apply quiet_within_one. exact Er.
  - exists w. split; [apply advances_refl; exact R|]. split; [lia|].
    split; [congruence|].
    left. split; [reflexivity|]. split; [symmetry; apply app_nil_r|].
    split; [congruence|]. apply quiet_within_empty.
Qed.

Lemma bind_get {A : Type} (k : Loop -> M A) w :
  bind get_loop k w = k (loop w) w.
Proof. reflexivity. Qed.

Lemma bind_Ret_eq {A B : Type} (m : M A) (k : A -> M B) w a w1 :
  m w = Ret a w1 -> bind m k w = k a w1.
Proof. unfold bind. intros ->. reflexivity. Qed.

Lemma bind_Panic_eq {A B : Type} (m : M A) (k : A -> M B) w r w1 :
  m w = Panic r w1 -> bind m k w = Panic r w1.
Proof. unfold bind. intros ->. reflexivity. Qed.

(** A reading of the clock. *)
Lemma now_advances env w :
  run_state (loop w) ->
  advances env w
    (mkWorld (loop w) (clock w + drift env (reads w)) (S (reads w)) (calls w)
             (log w ++ [ev_now (clock w + drift env (reads w))])).
Proof.
  intros R. unfold advances. cbn [loop calls clock].
  split; [apply same_setup_refl|]. split; [reflexivity|]. split; [exact R|].
  split; [lia|]. split.
  - split; [auto|]. intros [H|(k & Hk & _)]; [exact H | lia].
  - intros [Hd _]. specialize (Hd (reads w)). lia.
Qed.

(** The three phases: all three calls return, or one of them panics and
    nothing is run after it. *)
Lemma phases_then_cases {A : Type} env loc (k : M A) w :
  run_state (loop w) ->
  exists tu w3,
    advances env w w3 /\ (calls w3 <= calls w + 3)%nat /\
    (monotone env -> clock w <= tu <= clock w3) /\
    ((phases_then env loc k w = k w3 /\
      log w3 = log w ++ phase_events (loop w) loc tu /\
      (update (loop w) <> None -> (calls w < calls w3)%nat) /\
      quiet_within env (calls w) (calls w3))
     \/
     (exists r pre e more,
        phases_then env loc k w = Panic r w3 /\
        phase_events (loop w) loc tu = pre ++ e :: more /\
        log w3 = log w ++ pre ++ [e] /\
        is_phase e = true /\
        (calls w < calls w3)%nat /\
        raised (effects env (pred (calls w3))) = Some r /\
        quiet_within env (calls w) (pred (calls w3)))).
Proof.
  intros R. unfold phases_then. rewrite bind_get.
  destruct (phase_cases env (input (loop w)) ev_input w R)
    as (w1 & A1 & N1 & [(E1 & L1 & C1 & Q1)|(f & r & Ef & E1 & L1 & C1 & V1)]).
  2:{ exists (clock w), w1. split; [exact A1|]. split; [lia|]. split.
      { intros Hm. destruct A1 as (_ & _ & _ & _ & _ & K).
        specialize (K Hm). lia. }
      right. exists r, [], (ev_input f),
        (opt_list (update (loop w))
           (fun f => [ev_now (clock w);
                      ev_update f (Time_Sub (clock w) (lastFrame loc))])
         ++ opt_list (render (loop w)) (fun f => [ev_render f])).
      split; [rewrite (bind_Panic_eq _ _ _ _ _ E1); reflexivity|].
      split; [unfold phase_events; rewrite Ef; reflexivity|].
      split; [exact L1|]. split; [reflexivity|]. split; [lia|].
      rewrite C1. cbn [pred]. split; [exact V1 | apply quiet_within_empty]. }
  rewrite (bind_Ret_eq _ _ _ _ _ E1), bind_get.
  pose proof (advances_calls _ _ _ A1) as M1.
  assert (R1 : run_state (loop w1)) by apply A1.
  assert (Eu : update (loop w1) = update (loop w)).
  { destruct A1 as (S1 & _). unfold same_setup in S1. tauto. }
  assert (Er : render (loop w1) = render (loop w)).
  { destruct A1 as (S1 & _). unfold same_setup in S1. tauto. }
  pose proof (update_phase_cases env loc w1 R1) as U. cbv zeta in U.
  set (tu1 := clock w1 + drift env (reads w1)) in U.
  set (tu := match update (loop w) with Some _ => tu1 | None => clock w1 end).
  assert (Etu : opt_list (update (loop w1))
                  (fun f => [ev_now tu1; ev_update f (Time_Sub tu1 (lastFrame loc))])
                = opt_list (update (loop w))
                    (fun f => [ev_now tu; ev_update f (Time_Sub tu (lastFrame loc))])).
  { rewrite Eu. unfold tu. destruct (update (loop w)); reflexivity. }
  destruct U as (w2 & A2 & N2 & K2 &
                 [(E2 & L2 & C2 & Q2)|(f & r & Ef & E2 & L2 & C2 & V2)]).
  2:{ assert (Ht : tu = tu1) by (unfold tu; rewrite <- Eu, Ef; reflexivity).
      exists tu, w2.
      split; [exact (advances_trans _ _ _ _ A1 A2)|]. split; [lia|]. split.
      { intros Hm. destruct A1 as (_ & _ & _ & _ & _ & K1).
        specialize (K1 Hm). rewrite Ht. split.
        - destruct Hm as [Hd _]. specialize (Hd (reads w1)). unfold tu1. lia.
        - apply K2; [exact Hm | congruence]. }
      right. exists r,
        (opt_list (input (loop w)) (fun f => [ev_input f]) ++ [ev_now tu]),
        (ev_update f (Time_Sub tu (lastFrame loc))),
        (opt_list (render (loop w)) (fun f => [ev_render f])).
      split; [rewrite (bind_Panic_eq _ _ _ _ _ E2); reflexivity|].
      split.
      { unfold phase_events. rewrite <- Eu, Ef. cbn [opt_list].
        rewrite <- app_assoc. reflexivity. }
      split; [rewrite L2, L1, Ht, <- !app_assoc; reflexivity|].
      split; [reflexivity|]. split; [lia|].
      rewrite C2. cbn [pred]. split; [exact V2 | exact Q1]. }
  rewrite Etu in L2.
  rewrite (bind_Ret_eq _ _ _ _ _ E2), bind_get.
  pose proof (advances_calls _ _ _ A2) as M2.
  assert (R2 : run_state (loop w2)) by apply A2.
  assert (Er2 : render (loop w2) = render (loop w)).
  { destruct A2 as (S2 & _). unfold same_setup in S2. intuition congruence. }
  assert (A12 : advances env w w2) by exact (advances_trans _ _ _ _ A1 A2).
  assert (Kt : monotone env -> clock w <= tu <= clock w2).
  { intros Hm. destruct A1 as (_ & _ & _ & _ & _ & K1).
    destruct A2 as (_ & _ & _ & _ & _ & K2').
    specialize (K1 Hm). specialize (K2' Hm). unfold tu.
    destruct (update (loop w)) eqn:Eq; [|lia]. split.
    - destruct Hm as [Hd _]. specialize (Hd (reads w1)). unfold tu1. lia.
    - apply K2; [exact Hm | congruence]. }
  destruct (phase_cases env (render (loop w2)) ev_render w2 R2)
    as (w3 & A3 & N3 & [(E3 & L3 & C3 & Q3)|(f & r & Ef & E3 & L3 & C3 & V3)]).
  2:{ exists tu, w3.
      split; [exact (advances_trans _ _ _ _ A12 A3)|]. split; [lia|]. split.
      { intros Hm. destruct A3 as (_ & _ & _ & _ & _ & K3).
        specialize (K3 Hm). specialize (Kt Hm). lia. }
      right. exists r,
        (opt_list (input (loop w)) (fun f => [ev_input f])
         ++ opt_list (update (loop w))
              (fun f => [ev_now tu; ev_update f (Time_Sub tu (lastFrame loc))])),
        (ev_render f), [].
      split; [rewrite (bind_Panic_eq _ _ _ _ _ E3); reflexivity|].
      split.
      { unfold phase_events. rewrite <- Er2, Ef. cbn [opt_list].
        rewrite <- app_assoc. reflexivity. }
      split; [rewrite L3, L2, L1, <- !app_assoc; reflexivity|].
      split; [reflexivity|]. split; [lia|].
      rewrite C3. cbn [pred].
      split; [exact V3 | exact (quiet_within_app _ _ _ _ Q1 Q2)]. }
  exists tu, w3.
  split; [exact (advances_trans _ _ _ _ A12 A3)|]. split; [lia|]. split.
  { intros Hm. destruct A3 as (_ & _ & _ & _ & _ & K3).
    specialize (K3 Hm). specialize (Kt Hm). lia. }
  left. split; [rewrite (bind_Ret_eq _ _ _ _ _ E3); reflexivity|].
  split.
  { unfold phase_events. rewrite L3, L2, L1, Er2, <- !app_assoc. reflexivity. }
  split.
  { intros Hu. rewrite <- Eu in Hu. specialize (C2 Hu).
    pose proof (advances_calls _ _ _ A3) as M3. lia. }
  exact (quiet_within_app _ _ _ _ (quiet_within_app _ _ _ _ Q1 Q2) Q3).
Qed.

(** One iteration: the calls return and the bookkeeping follows, or one of
    them panics. *)
Lemma iteration_cases env loc w :
  run_state (loop w) ->
  let ts := clock w + drift env (reads w) in
  exists tu w3,
    advances env w w3 /\ (calls w3 <= calls w + 3)%nat /\
    (monotone env -> clock w <= ts /\ ts <= tu /\ tu <= clock w3) /\
    ((iteration env loc w = finish_frame env loc ts w3 /\
      log w3 = log w ++ phase_calls (loop w) loc ts tu /\
      (update (loop w) <> None -> (calls w < calls w3)%nat) /\
      quiet_within env (calls w) (calls w3))
     \/
     (exists r pre e more,
        iteration env loc w = Panic r w3 /\
        phase_calls (loop w) loc ts tu = pre ++ e :: more /\
        log w3 = log w ++ pre ++ [e] /\
        is_phase e = true /\
        (calls w < calls w3)%nat /\
        raised (effects env (pred (calls w3))) = Some r /\
        quiet_within env (calls w) (pred (calls w3)))).
Proof.
  intros R ts.
  set (w0 := mkWorld (loop w) ts (S (reads w)) (calls w) (log w ++ [ev_now ts])).
  assert (E0 : iteration env loc w
               = phases_then env loc (finish_frame env loc ts) w0)
    by reflexivity.
  assert (A0 : advances env w w0) by exact (now_advances env w R).
  destruct (phases_then_cases env loc (finish_frame env loc ts) w0 R)
    as (tu & w3 & A & N & K &
        [(E & L & C & Q)|(r & pre & e & more & E & Pc & L & P & C & V & Q)]);
    cbn [w0 loop calls clock log] in *; exists tu, w3;
    (split; [exact (advances_trans _ _ _ _ A0 A)|]); (split; [exact N|]);
    (split; [intros Hm; specialize (K Hm);
             destruct Hm as [Hd _]; specialize (Hd (reads w)); unfold ts; lia|]).
  - left. split; [rewrite E0; exact E|].
    split; [rewrite L, phase_calls_events, <- app_assoc; reflexivity|].
    split; [exact C | exact Q].
  - right. exists r, (ev_now ts :: pre), e, more.
    split; [rewrite E0; exact E|].
    split; [rewrite phase_calls_events, Pc; reflexivity|].
    split; [rewrite L, <- app_assoc; reflexivity|].
    split; [exact P|]. split; [exact C|]. split; [exact V | exact Q].
Qed.

(** The bookkeeping of an iteration, written out. *)
Lemma finish_frame_eq env loc ts w :
  let td := clock w + drift env (reads w) in
  let tm := td + drift env (S (reads w)) in
  let rolled := Second <=? Time_Sub tm (lastSecond loc) in
  let fc := wrap64 (frameCounter loc + 1) in
  let tn := tm + drift env (S (S (reads w))) in
  let n3 := if rolled then S (S (S (reads w))) else S (S (reads w)) in
  let te := (if rolled then tn else tm) + drift env n3 in
  let sleepTime :=
    wrap64 (msPerFrame (loop w) - Duration_Milliseconds (Time_Sub te ts)) in
  let d := wrap64 (sleepTime * Millisecond) in
  finish_frame env loc ts w =
  Ret (mkFrame (if rolled then 0 else fc) td
               (if rolled then tn else lastSecond loc))
      (mkWorld (if rolled then set_currentFps fc (loop w) else loop w)
               (if 0 <? sleepTime then te + Z.max d 0 + drift env (S n3) else te)
               (if 0 <? sleepTime then S (S n3) else S n3)
               (calls w)
               (log w ++ ev_now td :: ev_now tm
                  :: (if rolled then [ev_now tn] else [])
                  ++ ev_now te
                  :: (if 0 <? sleepTime then [ev_sleep d] else []))).
Proof.
  cbv zeta. unfold finish_frame, time_Since, time_Now, bind, ret. cbv zeta.
  cbn [clock reads log loop calls].
  rewrite Seconds_ge_1.
  destruct (Second <=? _) eqn:Er.
  - unfold modify_loop, get_loop, with_loop, time_Sleep. 
    cbn [clock reads log loop calls fst snd set_currentFps msPerFrame].
    destruct (0 <? _) eqn:Es; cbn [clock reads log loop calls fst snd];
      rewrite <- ?app_assoc; reflexivity.
  - unfold modify_loop, get_loop, with_loop, time_Sleep. 
    cbn [clock reads log loop calls fst snd set_currentFps msPerFrame].
    destruct (0 <? _) eqn:Es; cbn [clock reads log loop calls fst snd];
      rewrite <- ?app_assoc; reflexivity.
Qed.

Lemma finish_frame_world env loc ts w :
  exists loc' w' tm tn te,
    let rolled := Second <=? Time_Sub tm (lastSecond loc) in
    let sleepTime :=
      wrap64 (msPerFrame (loop w) - Duration_Milliseconds (Time_Sub te ts)) in
    finish_frame env loc ts w = Ret loc' w' /\
    calls w' = calls w /\
    same_setup (loop w) (loop w') /\
    stopCh (loop w') = stopCh (loop w) /\
    isRunning (loop w') = isRunning (loop w) /\
    frameCounter loc' = (if rolled then 0 else wrap64 (frameCounter loc + 1)) /\
    lastSecond loc' = (if rolled then tn else lastSecond loc) /\
    currentFps (loop w') =
      (if rolled then wrap64 (frameCounter loc + 1) else currentFps (loop w)) /\
    log w' =
      log w ++ ev_now (lastFrame loc') :: ev_now tm
        :: (if rolled then [ev_now tn] else [])
        ++ ev_now te
        :: (if 0 <? sleepTime
            then [ev_sleep (wrap64 (sleepTime * Millisecond))] else []) /\
    (monotone env ->
     clock w <= lastFrame loc' /\ lastFrame loc' <= tm /\ tm <= tn /\
     tm <= te /\ te <= clock w' /\
     (rolled = true -> tn <= te) /\
     (ts <= clock w -> ts <= te) /\
     (0 <= msPerFrame (loop w) <= 1000 -> ts <= clock w ->
      ts + msPerFrame (loop w) * Millisecond <= clock w')).
Proof.
  pose proof (finish_frame_eq env loc ts w) as E. cbv zeta in E.
  set (td := clock w + drift env (reads w)) in *.
  set (tm := td + drift env (S (reads w))) in *.
  set (tn := tm + drift env (S (S (reads w)))) in *.
  set (rolled := Second <=? Time_Sub tm (lastSecond loc)) in *.
  set (n3 := if rolled then S (S (S (reads w))) else S (S (reads w))) in *.
  set (te := (if rolled then tn else tm) + drift env n3) in *.
  set (sleepTime :=
         wrap64 (msPerFrame (loop w) - Duration_Milliseconds (Time_Sub te ts))) in *.
  set (d := wrap64 (sleepTime * Millisecond)) in *.
  eexists. eexists. exists tm, tn, te. cbv zeta.
  split; [exact E|]. cbn [calls loop frameCounter lastSecond lastFrame log clock].
  fold rolled. fold sleepTime.
  split; [reflexivity|].
  split; [destruct rolled; unfold same_setup; cbn; tauto|].
  split; [destruct rolled; reflexivity|].
  split; [destruct rolled; reflexivity|].
  split; [reflexivity|]. split; [reflexivity|].
  split; [destruct rolled; reflexivity|].
  split; [reflexivity|].
  intros [Hd Hm].
  pose proof (Hd (reads w)) as D0. pose proof (Hd (S (reads w))) as D1.
  pose proof (Hd (S (S (reads w)))) as D2. pose proof (Hd n3) as D3.
  pose proof (Hd (S n3)) as D4.
  assert (Hte : tm <= te) by (unfold te; destruct rolled; lia).
  split; [unfold td; lia|]. split; [unfold tm; lia|]. split; [unfold tn; lia|].
  split; [exact Hte|].
  split; [destruct (0 <? sleepTime); lia|].
  split; [intros Hr; unfold te; rewrite Hr; lia|].
  split; [unfold tm, td in Hte; lia|].
  intros Hb Hts.
  assert (Hts' : ts <= te) by (unfold tm, td in Hte; lia).
  destruct (sleepTime_exact (msPerFrame (loop w)) ts te Hb Hts') as (Ew & Hq & Ew').
  assert (HD : 0 <= Time_Sub te ts <= te - ts).
  { unfold Time_Sub, minDuration, maxDuration.
    change (2 ^ 63) with 9223372036854775808. lia. }
  assert (Hqd : Duration_Milliseconds (Time_Sub te ts) * Millisecond
                <= Time_Sub te ts).
  { unfold Duration_Milliseconds, Millisecond.
    rewrite Z.quot_div_nonneg by lia.
    pose proof (Z.mul_div_le (Time_Sub te ts) 1000000). lia. }
  destruct (Z.ltb_spec 0 sleepTime) as [Hs|Hs].
  - unfold sleepTime in Hs. rewrite Ew in Hs. specialize (Ew' Hs).
    unfold d, sleepTime. rewrite Ew, Ew'. unfold Millisecond in *. lia.
  - unfold sleepTime in Hs. rewrite Ew in Hs. unfold Millisecond in *. lia.
Qed.

(** One iteration in a run: it runs to its end, or a call panics. *)
Lemma iteration_outcome env loc w :
  run_state (loop w) ->
  (exists loc' w' ts tu tm tn te,
     let l := loop w in
     let rolled := Second <=? Time_Sub tm (lastSecond loc) in
     let sleepTime :=
       wrap64 (msPerFrame l - Duration_Milliseconds (Time_Sub te ts)) in
     iteration env loc w = Ret loc' w' /\
     run_state (loop w') /\ same_setup l (loop w') /\
     (calls w <= calls w' <= calls w + 3)%nat /\
     (update l <> None -> (calls w < calls w')%nat) /\
     quiet_within env (calls w) (calls w') /\
     (stopCh (loop w') = chan_closed <->
      stopCh l = chan_closed \/ stops_within env (calls w) (calls w')) /\
     log w' =
       log w ++ phase_calls l loc ts tu
         ++ ev_now (lastFrame loc') :: ev_now tm
         :: (if rolled then [ev_now tn] else [])
         ++ ev_now te
         :: (if 0 <? sleepTime
             then [ev_sleep (wrap64 (sleepTime * Millisecond))] else []) /\
     frameCounter loc' = (if rolled then 0 else wrap64 (frameCounter loc + 1)) /\
     lastSecond loc' = (if rolled then tn else lastSecond loc) /\
     currentFps (loop w') =
       (if rolled then wrap64 (frameCounter loc + 1) else currentFps l) /\
     (monotone env ->
      clock w <= ts /\ ts <= tu /\ tu <= lastFrame loc' /\
      lastFrame loc' <= tm /\ tm <= tn /\ tm <= te /\ te <= clock w' /\
      (rolled = true -> tn <= te) /\
      (0 <= msPerFrame l <= 1000 ->
       ts + msPerFrame l * Millisecond <= clock w')))
  \/
  (exists r w' ts tu pre e more,
     iteration env loc w = Panic r w' /\
     run_state (loop w') /\ same_setup (loop w) (loop w') /\
     currentFps (loop w') = currentFps (loop w) /\
     (calls w < calls w' <= calls w + 3)%nat /\
     raised (effects env (pred (calls w'))) = Some r /\
     quiet_within env (calls w) (pred (calls w')) /\
     phase_calls (loop w) loc ts tu = pre ++ e :: more /\
     log w' = log w ++ pre ++ [e] /\
     is_phase e = true /\
     (monotone env -> clock w <= ts /\ ts <= tu /\ tu <= clock w')).
Proof.
  intros R. pose proof (iteration_cases env loc w R) as H. cbv zeta in H.
  set (ts := clock w + drift env (reads w)) in *.
  destruct H as (tu & w3 & A & N & K &
                 [(E & L & C & Q)|(r & pre & e & more & E & Pc & L & P & C & V & Q)]).
  - left.
    destruct (finish_frame_world env loc ts w3)
      as (loc' & w' & tm & tn & te & F). cbv zeta in F.
    destruct F as (EF & Fc & Fs & Fch & Fr & F1 & F2 & F3 & FL & FK).
    destruct A as (As & Ac & Ar & An & Ah & Ak).
    assert (Ems : msPerFrame (loop w3) = msPerFrame (loop w))
      by (unfold same_setup in As; tauto).
    exists loc', w', ts, tu, tm, tn, te. cbv zeta.
    split; [rewrite E; exact EF|].
    split.
    { unfold run_state in *. rewrite Fch, Fr. exact Ar. }
    split; [eauto using same_setup_trans|].
    split; [lia|]. split; [rewrite Fc; exact C|]. split; [rewrite Fc; exact Q|].
    split; [rewrite Fch, Fc; exact Ah|].
    split; [rewrite FL, L, Ems, <- app_assoc; reflexivity|].
    split; [exact F1|]. split; [exact F2|].
    split; [rewrite F3, Ac; reflexivity|].
    intros Hm. specialize (K Hm). specialize (FK Hm).
    destruct K as (K1 & K2 & K3).
    destruct FK as (G1 & G2 & G3 & G4 & G5 & G6 & G7 & G8).
    do 7 (split; [lia|]). split; [exact G6|].
    intros Hb. rewrite <- Ems. apply G8; [rewrite Ems; exact Hb | lia].
  - right.
    destruct A as (As & Ac & Ar & An & Ah & Ak).
    exists r, w3, ts, tu, pre, e, more.
    split; [exact E|]. split; [exact Ar|]. split; [exact As|].
    split; [exact Ac|]. split; [lia|]. split; [exact V|]. split; [exact Q|].
    split; [exact Pc|]. split; [exact L|]. split; [exact P|]. exact K.
Qed.

(** An invariant of the loop holds of the world it is left in. *)
Lemma run_loop_inv env (I : frame -> World -> Prop) (Post : World -> Prop) :
  (forall loc w, I loc w -> Post w) ->
  (forall loc w loc' w',
     I loc w -> stop_received (loop w) = false ->
     iteration env loc w = Ret loc' w' -> I loc' w') ->
  (forall loc w r w',
     I loc w -> stop_received (loop w) = false ->
     iteration env loc w = Panic r w' -> Post w') ->
  forall fuel loc w, I loc w -> Post (world_of (run_loop fuel env loc w)).
Proof.
  intros Hpost Hret Hpanic.
  induction fuel as [|fuel IH]; intros loc w Hi; cbn [run_loop].
  - exact (Hpost _ _ Hi).
  - destruct (stop_received (loop w)) eqn:Es; [exact (Hpost _ _ Hi)|].
    destruct (iteration env loc w) as [loc1 w1|r1 w1|w1] eqn:E.
    + apply IH. exact (Hret _ _ _ _ Hi Es E).
    + exact (Hpanic _ _ _ _ Hi Es E).
    + exfalso. exact (iteration_not_Spin _ _ _ _ E).
Qed.

Lemma entry_world_run_state env w : run_state (loop (entry_world env w)).
Proof. left. split; reflexivity. Qed.

Lemma entry_world_setup env w : same_setup (loop w) (loop (entry_world env w)).
Proof. unfold same_setup. cbn. tauto. Qed.

(** [Start] on a loop that has an update function and is not running, in
    terms of the loop it enters. *)
Lemma Start_body_entry fuel env w u :
  update (loop w) = Some u -> isRunning (loop w) = false ->
  Start_body fuel env w =
  match run_loop fuel env (entry_frame env w) (entry_world env w) with
  | Ret _ w' => Ret None w'
  | Panic r w' => Panic r w'
  | Spin w' => Spin w'
  end.
Proof.
  intros Hu Hr. rewrite Start_body_eq, Hu, Hr. reflexivity.
Qed.

Lemma Start_entry fuel env w u :
  update (loop w) = Some u -> isRunning (loop w) = false ->
  Start fuel env w =
  match run_loop fuel env (entry_frame env w) (entry_world env w) with
  | Ret _ w' => Ret None w'
  | Panic r w' =>
      match recoverFunc (loop w) with
      | Some h =>
          match call env (ev_recover h r) w' with
          | Ret _ w'' => Ret None w''
          | Panic r' w'' => Panic r' w''
          | Spin w'' => Spin w''
          end
      | None => Panic r w'
      end
  | Spin w' => Spin w'
  end.
Proof.
  intros Hu Hr. rewrite Start_eq, (Start_body_entry fuel env w u Hu Hr).
  destruct (run_loop_world fuel env (entry_frame env w) (entry_world env w))
    as (S & _).
  destruct (run_loop fuel env (entry_frame env w) (entry_world env w))
    as [a w1|r w1|w1]; cbn [world_of] in S;
    destruct (recoverFunc (loop w)) as [h|] eqn:Eh; try reflexivity.
  apply recovered_eq.
  pose proof (entry_world_setup env w) as S0.
  unfold same_setup in S, S0. intuition congruence.
Qed.

(** ** How a run ends *)

Lemma sample_loop_budget_ok : budget_ok (loop (boot sample_loop)).
Proof. unfold budget_ok, max_int. vm_compute. intuition discriminate. Qed.

Lemma stop_received_open l : stopCh l = chan_open -> stop_received l = false.
Proof. unfold stop_received. intros ->. reflexivity. Qed.

Lemma stop_received_closed l : stopCh l = chan_closed -> stop_received l = true.
Proof. unfold stop_received. intros ->. reflexivity. Qed.

Lemma run_state_open l :
  run_state l -> stopCh l <> chan_closed ->
  stopCh l = chan_open /\ isRunning l = true.
Proof. intros [[H1 H2]|[H1 H2]] H; [auto | contradiction]. Qed.

Lemma run_state_closed l :
  run_state l -> stopCh l = chan_closed -> isRunning l = false.
Proof. intros [[H1 H2]|[H1 H2]] H; [congruence | exact H1]. Qed.

Lemma same_setup_update l l' :
  same_setup l l' -> update l <> None -> update l' <> None.
Proof. unfold same_setup. intros S H. intuition congruence. Qed.

(** Left alone, the loop goes on. *)
Lemma run_loop_spins env :
  (forall k, stops (effects env k) = false) ->
  (forall k, raised (effects env k) = None) ->
  forall fuel loc v,
    run_state (loop v) -> stopCh (loop v) = chan_open ->
    exists v', run_loop fuel env loc v = Spin v' /\ isRunning (loop v') = true.
Proof.
  intros Hs Hq. induction fuel as [|fuel IH]; intros loc v R Ho; cbn [run_loop].
  - exists v. split; [reflexivity|].
    destruct R as [[H _]|[_ H]]; [exact H | congruence].
  - rewrite (stop_received_open _ Ho).
    destruct (iteration_outcome env loc v R) as [H|H].
    + destruct H as (loc' & w' & ts & tu & tm & tn & te & H). cbv zeta in H.
      destruct H as (E & R' & _ & _ & _ & _ & Hc & _).
      rewrite E. apply IH; [exact R'|].
      apply run_state_open; [exact R'|].
      intros Hcl. apply Hc in Hcl. destruct Hcl as [Hcl|(k & _ & Hk)].
      * congruence.
      * rewrite Hs in Hk. discriminate Hk.
    + destruct H as (r & w' & ts & tu & pre & e & more & _ & _ & _ & _ & _ & V & _).
      rewrite Hq in V. discriminate V.
Qed.

(** The call numbered [n] is the first to stop the loop: the loop finishes
    the iteration that makes this call and returns. *)
Lemma run_loop_stops env n :
  stops (effects env n) = true ->
  forall fuel loc v,
    run_state (loop v) -> update (loop v) <> None ->
    quiet_within env (calls v) (n + 3) ->
    (stopCh (loop v) = chan_open /\ (calls v <= n)%nat /\
     (forall k, (calls v <= k < n)%nat -> stops (effects env k) = false) /\
     (n + 2 - calls v <= fuel)%nat)
    \/ (stopCh (loop v) = chan_closed /\ (n < calls v <= n + 3)%nat /\
        (1 <= fuel)%nat) ->
    exists v',
      run_loop fuel env loc v = Ret tt v' /\
      stopCh (loop v') = chan_closed /\ isRunning (loop v') = false /\
      (n < calls v' <= n + 3)%nat.
Proof.
  intros Hn. induction fuel as [|fuel IH]; intros loc v R Hu Hq Hcase.
  { destruct Hcase as [(_ & ? & _ & ?)|(_ & _ & ?)]; lia. }
  cbn [run_loop].
  destruct Hcase as [(Ho & Hle & Hfirst & Hfuel)|(Hc & Hcalls & _)].
  2:{ rewrite (stop_received_closed _ Hc). exists v.
      split; [reflexivity|]. split; [exact Hc|].
      split; [exact (run_state_closed _ R Hc) | exact Hcalls]. }
  rewrite (stop_received_open _ Ho).
  destruct (iteration_outcome env loc v R) as [H|H].
  - destruct H as (loc' & w' & ts & tu & tm & tn & te & H). cbv zeta in H.
    destruct H as (E & R' & S' & N' & C' & _ & Hc & _).
    rewrite E. specialize (C' Hu).
    apply IH; [exact R' | exact (same_setup_update _ _ S' Hu) | |].
    { intros k Hk. apply Hq. lia. }
    destruct (Nat.lt_ge_cases n (calls w')) as [Hlt|Hge].
    + right. split; [|lia]. apply Hc. right. exists n. split; [lia | exact Hn].
    + left. split.
      { apply run_state_open; [exact R'|]. intros Hcl. apply Hc in Hcl.
        destruct Hcl as [Hcl|(k & Hk & Ek)]; [congruence|].
        rewrite Hfirst in Ek by lia. discriminate Ek. }
      split; [exact Hge|]. split; [|lia].
      intros k Hk. apply Hfirst. lia.
  - destruct H as (r & w' & ts & tu & pre & e & more & _ & _ & _ & _ & N' & V & _).
    rewrite Hq in V by lia. discriminate V.
Qed.

(** The call numbered [n] is the first to panic: the panic leaves the
    loop, and no call is made after it. *)
Lemma run_loop_faults env n r :
  raised (effects env n) = Some r ->
  forall fuel loc v,
    run_state (loop v) -> stopCh (loop v) = chan_open ->
    update (loop v) <> None ->
    (calls v <= n)%nat ->
    quiet_within env (calls v) n ->
    (forall k, (calls v <= k < n)%nat -> stops (effects env k) = false) ->
    (n + 1 - calls v <= fuel)%nat ->
    exists v',
      run_loop fuel env loc v = Panic r v' /\ calls v' = S n /\
      run_state (loop v') /\ same_setup (loop v) (loop v') /\
      exists pre e, log v' = log v ++ pre ++ [e] /\ is_phase e = true.
Proof.
  intros Hn. induction fuel as [|fuel IH];
    intros loc v R Ho Hu Hle Hq Hfirst Hfuel; [lia|].
  cbn [run_loop]. rewrite (stop_received_open _ Ho).
  destruct (iteration_outcome env loc v R) as [H|H].
  - destruct H as (loc' & w' & ts & tu & tm & tn & te & H). cbv zeta in H.
    destruct H as (E & R' & S' & N' & C' & Q' & Hc & L' & _).
    rewrite E. specialize (C' Hu).
    assert (Hge : (calls w' <= n)%nat).
    { destruct (Nat.lt_ge_cases n (calls w')) as [Hlt|Hge]; [|exact Hge].
      rewrite Q' in Hn by lia. discriminate Hn. }
    destruct (IH loc' w') as (v' & Ev & Cv & Rv & Sv & pre & e & Lv & Pe);
      try assumption.
    + apply run_state_open; [exact R'|]. intros Hcl. apply Hc in Hcl.
      destruct Hcl as [Hcl|(k & Hk & Ek)]; [congruence|].
      rewrite Hfirst in Ek by lia. discriminate Ek.
    + exact (same_setup_update _ _ S' Hu).
    + intros k Hk. apply Hq. lia.
    + intros k Hk. apply Hfirst. lia.
    + lia.
    + exists v'. split; [exact Ev|]. split; [exact Cv|]. split; [exact Rv|].
      split; [eauto using same_setup_trans|].
      rewrite Lv, L', snoc_assoc. eexists. exists e.
      split; [reflexivity | exact Pe].
  - destruct H as (r' & w' & ts & tu & pre & e & more & H).
    destruct H as (E & R' & S' & _ & N' & V & Q' & _ & L' & Pe & _).
    rewrite E.
    assert (Hp : pred (calls w') = n).
    { destruct (Nat.lt_trichotomy (pred (calls w')) n) as [Hlt|[Heq|Hgt]].
      - rewrite Hq in V by lia. discriminate V.
      - exact Heq.
      - rewrite Q' in Hn by lia. discriminate Hn. }
    rewrite Hp in V. assert (r' = r) by congruence. subst r'.
    exists w'. split; [reflexivity|]. split; [lia|]. split; [exact R'|].
    split; [exact S'|]. exists pre, e. auto.
Qed.

(** ** Properties of a whole run *)

(** X3: [Start] blocks for as long as the loop runs.  If no call ever stops
    the loop or panics, the loop is still going round, flagged as running,
    however many iterations it is given. *)
Theorem Start_runs_until_stopped fuel env w :
  update (loop w) <> None ->
  isRunning (loop w) = false ->
  (forall k, stops (effects env k) = false) ->
  (forall k, raised (effects env k) = None) ->
  exists w', Start fuel env w = Spin w' /\ IsRunning (loop w') = true.
Proof.
  intros Hu Hr Hs Hq.
  destruct (update (loop w)) as [u|] eqn:Eu; [|congruence].
  rewrite (Start_entry fuel env w u Eu Hr).
  destruct (run_loop_spins env Hs Hq fuel (entry_frame env w) (entry_world env w)
              (entry_world_run_state env w) eq_refl) as (v' & E & Hrun).
  rewrite E. exists v'. auto.
Qed.

Lemma Start_runs_until_stopped_witness :
  exists w',
    Start 3 steady_env (boot sample_loop) = Spin w' /\
    IsRunning (loop w') = true.
Proof.
  apply (Start_runs_until_stopped 3 steady_env (boot sample_loop)).
  - intros H. vm_compute in H. discriminate H.
  - reflexivity.
  - intros k. reflexivity.
  - intros k. reflexivity.
Defined.

(** X1: a [Stop] made during a call of a registered function ends the run
    after the iteration in progress.  If the call numbered [n] is the first
    during which the loop is stopped, and none of the calls up to the second
    after it panics, then [Start] returns nil once the loop has been allowed
    to go round often enough; the loop is then not running, its stop channel
    is closed, and at most two calls were made after the one that stopped
    it: the remaining phases of its iteration. *)
Theorem stop_takes_effect fuel env w n :
  update (loop w) <> None ->
  isRunning (loop w) = false ->
  (calls w <= n)%nat ->
  stops (effects env n) = true ->
  (forall k, (calls w <= k < n)%nat -> stops (effects env k) = false) ->
  quiet_within env (calls w) (n + 3) ->
  (n + 2 - calls w <= fuel)%nat ->
  exists w',
    Start fuel env w = Ret None w' /\
    IsRunning (loop w') = false /\
    stopCh (loop w') = chan_closed /\
    (n < calls w' <= n + 3)%nat.
Proof.
  intros Hu Hr Hle Hn Hfirst Hq Hfuel.
  destruct (update (loop w)) as [u|] eqn:Eu; [|congruence].
  rewrite (Start_entry fuel env w u Eu Hr).
  destruct (run_loop_stops env n Hn fuel (entry_frame env w) (entry_world env w))
    as (v' & E & Hc & Hrun & Hcalls).
  - apply entry_world_run_state.
  - cbn. congruence.
  - exact Hq.
  - left. split; [reflexivity|]. split; [exact Hle|]. split; [exact Hfirst|].
    exact Hfuel.
  - rewrite E. exists v'. auto.
Qed.

Lemma stop_takes_effect_witness :
  exists w',
    Start 6 (sample_env 4 100) (boot sample_loop) = Ret None w' /\
    IsRunning (loop w') = false /\
    stopCh (loop w') = chan_closed /\
    (4 < calls w' <= 4 + 3)%nat.
Proof.
  apply (stop_takes_effect 6 (sample_env 4 100) (boot sample_loop) 4).
  - intros H. vm_compute in H. discriminate H.
  - reflexivity.
  - unfold boot. cbn [calls]. lia.
  - reflexivity.
  - intros k Hk. unfold sample_env. cbn [effects stops].
    destruct (Nat.eqb_spec k 4); [lia | reflexivity].
  - intros k Hk. unfold sample_env. cbn [effects raised].
    destruct (Nat.eqb_spec k 100); [lia | reflexivity].
  - unfold boot. cbn [calls]. lia.
Defined.

(** X4: the first panic of a registered function ends the run at once.  If
    the call numbered [n] is the first to panic, and the loop is not stopped
    before it, then that call is the last call of a phase callback.  Without
    a recover function the panic leaves [Start] with the value raised.  With
    one, the recover function is called next with that value; [Start]
    returns nil if it returns, and if it panics itself that panic leaves
    [Start]. *)
Theorem first_fault_ends_run fuel env w n r :
  update (loop w) <> None ->
  isRunning (loop w) = false ->
  (calls w <= n)%nat ->
  raised (effects env n) = Some r ->
  quiet_within env (calls w) n ->
  (forall k, (calls w <= k < n)%nat -> stops (effects env k) = false) ->
  (n + 1 - calls w <= fuel)%nat ->
  exists wp pre e,
    calls wp = S n /\
    log wp = log w ++ pre ++ [e] /\ is_phase e = true /\
    match recoverFunc (loop w) with
    | None => Start fuel env w = Panic r wp
    | Some h =>
        exists w',
          log w' = log wp ++ [ev_recover h r] /\ calls w' = S (S n) /\
          match raised (effects env (S n)) with
          | None => Start fuel env w = Ret None w'
          | Some r' => Start fuel env w = Panic r' w'
          end
    end.
Proof.
  intros Hu Hr Hle Hn Hq Hfirst Hfuel.
  destruct (update (loop w)) as [u|] eqn:Eu; [|congruence].
  rewrite (Start_entry fuel env w u Eu Hr).
  destruct (run_loop_faults env n r Hn fuel (entry_frame env w) (entry_world env w))
    as (wp & E & Hc & Rp & Sp & pre & e & L & Pe).
  - apply entry_world_run_state.
  - reflexivity.
  - cbn. congruence.
  - exact Hle.
  - exact Hq.
  - exact Hfirst.
  - exact Hfuel.
  - rewrite E. exists wp. cbn [entry_world log] in L.
    exists (ev_now (lastFrame (entry_frame env w))
              :: ev_now (lastSecond (entry_frame env w)) :: pre), e.
    split; [exact Hc|].
    split; [rewrite L, <- !app_assoc; reflexivity|].
    split; [exact Pe|].
    destruct (recoverFunc (loop w)) as [h|]; [|reflexivity].
    exists (world_of (call env (ev_recover h r) wp)).
    pose proof (call_world env (ev_recover h r) wp) as W. cbv zeta in W.
    destruct W as (Lc & _ & _ & _ & _ & _ & Nc).
    split; [exact Lc|]. split; [rewrite Nc, Hc; reflexivity|].
    rewrite (call_result env (ev_recover h r) wp Rp), Hc.
    destruct (raised (effects env (S n))); reflexivity.
Qed.

Lemma first_fault_ends_run_witness :
  exists wp pre e,
    calls wp = 5%nat /\
    log wp = log (boot guarded_loop) ++ pre ++ [e] /\ is_phase e = true /\
    match recoverFunc (loop (boot guarded_loop)) with
    | None => Start 5 (sample_env 100 4) (boot guarded_loop)
              = Panic (value "boom") wp
    | Some h =>
        exists w',
          log w' = log wp ++ [ev_recover h (value "boom")] /\
          calls w' = 6%nat /\
          match raised (effects (sample_env 100 4) 5) with
          | None => Start 5 (sample_env 100 4) (boot guarded_loop) = Ret None w'
          | Some r' => Start 5 (sample_env 100 4) (boot guarded_loop) = Panic r' w'
          end
    end.
Proof.
  apply (first_fault_ends_run 5 (sample_env 100 4) (boot guarded_loop) 4
           (value "boom")).
  - intros H. vm_compute in H. discriminate H.
  - reflexivity.
  - unfold boot. cbn [calls]. lia.
  - reflexivity.
  - intros k Hk. unfold sample_env. cbn [effects raised].
    destruct (Nat.eqb_spec k 4); [|reflexivity].
    unfold boot in Hk. cbn [calls] in Hk. lia.
  - intros k Hk. unfold sample_env. cbn [effects stops].
    destruct (Nat.eqb_spec k 100); [|reflexivity].
    unfold boot in Hk. cbn [calls] in Hk. lia.
  - unfold boot. cbn [calls]. lia.
Defined.



(** X6: [Start] returns nil in three cases only: the loop was running
    already and nothing was done; the loop was started and then stopped, and
    is left not running with its stop channel closed; or a phase callback
    panicked and the recover function was called with the value and
    returned. *)
Theorem Start_returns_nil_cases fuel env w w' :
  Start fuel env w = Ret None w' ->
  (IsRunning (loop w) = true /\ w' = w) \/
  (IsRunning (loop w) = false /\
   IsRunning (loop w') = false /\ stopCh (loop w') = chan_closed) \/
  (IsRunning (loop w) = false /\
   exists h r wp,
     recoverFunc (loop w) = Some h /\
     Start_body fuel env w = Panic r wp /\
     log w' = log wp ++ [ev_recover h r]).
Proof.
  unfold IsRunning. intros H.
  destruct (update (loop w)) as [u|] eqn:Eu.
  2:{ rewrite Start_eq, Start_body_eq, Eu in H.
      destruct (recoverFunc (loop w)); discriminate H. }
  destruct (isRunning (loop w)) eqn:Er.
  { left. split; [reflexivity|].
    rewrite Start_eq, Start_body_eq, Eu, Er in H.
    destruct (recoverFunc (loop w)); congruence. }
  right.
  pose proof (Start_body_entry fuel env w u Eu Er) as Eb.
  rewrite (Start_entry fuel env w u Eu Er) in H.
  destruct (run_loop_world fuel env (entry_frame env w) (entry_world env w))
    as (_ & R & _).
  specialize (R (entry_world_run_state env w)).
  destruct (run_loop fuel env (entry_frame env w) (entry_world env w))
    as [a w1|r w1|w1] eqn:E; cbn [world_of] in R; [| |discriminate H].
  - left. injection H as <-. split; [reflexivity|].
    pose proof (run_loop_Ret _ _ _ _ _ _ E) as Hc.
    split; [exact (run_state_closed _ R Hc) | exact Hc].
  - right. split; [reflexivity|].
    destruct (recoverFunc (loop w)) as [h|]; [|discriminate H].
    exists h, r, w1. split; [reflexivity|]. split; [exact Eb|].
    pose proof (call_world env (ev_recover h r) w1) as W. cbv zeta in W.
    destruct W as (Lc & _).
    destruct (call env (ev_recover h r) w1) as [a2 w2|r2 w2|w2];
      try discriminate H.
    injection H as <-. exact Lc.
Qed.

Lemma Start_returns_nil_cases_witness :
  let w' := world_of (Start 6 (sample_env 4 100) (boot sample_loop)) in
  (IsRunning (loop (boot sample_loop)) = true /\ w' = boot sample_loop) \/
  (IsRunning (loop (boot sample_loop)) = false /\
   IsRunning (loop w') = false /\ stopCh (loop w') = chan_closed) \/
  (IsRunning (loop (boot sample_loop)) = false /\
   exists h r wp,
     recoverFunc (loop (boot sample_loop)) = Some h /\
     Start_body 6 (sample_env 4 100) (boot sample_loop) = Panic r wp /\
     log w' = log wp ++ [ev_recover h r]).
Proof.
  apply (Start_returns_nil_cases 6 (sample_env 4 100) (boot sample_loop)).
  vm_compute. reflexivity.
Defined.

Lemma run_loop_calls fuel env loc v :
  run_state (loop v) ->
  (calls v <= calls (world_of (run_loop fuel env loc v)))%nat.
Proof.
  intros R.
  apply (run_loop_inv env
           (fun _ x => run_state (loop x) /\ (calls v <= calls x)%nat)
           (fun x => (calls v <= calls x)%nat)).
  - intros _ x [_ H]. exact H.
  - intros l x l' x' [Rx Hx] _ E.
    destruct (iteration_outcome env l x Rx) as [H|H].
    + destruct H as (loc' & w' & ts & tu & tm & tn & te & H). cbv zeta in H.
      destruct H as (E' & R' & _ & N' & _).
      rewrite E in E'. injection E' as -> ->. split; [exact R' | lia].
    + destruct H as (r & w' & ts & tu & pre & e & more & E' & _).
      congruence.
  - intros l x r x' [Rx Hx] _ E.
    destruct (iteration_outcome env l x Rx) as [H|H].
    + destruct H as (loc' & w' & ts & tu & tm & tn & te & H). cbv zeta in H.
      destruct H as (E' & _). congruence.
    + destruct H as (r' & w' & ts & tu & pre & e & more & E' & _ & _ & _ & N' & _).
      rewrite E in E'. injection E' as -> ->. lia.
  - split; [exact R | lia].
Qed.

Lemma Start_entry_world fuel env w u :
  update (loop w) = Some u -> isRunning (loop w) = false ->
  world_of (Start fuel env w) =
  match run_loop fuel env (entry_frame env w) (entry_world env w) with
  | Panic r w' =>
      match recoverFunc (loop w) with
      | Some h => world_of (call env (ev_recover h r) w')
      | None => w'
      end
  | other => world_of other
  end.
Proof.
  intros Hu Hr. rewrite (Start_entry fuel env w u Hu Hr).
  destruct (run_loop fuel env (entry_frame env w) (entry_world env w))
    as [a w1|r w1|w1]; try reflexivity.
  destruct (recoverFunc (loop w)) as [h|]; [|reflexivity].
  destruct (call env (ev_recover h r) w1); reflexivity.
Qed.

(** X7: a loop that is not running can be started whatever became of its
    stop channel, so also after it was stopped: [run] makes a new channel,
    the loop goes round, and at least one registered function is called. *)
Theorem Start_enters_the_loop fuel env w :
  update (loop w) <> None ->
  isRunning (loop w) = false ->
  (calls w < calls (world_of (Start (S fuel) env w)))%nat.
Proof.
  intros Hu Hr.
  destruct (update (loop w)) as [u|] eqn:Eu; [|congruence].
  rewrite (Start_entry_world (S fuel) env w u Eu Hr).
  assert (H : (calls w < calls (world_of (run_loop (S fuel) env
                  (entry_frame env w) (entry_world env w))))%nat).
  { cbn [run_loop].
    rewrite (stop_received_open (loop (entry_world env w)) eq_refl).
    destruct (iteration_outcome env (entry_frame env w) (entry_world env w)
                (entry_world_run_state env w)) as [H|H].
    - destruct H as (loc' & w' & ts & tu & tm & tn & te & H). cbv zeta in H.
      destruct H as (E & R' & _ & _ & C' & _). rewrite E.
      pose proof (run_loop_calls fuel env loc' w' R') as Hc.
      assert (Hu' : update (loop (entry_world env w)) <> None)
        by (cbn; congruence).
      specialize (C' Hu'). cbn [entry_world calls] in C'. lia.
    - destruct H as (r & w' & ts & tu & pre & e & more & E & _ & _ & _ & N' & _).
      rewrite E. cbn [world_of]. cbn [entry_world calls] in N'. lia. }
  destruct (run_loop (S fuel) env (entry_frame env w) (entry_world env w))
    as [a w1|r w1|w1]; cbn [world_of] in *; try exact H.
  destruct (recoverFunc (loop w)) as [h|]; [|exact H].
  pose proof (call_world env (ev_recover h r) w1) as W. cbv zeta in W.
  destruct W as (_ & _ & _ & _ & _ & _ & Nc). lia.
Qed.

Lemma Start_enters_the_loop_witness :
  update (loop stopped_world) <> None /\
  isRunning (loop stopped_world) = false /\
  stopCh (loop stopped_world) = chan_closed /\
  (calls stopped_world
   < calls (world_of (Start 2 (sample_env 100 100) stopped_world)))%nat.
Proof.
  assert (Hu : update (loop stopped_world) <> None).
  { intros H. vm_compute in H. discriminate H. }
  assert (Hr : isRunning (loop stopped_world) = false).
  { vm_compute. reflexivity. }
  split; [exact Hu|]. split; [exact Hr|].
  split; [vm_compute; reflexivity|].
  exact (Start_enters_the_loop 1 (sample_env 100 100) stopped_world Hu Hr).
Defined.

(** ** The events of a run *)

Lemma Start_idle fuel env w :
  update (loop w) = None \/ isRunning (loop w) = true ->
  world_of (Start fuel env w) = w.
Proof.
  intros H. rewrite Start_eq, Start_body_eq.
  destruct (update (loop w)) as [u|].
  - destruct H as [H|H]; [discriminate H|]. rewrite H.
    destruct (recoverFunc (loop w)); reflexivity.
  - destruct (recoverFunc (loop w)); reflexivity.
Qed.

(** What holds of every event of an iteration that starts no earlier than
    the last frame was finished holds of every event of a run. *)
Lemma Start_events (P : event -> Prop) fuel env w :
  (forall t, P (ev_now t)) ->
  (forall h r, P (ev_recover h r)) ->
  (forall loc v,
     run_state (loop v) -> same_setup (loop w) (loop v) ->
     (monotone env -> lastFrame loc <= clock v) ->
     exists evs,
       log (world_of (iteration env loc v)) = log v ++ evs /\ Forall P evs) ->
  exists evs, log (world_of (Start fuel env w)) = log w ++ evs /\ Forall P evs.
Proof.
  intros Pnow Prec Hit.
  destruct (update (loop w)) as [u|] eqn:Eu.
  2:{ rewrite Start_idle by (left; exact Eu).
      exists []. split; [symmetry; apply app_nil_r | constructor]. }
  destruct (isRunning (loop w)) eqn:Er.
  { rewrite Start_idle by (right; exact Er).
    exists []. split; [symmetry; apply app_nil_r | constructor]. }
  rewrite (Start_entry_world fuel env w u Eu Er).
  set (I := fun (loc : frame) (v : World) =>
              run_state (loop v) /\ same_setup (loop w) (loop v) /\
              (monotone env -> lastFrame loc <= clock v) /\
              exists evs, log v = log w ++ evs /\ Forall P evs).
  set (Post := fun (v : World) =>
                 exists evs, log v = log w ++ evs /\ Forall P evs).
  assert (H : Post (world_of (run_loop fuel env (entry_frame env w)
                                (entry_world env w)))).
  { apply (run_loop_inv env I Post).
    - intros loc v (_ & _ & _ & H). exact H.
    - intros loc v loc' v' (R & S & K & evs & L & F) _ E.
      destruct (Hit loc v R S K) as (evs' & L' & F').
      rewrite E in L'. cbn [world_of] in L'.
      destruct (iteration_outcome env loc v R) as [H|H].
      + destruct H as (loc1 & w1 & ts & tu & tm & tn & te & H). cbv zeta in H.
        destruct H as (E1 & R1 & S1 & _ & _ & _ & _ & _ & _ & _ & _ & K1).
        rewrite E in E1. injection E1 as <- <-.
        split; [exact R1|]. split; [eauto using same_setup_trans|].
        split; [intros Hm; specialize (K1 Hm); lia|].
        exists (evs ++ evs'). split; [rewrite L', L, app_assoc; reflexivity|].
        apply Forall_app; auto.
      + destruct H as (r & w1 & ts & tu & pre & e & more & E1 & _). congruence.
    - intros loc v r v' (R & S & K & evs & L & F) _ E.
      destruct (Hit loc v R S K) as (evs' & L' & F').
      rewrite E in L'. cbn [world_of] in L'.
      exists (evs ++ evs'). split; [rewrite L', L, app_assoc; reflexivity|].
      apply Forall_app; auto.
    - split; [apply entry_world_run_state|].
      split; [apply entry_world_setup|]. split.
      + intros [Hd _]. specialize (Hd (S (reads w))). cbn. lia.
      + exists [ev_now (lastFrame (entry_frame env w));
                ev_now (lastSecond (entry_frame env w))].
        split; [cbn; rewrite <- app_assoc; reflexivity|].
        repeat constructor; apply Pnow. }
  destruct (run_loop fuel env (entry_frame env w) (entry_world env w))
    as [a w1|r w1|w1]; cbn [world_of] in *; try exact H.
  destruct (recoverFunc (loop w)) as [h|]; [|exact H].
  destruct H as (evs & L & F).
  pose proof (call_world env (ev_recover h r) w1) as W. cbv zeta in W.
  destruct W as (Lc & _).
  exists (evs ++ [ev_recover h r]).
  split; [rewrite Lc, L, app_assoc; reflexivity|].
  apply Forall_app. split; [exact F|]. repeat constructor. apply Prec.
Qed.

Lemma In_phase_calls e l loc ts tu :
  In e (phase_calls l loc ts tu) ->
  e = ev_now ts \/ (exists f, e = ev_input f) \/ e = ev_now tu \/
  (exists f, e = ev_update f (Time_Sub tu (lastFrame loc))) \/
  (exists f, e = ev_render f).
Proof.
  unfold phase_calls. intros [H|H]; [auto|].
  apply in_app_or in H as [H|H].
  { destruct (input l); [|destruct H]. destruct H as [H|[]]. eauto. }
  apply in_app_or in H as [H|H].
  { destruct (update l); [|destruct H].
    destruct H as [H|[H|[]]]; [auto|]. right. right. right. left. eauto. }
  destruct (render l); [|destruct H]. destruct H as [H|[]].
  right. right. right. right. eauto.
Qed.

Lemma In_snoc_prefix {A : Type} (x e : A) pre more :
  In x (pre ++ [e]) -> In x (pre ++ e :: more).
Proof.
  intros H. apply in_app_or in H as [H|[H|[]]]; apply in_or_app;
    [left; exact H | right; left; exact H].
Qed.

Lemma Time_Sub_nonneg t u : u <= t -> 0 <= Time_Sub t u.
Proof.
  unfold Time_Sub, minDuration, maxDuration.
  change (2 ^ 63) with 9223372036854775808. lia.
Qed.

(** X8: with the budget as [SetTargetFps] computes it and a clock that does
    not go backwards, every pacing sleep of a run lasts a whole number of
    milliseconds, at least one and at most the budget. *)
Theorem sleeps_within_budget fuel env w :
  budget_ok (loop w) ->
  monotone env ->
  exists evs,
    log (world_of (Start fuel env w)) = log w ++ evs /\
    Forall (fun e =>
              match e with
              | ev_sleep d =>
                  exists ms, d = ms * Millisecond /\ 0 < ms <= msPerFrame (loop w)
              | _ => True
              end) evs.
Proof.
  intros [Hfps Hb] Hmono.
  assert (Hms : 0 <= msPerFrame (loop w) <= 1000).
  { rewrite Hb. split; [apply Z.div_pos; lia|].
    apply Z.div_le_upper_bound; lia. }
  apply Start_events; [exact (fun _ => I) | exact (fun _ _ => I) |].
  intros loc v R S _.
  assert (Ems : msPerFrame (loop v) = msPerFrame (loop w))
    by (unfold same_setup in S; tauto).
  destruct (iteration_outcome env loc v R) as [H|H].
  - destruct H as (loc' & w' & ts & tu & tm & tn & te & H). cbv zeta in H.
    destruct H as (E & _ & _ & _ & _ & _ & _ & L & _ & _ & _ & K).
    destruct (K Hmono) as (_ & K2 & K3 & K4 & _ & K6 & _).
    rewrite E. cbn [world_of]. eexists. split; [exact L|].
    apply Forall_forall. intros e Hin. destruct e; try exact I.
    apply in_app_or in Hin as [Hin|Hin].
    { apply In_phase_calls in Hin.
      destruct Hin as [Hin|[[f Hin]|[Hin|[[f Hin]|[f Hin]]]]]; discriminate Hin. }
    destruct Hin as [Hin|[Hin|Hin]]; try discriminate Hin.
    apply in_app_or in Hin as [Hin|[Hin|Hin]]; try discriminate Hin.
    { destruct (Second <=? _); [|destruct Hin].
      destruct Hin as [Hin|[]]. discriminate Hin. }
    rewrite Ems in Hin.
    destruct (sleepTime_exact (msPerFrame (loop w)) ts te Hms)
      as (Ew & Hq & Ew'); [lia|].
    rewrite Ew in Hin.
    destruct (Z.ltb_spec 0 (msPerFrame (loop w)
                            - Duration_Milliseconds (Time_Sub te ts)))
      as [Hs|Hs]; [|destruct Hin].
    destruct Hin as [Hin|[]]. injection Hin as <-.
    rewrite (Ew' Hs). eexists. split; [reflexivity|]. lia.
  - destruct H as (r & w' & ts & tu & pre & e & more & H).
    destruct H as (E & _ & _ & _ & _ & _ & _ & Pc & L & Pe & _).
    rewrite E. cbn [world_of]. eexists. split; [exact L|].
    apply Forall_forall. intros x Hin. destruct x; try exact I.
    apply In_snoc_prefix with (more := more) in Hin. rewrite <- Pc in Hin.
    apply In_phase_calls in Hin.
    destruct Hin as [Hin|[[f Hin]|[Hin|[[f Hin]|[f Hin]]]]]; discriminate Hin.
Qed.

Lemma sleeps_within_budget_witness :
  budget_ok (loop (boot sample_loop)) /\
  monotone (sample_env 100 100) /\
  exists evs,
    log (world_of (Start 5 (sample_env 100 100) (boot sample_loop)))
    = log (boot sample_loop) ++ evs /\
    Forall (fun e =>
              match e with
              | ev_sleep d =>
                  exists ms,
                    d = ms * Millisecond /\
                    0 < ms <= msPerFrame (loop (boot sample_loop))
              | _ => True
              end) evs.
Proof.
  split; [exact sample_loop_budget_ok|].
  split; [exact (sample_env_monotone 100 100)|].
  exact (sleeps_within_budget 5 (sample_env 100 100) (boot sample_loop)
           sample_loop_budget_ok (sample_env_monotone 100 100)).
Defined.

(** X9: as long as the clock does not go backwards, the update function is
    never called with a negative delta time. *)
Theorem deltaTime_not_negative fuel env w :
  monotone env ->
  exists evs,
    log (world_of (Start fuel env w)) = log w ++ evs /\
    Forall (fun e =>
              match e with
              | ev_update _ deltaTime => 0 <= deltaTime
              | _ => True
              end) evs.
Proof.
  intros Hmono.
  apply Start_events; [exact (fun _ => I) | exact (fun _ _ => I) |].
  intros loc v R _ Hlast. specialize (Hlast Hmono).
  assert (Hphase : forall ts tu x,
            clock v <= ts -> ts <= tu ->
            In x (phase_calls (loop v) loc ts tu) ->
            match x with
            | ev_update _ deltaTime => 0 <= deltaTime
            | _ => True
            end).
  { intros ts tu x H1 H2 Hin. destruct x; try exact I.
    apply In_phase_calls in Hin.
    destruct Hin as [Hin|[[g Hin]|[Hin|[[g Hin]|[g Hin]]]]];
      try discriminate Hin.
    injection Hin as _ ->. apply Time_Sub_nonneg. lia. }
  destruct (iteration_outcome env loc v R) as [H|H].
  - destruct H as (loc' & w' & ts & tu & tm & tn & te & H). cbv zeta in H.
    destruct H as (E & _ & _ & _ & _ & _ & _ & L & _ & _ & _ & K).
    destruct (K Hmono) as (K1 & K2 & _).
    rewrite E. cbn [world_of]. eexists. split; [exact L|].
    apply Forall_forall. intros x Hin.
    apply in_app_or in Hin as [Hin|Hin]; [exact (Hphase ts tu x K1 K2 Hin)|].
    destruct x; try exact I.
    destruct Hin as [Hin|[Hin|Hin]]; try discriminate Hin.
    apply in_app_or in Hin as [Hin|[Hin|Hin]]; try discriminate Hin.
    + destruct (Second <=? _); [|destruct Hin].
      destruct Hin as [Hin|[]]. discriminate Hin.
    + destruct (0 <? _); [|destruct Hin].
      destruct Hin as [Hin|[]]. discriminate Hin.
  - destruct H as (r & w' & ts & tu & pre & e & more & H).
    destruct H as (E & _ & _ & _ & _ & _ & _ & Pc & L & Pe & K).
    destruct (K Hmono) as (K1 & K2 & _).
    rewrite E. cbn [world_of]. eexists. split; [exact L|].
    apply Forall_forall. intros x Hin.
    apply In_snoc_prefix with (more := more) in Hin. rewrite <- Pc in Hin.
    exact (Hphase ts tu x K1 K2 Hin).
Qed.

Lemma deltaTime_not_negative_witness :
  monotone (sample_env 100 100) /\
  exists evs,
    log (world_of (Start 5 (sample_env 100 100) (boot sample_loop)))
    = log (boot sample_loop) ++ evs /\
    Forall (fun e =>
              match e with
              | ev_update _ deltaTime => 0 <= deltaTime
              | _ => True
              end) evs.
Proof.
  split; [exact (sample_env_monotone 100 100)|].
  exact (deltaTime_not_negative 5 (sample_env 100 100) (boot sample_loop)
           (sample_env_monotone 100 100)).
Defined.

(** ** The rate of a run *)

Lemma updates_app a b : updates (a ++ b) = updates a + updates b.
Proof. unfold updates. rewrite filter_app, length_app. lia. Qed.

Lemma updates_nonneg a : 0 <= updates a.
Proof. unfold updates. lia. Qed.

Lemma updates_phase_calls l loc ts tu : updates (phase_calls l loc ts tu) <= 1.
Proof.
  unfold phase_calls.
  change (ev_now ts :: ?x) with ([ev_now ts] ++ x).
  rewrite !updates_app.
  destruct (input l), (update l), (render l); cbn; lia.
Qed.

Lemma updates_snoc_prefix pre e more :
  updates (pre ++ [e]) <= updates (pre ++ e :: more).
Proof.
  change (e :: more) with ([e] ++ more).
  rewrite !updates_app. pose proof (updates_nonneg more). lia.
Qed.

Lemma updates_bookkeeping td tm tn te (b1 b2 : bool) d :
  updates (ev_now td :: ev_now tm :: (if b1 then [ev_now tn] else [])
             ++ ev_now te :: (if b2 then [ev_sleep d] else [])) = 0.
Proof. destruct b1, b2; reflexivity. Qed.

(** X10: the budget caps the rate of the loop.  With the budget as
    [SetTargetFps] computes it and a clock that does not go backwards, the
    calls of the update function made during a run, less one, take at least
    a budget each: in a span of time [T] the loop calls update at most
    [T / msPerFrame + 1] times. *)
Theorem update_rate_capped fuel env w :
  budget_ok (loop w) ->
  monotone env ->
  let w' := world_of (Start fuel env w) in
  (updates (log w') - updates (log w) - 1) * (msPerFrame (loop w) * Millisecond)
  <= clock w' - clock w.
Proof.
  intros [Hfps Hb] Hmono. cbv zeta.
  assert (Hms : 0 <= msPerFrame (loop w) <= 1000).
  { rewrite Hb. split; [apply Z.div_pos; lia|].
    apply Z.div_le_upper_bound; lia. }
  set (B := msPerFrame (loop w) * Millisecond).
  assert (HB : 0 <= B) by (unfold B, Millisecond; lia).
  destruct (update (loop w)) as [u|] eqn:Eu.
  2:{ rewrite Start_idle by (left; exact Eu). lia. }
  destruct (isRunning (loop w)) eqn:Er.
  { rewrite Start_idle by (right; exact Er). lia. }
  rewrite (Start_entry_world fuel env w u Eu Er).
  set (I := fun (loc : frame) (v : World) =>
              run_state (loop v) /\ same_setup (loop w) (loop v) /\
              (updates (log v) - updates (log w)) * B <= clock v - clock w).
  set (Post := fun (v : World) =>
                 (updates (log v) - updates (log w) - 1) * B
                 <= clock v - clock w).
  assert (H : Post (world_of (run_loop fuel env (entry_frame env w)
                                (entry_world env w)))).
  { apply (run_loop_inv env I Post).
    - intros loc v (_ & _ & H). unfold Post. lia.
    - intros loc v loc' v' (R & S & H) _ E.
      assert (Ems : msPerFrame (loop v) = msPerFrame (loop w))
        by (unfold same_setup in S; tauto).
      destruct (iteration_outcome env loc v R) as [H1|H1].
      + destruct H1 as (loc1 & w1 & ts & tu & tm & tn & te & H1).
        cbv zeta in H1.
        destruct H1 as (E1 & R1 & S1 & _ & _ & _ & _ & L & _ & _ & _ & K).
        rewrite E in E1. injection E1 as <- <-.
        destruct (K Hmono) as (K1 & _ & _ & _ & _ & _ & _ & _ & K9).
        rewrite Ems in K9. specialize (K9 Hms). fold B in K9.
        split; [exact R1|]. split; [eauto using same_setup_trans|].
        rewrite L, !updates_app, updates_bookkeeping.
        pose proof (updates_phase_calls (loop v) loc ts tu). nia.
      + destruct H1 as (r & w1 & ts & tu & pre & e & more & E1 & _). congruence.
    - intros loc v r v' (R & S & H) _ E.
      destruct (iteration_outcome env loc v R) as [H1|H1].
      + destruct H1 as (loc1 & w1 & ts & tu & tm & tn & te & H1).
        cbv zeta in H1. destruct H1 as (E1 & _). congruence.
      + destruct H1 as (r1 & w1 & ts & tu & pre & e & more & H1).
        destruct H1 as (E1 & _ & _ & _ & _ & _ & _ & Pc & L & _ & K).
        rewrite E in E1. injection E1 as <- <-.
        destruct (K Hmono) as (K1 & K2 & K3).
        unfold Post. rewrite L, updates_app.
        pose proof (updates_snoc_prefix pre e more) as Hp. rewrite <- Pc in Hp.
        pose proof (updates_phase_calls (loop v) loc ts tu). nia.
    - split; [apply entry_world_run_state|].
      split; [apply entry_world_setup|].
      cbn [entry_world log clock]. rewrite !updates_app.
      change (updates [ev_now _]) with 0.
      destruct Hmono as [Hd _].
      pose proof (Hd (reads w)). pose proof (Hd (S (reads w))). lia. }
  destruct (run_loop fuel env (entry_frame env w) (entry_world env w))
    as [a w1|r w1|w1]; cbn [world_of] in *; try exact H.
  destruct (recoverFunc (loop w)) as [h|]; [|exact H].
  pose proof (call_world env (ev_recover h r) w1) as W. cbv zeta in W.
  destruct W as (Lc & _ & _ & _ & Kc & _).
  rewrite Lc, Kc, updates_app. change (updates [ev_recover h r]) with 0.
  destruct Hmono as [_ Hm]. specialize (Hm (calls w1)).
  unfold Post in H. lia.
Qed.

Lemma update_rate_capped_witness :
  budget_ok (loop (boot sample_loop)) /\
  monotone (sample_env 100 100) /\
  let w' := world_of (Start 5 (sample_env 100 100) (boot sample_loop)) in
  (updates (log w') - updates (log (boot sample_loop)) - 1)
  * (msPerFrame (loop (boot sample_loop)) * Millisecond)
  <= clock w' - clock (boot sample_loop).
Proof.
  split; [exact sample_loop_budget_ok|].
  split; [exact (sample_env_monotone 100 100)|].
  exact (update_rate_capped 5 (sample_env 100 100) (boot sample_loop)
           sample_loop_budget_ok (sample_env_monotone 100 100)).
Defined.

Lemma wrap64_small z : - 2 ^ 63 <= z < 2 ^ 63 -> wrap64 z = z.
Proof.
  intros H. unfold wrap64.
  change (2 ^ 63) with 9223372036854775808 in *.
  change (2 ^ 64) with 18446744073709551616.
  rewrite Z.mod_small by lia. lia.
Qed.

Lemma Time_Sub_lt t u d :
  u <= t -> d <= 2 ^ 63 - 1 -> Time_Sub t u < d -> t - u < d.
Proof.
  unfold Time_Sub, minDuration, maxDuration.
  change (2 ^ 63) with 9223372036854775808. lia.
Qed.

(** X11: with a budget of a millisecond or more and a clock that does not
    go backwards, a rate published during a run is at least 1 and less than
    [1000 / msPerFrame + 2]; for a budget of 16 ms, the one of 60 frames a
    second, that is at most 64.  A run that publishes nothing leaves the
    rate as it was. *)
Theorem published_rate_capped fuel env w :
  budget_ok (loop w) ->
  1 <= msPerFrame (loop w) ->
  monotone env ->
  let p := GetCurrentFps (loop (world_of (Start fuel env w))) in
  p = GetCurrentFps (loop w) \/
  (1 <= p /\ (p - 2) * msPerFrame (loop w) < 1000).
Proof.
  intros [Hfps Hb] Hpos Hmono. cbv zeta. unfold GetCurrentFps.
  assert (Hms : 0 <= msPerFrame (loop w) <= 1000).
  { rewrite Hb. split; [apply Z.div_pos; lia|].
    apply Z.div_le_upper_bound; lia. }
  set (b := msPerFrame (loop w)) in *.
  destruct (update (loop w)) as [u|] eqn:Eu.
  2:{ rewrite Start_idle by (left; exact Eu). left. reflexivity. }
  destruct (isRunning (loop w)) eqn:Er.
  { rewrite Start_idle by (right; exact Er). left. reflexivity. }
  rewrite (Start_entry_world fuel env w u Eu Er).
  set (Post := fun (v : World) =>
                 currentFps (loop v) = currentFps (loop w) \/
                 (1 <= currentFps (loop v) /\ (currentFps (loop v) - 2) * b < 1000)).
  set (I := fun (loc : frame) (v : World) =>
              run_state (loop v) /\ same_setup (loop w) (loop v) /\
              0 <= frameCounter loc /\
              lastSecond loc <= clock v /\
              frameCounter loc * (b * Millisecond) <= clock v - lastSecond loc /\
              (frameCounter loc - 1) * (b * Millisecond) < Second /\
              Post v).
  assert (H : Post (world_of (run_loop fuel env (entry_frame env w)
                                (entry_world env w)))).
  { apply (run_loop_inv env I Post).
    - intros loc v (_ & _ & _ & _ & _ & _ & H). exact H.
    - intros loc v loc' v' (R & S & F0 & F1 & F2 & F3 & P) _ E.
      assert (Ems : msPerFrame (loop v) = b)
        by (unfold same_setup in S; tauto).
      destruct (iteration_outcome env loc v R) as [H1|H1].
      2:{ destruct H1 as (r & w1 & ts & tu & pre & e & more & E1 & _).
          congruence. }
      destruct H1 as (loc1 & w1 & ts & tu & tm & tn & te & H1).
      cbv zeta in H1.
      destruct H1 as (E1 & R1 & S1 & _ & _ & _ & _ & _ & G1 & G2 & G3 & K).
      rewrite E in E1. injection E1 as <- <-.
      destruct (K Hmono) as (K1 & K2 & K3 & K4 & K5 & K6 & K7 & K8 & K9).
      rewrite Ems in K9. specialize (K9 Hms).
      assert (Hfc : frameCounter loc <= 1000).
      { unfold Millisecond, Second in F3. nia. }
      assert (Hw : wrap64 (frameCounter loc + 1) = frameCounter loc + 1).
      { apply wrap64_small. change (2 ^ 63) with 9223372036854775808. lia. }
      rewrite Hw in G1, G3.
      split; [exact R1|]. split; [eauto using same_setup_trans|].
      destruct (Z.leb_spec Second (Time_Sub tm (lastSecond loc))) as [Hr|Hr].
      + specialize (K8 eq_refl). rewrite G1, G2.
        split; [lia|]. split; [lia|]. split; [lia|].
        split; [unfold Millisecond, Second; lia|].
        right. rewrite G3. split; [lia|].
        unfold Millisecond, Second in F3. lia.
      + rewrite G1, G2.
        assert (Hlt : tm - lastSecond loc < Second).
        { apply Time_Sub_lt; [lia | unfold Second; lia | exact Hr]. }
        split; [lia|]. split; [lia|]. split; [lia|].
        split; [lia|].
        unfold Post. rewrite G3. exact P.
    - intros loc v r v' (R & S & F0 & F1 & F2 & F3 & P) _ E.
      destruct (iteration_outcome env loc v R) as [H1|H1].
      + destruct H1 as (loc1 & w1 & ts & tu & tm & tn & te & H1).
        cbv zeta in H1. destruct H1 as (E1 & _). congruence.
      + destruct H1 as (r1 & w1 & ts & tu & pre & e & more & H1).
        destruct H1 as (E1 & _ & _ & C1 & _).
        rewrite E in E1. injection E1 as <- <-.
        unfold Post. rewrite C1. exact P.
    - split; [apply entry_world_run_state|].
      split; [apply entry_world_setup|].
      cbn [entry_frame entry_world frameCounter lastSecond clock].
      split; [lia|]. split; [lia|]. split; [lia|].
      split; [unfold Millisecond, Second; lia|].
      left. reflexivity. }
  destruct (run_loop fuel env (entry_frame env w) (entry_world env w))
    as [a w1|r w1|w1]; cbn [world_of] in *; try exact H.
  destruct (recoverFunc (loop w)) as [h|]; [|exact H].
  pose proof (call_world env (ev_recover h r) w1) as W. cbv zeta in W.
  destruct W as (_ & _ & Cc & _).
  unfold Post in H. rewrite Cc. exact H.
Qed.

Lemma published_rate_capped_witness :
  budget_ok (loop (boot sample_loop)) /\
  1 <= msPerFrame (loop (boot sample_loop)) /\
  monotone (sample_env 1000 1000) /\
  let p := GetCurrentFps
             (loop (world_of (Start 60 (sample_env 1000 1000) (boot sample_loop)))) in
  p = GetCurrentFps (loop (boot sample_loop)) \/
  (1 <= p /\ (p - 2) * msPerFrame (loop (boot sample_loop)) < 1000).
Proof.
  assert (H : 1 <= msPerFrame (loop (boot sample_loop))).
  { vm_compute. discriminate. }
  split; [exact sample_loop_budget_ok|]. split; [exact H|].
  split; [exact (sample_env_monotone 1000 1000)|].
  exact (published_rate_capped 60 (sample_env 1000 1000) (boot sample_loop)
           sample_loop_budget_ok H (sample_env_monotone 1000 1000)).
Defined.

(** In sixty iterations the sample loop, asked for 50 frames a second,
    closes one window and publishes 51. *)

Example sample_published_rate :
  GetCurrentFps
    (loop (world_of (Start 60 (sample_env 1000 1000) (boot sample_loop)))) = 51.
Proof. vm_compute. reflexivity. Qed.

(** ** Stop during an iteration *)

Lemma sim_ret {A B : Type} (R : A -> B -> Prop) a b :
  R a b -> sim R (ret a) (ret b).
Proof. intros H w w' Hw. cbn. auto. Qed.

Lemma sim_bind {A B C D : Type} (R : A -> B -> Prop) (Q : C -> D -> Prop)
  (m : M A) (m' : M B) (k : A -> M C) (k' : B -> M D) :
  sim R m m' ->
  (forall a b, R a b -> sim Q (k a) (k' b)) ->
  sim Q (bind m k) (bind m' k').
Proof.
  intros Hm Hk w w' Hw. specialize (Hm w w' Hw). unfold bind.
  destruct (m w) as [a v|x v|v], (m' w') as [b v'|y v'|v']; cbn in Hm;
    try contradiction.
  - destruct Hm as [Hab Hv]. exact (Hk a b Hab v v' Hv).
  - exact Hm.
  - exact Hm.
Qed.

Lemma sim_get_loop : sim alike get_loop get_loop.
Proof.
  intros w w' Hw. cbn. split; [|exact Hw].
  destruct Hw as (_ & _ & _ & _ & H & _). exact H.
Qed.

Lemma sim_time_Now env env' :
  (forall n, drift env' n = drift env n) ->
  sim eq (time_Now env) (time_Now env').
Proof.
  intros Hd w w' (Hc & Hr & Hn & Hl & Ha & R & R'). cbn.
  rewrite Hc, Hr, Hd, Hl. split; [reflexivity|].
  unfold agree. cbn. auto 10.
Qed.

Lemma sim_time_Since env env' t :
  (forall n, drift env' n = drift env n) ->
  sim eq (time_Since env t) (time_Since env' t).
Proof.
  intros Hd. unfold time_Since.
  apply (sim_bind eq eq); [apply sim_time_Now; exact Hd|].
  intros a b <-. apply sim_ret. reflexivity.
Qed.

Lemma sim_time_Sleep env env' d :
  (forall n, drift env' n = drift env n) ->
  sim eq (time_Sleep env d) (time_Sleep env' d).
Proof.
  intros Hd w w' (Hc & Hr & Hn & Hl & Ha & R & R'). cbn.
  rewrite Hc, Hr, Hd, Hl. split; [reflexivity|].
  unfold agree. cbn. auto 10.
Qed.

Lemma sim_set_currentFps n :
  sim eq (modify_loop (set_currentFps n)) (modify_loop (set_currentFps n)).
Proof.
  intros w w' (Hc & Hr & Hn & Hl & (Hs & Hf) & R & R'). cbn.
  split; [reflexivity|]. unfold agree, alike, same_setup, run_state in *. cbn.
  tauto.
Qed.

Lemma sim_call env env' e :
  (forall n, took (effects env' n) = took (effects env n)) ->
  (forall n, raised (effects env' n) = raised (effects env n)) ->
  sim eq (call env e) (call env' e).
Proof.
  intros Ht Hv w w' (Hc & Hr & Hn & Hl & (Hs & Hf) & R & R').
  pose proof (call_world env e w) as W. cbv zeta in W.
  destruct W as (L & S & C & Rs & K & Rd & N).
  pose proof (call_world env' e w') as W'. cbv zeta in W'.
  destruct W' as (L' & S' & C' & Rs' & K' & Rd' & N').
  assert (A : agree (world_of (call env e w)) (world_of (call env' e w'))).
  { unfold agree, alike.
    split; [rewrite K, K', Hc, Hn, Ht; reflexivity|].
    split; [congruence|]. split; [congruence|]. split; [congruence|].
    split; [|auto]. split; [|congruence].
    unfold same_setup in *. intuition congruence. }
  rewrite (call_result env e w R), (call_result env' e w' R').
  rewrite Hn, Hv.
  destruct (raised (effects env (calls w))); cbn; auto.
Qed.

Lemma sim_phase env env' (o o' : option nat) (mk : nat -> event) :
  (forall n, took (effects env' n) = took (effects env n)) ->
  (forall n, raised (effects env' n) = raised (effects env n)) ->
  o' = o ->
  sim eq
    (match o with Some f => call env (mk f) | None => ret tt end)
    (match o' with Some f => call env' (mk f) | None => ret tt end).
Proof.
  intros Ht Hv ->. destruct o; [apply sim_call; assumption|].
  apply sim_ret. reflexivity.
Qed.

Lemma sim_finish_frame env env' loc ts :
  (forall n, drift env' n = drift env n) ->
  sim eq (finish_frame env loc ts) (finish_frame env' loc ts).
Proof.
  intros Hd. unfold finish_frame.
  apply (sim_bind eq eq); [apply sim_time_Now; exact Hd|]. intros td ? <-.
  apply (sim_bind eq eq); [apply sim_time_Since; exact Hd|]. intros el ? <-.
  apply (sim_bind eq eq).
  { destruct (Qle_bool 1 (Duration_Seconds el)).
    - apply (sim_bind eq eq); [apply sim_set_currentFps|]. intros _ _ _.
      apply (sim_bind eq eq); [apply sim_time_Now; exact Hd|]. intros tn ? <-.
      apply sim_ret. reflexivity.
    - apply sim_ret. reflexivity. }
  intros meter ? <-.
  apply (sim_bind alike eq); [apply sim_get_loop|]. intros l l' [Hs _].
  assert (Ems : msPerFrame l' = msPerFrame l) by (unfold same_setup in Hs; tauto).
  rewrite Ems.
  apply (sim_bind eq eq); [apply sim_time_Since; exact Hd|]. intros si ? <-.
  apply (sim_bind eq eq).
  { destruct (0 <? _); [apply sim_time_Sleep; exact Hd|].
    apply sim_ret. reflexivity. }
  intros _ _ _. apply sim_ret. reflexivity.
Qed.

Lemma sim_iteration env env' loc :
  (forall n, drift env' n = drift env n) ->
  (forall n, took (effects env' n) = took (effects env n)) ->
  (forall n, raised (effects env' n) = raised (effects env n)) ->
  sim eq (iteration env loc) (iteration env' loc).
Proof.
  intros Hd Ht Hv. rewrite !iteration_split.
  apply (sim_bind eq eq); [apply sim_time_Now; exact Hd|]. intros ts ? <-.
  unfold phases_then.
  apply (sim_bind alike eq); [apply sim_get_loop|]. intros l1 l1' [H1 _].
  apply (sim_bind eq eq).
  { apply sim_phase; [exact Ht | exact Hv|]. unfold same_setup in H1. tauto. }
  intros _ _ _.
  apply (sim_bind alike eq); [apply sim_get_loop|]. intros l2 l2' [H2 _].
  apply (sim_bind eq eq).
  { assert (Eu : update l2' = update l2) by (unfold same_setup in H2; tauto).
    rewrite Eu. destruct (update l2); [|apply sim_ret; reflexivity].
    apply (sim_bind eq eq); [apply sim_time_Since; exact Hd|]. intros dt ? <-.
    apply sim_call; assumption. }
  intros _ _ _.
  apply (sim_bind alike eq); [apply sim_get_loop|]. intros l3 l3' [H3 _].
  apply (sim_bind eq eq).
  { apply sim_phase; [exact Ht | exact Hv|]. unfold same_setup in H3. tauto. }
  intros _ _ _. apply sim_finish_frame. exact Hd.
Qed.

Lemma agree_refl w : run_state (loop w) -> agree w w.
Proof.
  intros R. unfold agree, alike.
  repeat (split; [reflexivity|]). split; [|auto].
  split; [apply same_setup_refl | reflexivity].
Qed.

(** X2: [Stop] does not interrupt the iteration in progress.  Whether or
    not the loop is stopped during its calls, an iteration of a run makes the
    same calls with the same arguments, reads the clock and sleeps the same,
    counts and publishes the same, and ends the same way: the stop channel is
    looked at only when the next iteration is due. *)
Theorem Stop_does_not_interrupt env loc w :
  run_state (loop w) ->
  match iteration env loc w, iteration (unstopped env) loc w with
  | Ret loc1 w1, Ret loc2 w2 =>
      loc1 = loc2 /\ log w1 = log w2 /\ clock w1 = clock w2 /\
      calls w1 = calls w2 /\
      GetCurrentFps (loop w1) = GetCurrentFps (loop w2)
  | Panic r1 w1, Panic r2 w2 =>
      r1 = r2 /\ log w1 = log w2 /\ clock w1 = clock w2 /\
      calls w1 = calls w2 /\
      GetCurrentFps (loop w1) = GetCurrentFps (loop w2)
  | _, _ => False
  end.
Proof.
  intros R.
  assert (H : agree_on eq (iteration env loc w) (iteration (unstopped env) loc w)).
  { apply sim_iteration; try (intros n; reflexivity).
    apply agree_refl. exact R. }
  unfold agree_on, agree, alike in H. unfold GetCurrentFps.
  destruct (iteration env loc w) as [loc1 w1|r1 w1|w1] eqn:E1,
           (iteration (unstopped env) loc w) as [loc2 w2|r2 w2|w2];
    try contradiction.
  - destruct H as (E & Hc & _ & Hn & Hl & (_ & Hf) & _).
    split; [exact E|]. split; [congruence|]. split; [congruence|].
    split; congruence.
  - destruct H as (E & Hc & _ & Hn & Hl & (_ & Hf) & _).
    split; [exact E|]. split; [congruence|]. split; [congruence|].
    split; congruence.
  - exact (iteration_not_Spin _ _ _ _ E1).
Qed.

Lemma Stop_does_not_interrupt_witness :
  let env := sample_env 1 100 in
  let w := entry_world env (boot sample_loop) in
  let loc := entry_frame env (boot sample_loop) in
  run_state (loop w) /\
  match iteration env loc w, iteration (unstopped env) loc w with
  | Ret loc1 w1, Ret loc2 w2 =>
      loc1 = loc2 /\ log w1 = log w2 /\ clock w1 = clock w2 /\
      calls w1 = calls w2 /\
      GetCurrentFps (loop w1) = GetCurrentFps (loop w2)
  | Panic r1 w1, Panic r2 w2 =>
      r1 = r2 /\ log w1 = log w2 /\ clock w1 = clock w2 /\
      calls w1 = calls w2 /\
      GetCurrentFps (loop w1) = GetCurrentFps (loop w2)
  | _, _ => False
  end.
Proof.
  cbv zeta.
  assert (H : run_state (loop (entry_world (sample_env 1 100) (boot sample_loop)))).
  { left. split; reflexivity. }
  split; [exact H|].
  exact (Stop_does_not_interrupt (sample_env 1 100)
           (entry_frame (sample_env 1 100) (boot sample_loop))
           (entry_world (sample_env 1 100) (boot sample_loop)) H).
Defined.

(** * Configuration *)

(** X12: the setters are independent of each other.  Two configuration
    calls that write different fields can be made in either order; of two
    that write the same field the later one counts; and none touches the run
    state or the published rate. *)
Theorem configure_commutes c1 c2 l :
  configure c1 (configure c2 l)
  = (if same_field c1 c2 then configure c1 l
     else configure c2 (configure c1 l)) /\
  isRunning (configure c1 l) = isRunning l /\
  stopCh (configure c1 l) = stopCh l /\
  currentFps (configure c1 l) = currentFps l.
Proof.
  split; [destruct c1, c2; reflexivity|].
  destruct c1; repeat split; reflexivity.
Qed.

(** * The second revision *)

Lemma Rev2Run_budget fps l :
  2 <= fps -> msPerFrame (Rev2Run.SetTargetFps fps l) = 0.
Proof.
  intros H. unfold Rev2Run.SetTargetFps. cbn [msPerFrame].
  replace (Z.max fps 1) with fps by lia.
  rewrite Z.quot_small by lia. reflexivity.
Qed.

Lemma no_sleep_phase_events l loc tu : no_sleep (phase_events l loc tu).
Proof.
  intros d Hin.
  apply (no_sleep_phase_calls l loc 0 tu d).
  rewrite phase_calls_events. right. exact Hin.
Qed.

(** The bookkeeping of the second revision with a budget of zero: it reads
    the clock and does not sleep. *)
Lemma Rev2Run_finish_frame_no_sleep env loc ts w :
  msPerFrame (loop w) = 0 -> monotone env -> ts <= clock w ->
  exists loc' w' evs,
    Rev2Run.finish_frame env loc ts w = Ret loc' w' /\
    log w' = log w ++ evs /\ no_sleep evs /\
    same_setup (loop w) (loop w') /\
    stopCh (loop w') = stopCh (loop w) /\
    isRunning (loop w') = isRunning (loop w).
Proof.
  intros Hms [Hd _] Hts.
  unfold Rev2Run.finish_frame, time_Since, time_Now, bind, ret. cbv zeta.
  cbn [clock reads log loop calls].
  set (td := clock w + drift env (reads w)).
  set (tm := td + drift env (S (reads w))).
  assert (Htm : ts <= tm).
  { pose proof (Hd (reads w)). pose proof (Hd (S (reads w))). unfold tm, td. lia. }
  assert (Hno : forall te, ts <= te ->
            (0 <? wrap64 (wrap64 (0 * Millisecond) - Time_Sub te ts)) = false).
  { intros te Hte. apply Z.ltb_ge.
    assert (HD : 0 <= Time_Sub te ts <= 2 ^ 63 - 1).
    { unfold Time_Sub, minDuration, maxDuration.
      change (2 ^ 63) with 9223372036854775808. lia. }
    change (wrap64 (0 * Millisecond)) with 0.
    rewrite wrap64_small by (change (2 ^ 63) with 9223372036854775808 in *; lia).
    lia. }
  destruct (1000 <? Time_Sub tm (lastSecond loc)).
  - unfold modify_loop, get_loop, with_loop.
    cbn [clock reads log loop calls fst snd set_currentFps msPerFrame].
    rewrite Hms, Hno.
    2:{ pose proof (Hd (S (S (reads w)))). pose proof (Hd (S (S (S (reads w))))).
        lia. }
    do 2 eexists.
    exists [ev_now td; ev_now tm;
            ev_now (tm + drift env (S (S (reads w))));
            ev_now (tm + drift env (S (S (reads w)))
                    + drift env (S (S (S (reads w)))))].
    split; [reflexivity|]. cbn [log loop stopCh isRunning].
    split; [rewrite <- !app_assoc; reflexivity|].
    split.
    { intros d [H|[H|[H|[H|[]]]]]; discriminate H. }
    split; [unfold same_setup; cbn; tauto|]. split; reflexivity.
  - unfold get_loop.
    cbn [clock reads log loop calls fst snd msPerFrame].
    rewrite Hms, Hno.
    2:{ pose proof (Hd (S (S (reads w)))). lia. }
    do 2 eexists.
    exists [ev_now td; ev_now tm; ev_now (tm + drift env (S (S (reads w))))].
    split; [reflexivity|]. cbn [log loop stopCh isRunning].
    split; [rewrite <- !app_assoc; reflexivity|].
    split.
    { intros d [H|[H|[H|[]]]]; discriminate H. }
    split; [apply same_setup_refl|]. split; reflexivity.
Qed.

Lemma Rev2Run_iteration_no_sleep env loc w :
  msPerFrame (loop w) = 0 -> monotone env -> run_state (loop w) ->
  exists evs,
    log (world_of (Rev2Run.iteration env loc w)) = log w ++ evs /\
    no_sleep evs /\
    match Rev2Run.iteration env loc w with
    | Ret _ w' => msPerFrame (loop w') = 0 /\ run_state (loop w')
    | Panic _ _ => True
    | Spin _ => False
    end.
Proof.
  intros Hms Hmono R.
  set (ts := clock w + drift env (reads w)).
  set (w0 := mkWorld (loop w) ts (S (reads w)) (calls w) (log w ++ [ev_now ts])).
  assert (E0 : Rev2Run.iteration env loc w
               = phases_then env loc (Rev2Run.finish_frame env loc ts) w0)
    by reflexivity.
  destruct (phases_then_cases env loc (Rev2Run.finish_frame env loc ts) w0 R)
    as (tu & w3 & A & N & K &
        [(E & L & C & Q)|(r & pre & e & more & E & Pc & L & P & C & V & Q)]);
    unfold w0 in *; cbn [loop calls clock log] in *.
  - destruct A as (As & _ & Ar & _).
    unfold same_setup in As. cbn [loop] in As.
    assert (Hms3 : msPerFrame (loop w3) = 0) by intuition congruence.
    destruct (Rev2Run_finish_frame_no_sleep env loc ts w3 Hms3 Hmono)
      as (loc' & w' & evs & EF & LF & NF & SF & CF & RF).
    { specialize (K Hmono). lia. }
    rewrite E0, E, EF. cbn [world_of].
    exists ((ev_now ts :: phase_events (loop w) loc tu) ++ evs).
    split; [rewrite LF, L, <- !app_assoc; reflexivity|].
    split.
    { apply no_sleep_app; [|exact NF].
      apply no_sleep_cons; [reflexivity | apply no_sleep_phase_events]. }
    split.
    + unfold same_setup in SF. intuition congruence.
    + unfold run_state in *. rewrite CF, RF. exact Ar.
  - rewrite E0, E. cbn [world_of].
    exists (ev_now ts :: pre ++ [e]).
    split; [rewrite L, <- !app_assoc; reflexivity|]. split; [|exact I].
    apply no_sleep_cons; [reflexivity|]. apply no_sleep_app.
    + apply (no_sleep_prefix pre (e :: more)). rewrite <- Pc.
      apply no_sleep_phase_events.
    + apply no_sleep_cons; [|apply no_sleep_nil].
      destruct e; try discriminate P; reflexivity.
Qed.

Lemma Rev2Run_run_loop_no_sleep fuel env : forall loc w,
  msPerFrame (loop w) = 0 -> monotone env -> run_state (loop w) ->
  exists evs,
    log (world_of (Rev2Run.run_loop fuel env loc w)) = log w ++ evs /\
    no_sleep evs.
Proof.
  induction fuel as [|fuel IH]; intros loc w Hms Hmono R; cbn [Rev2Run.run_loop].
  - exists []. split; [symmetry; apply app_nil_r | apply no_sleep_nil].
  - destruct (stop_received (loop w)).
    + exists []. split; [symmetry; apply app_nil_r | apply no_sleep_nil].
    + destruct (Rev2Run_iteration_no_sleep env loc w Hms Hmono R)
        as (evs & L & N & H).
      destruct (Rev2Run.iteration env loc w) as [loc1 w1|r1 w1|w1];
        cbn [world_of] in *.
      * destruct H as [Hms1 R1].
        destruct (IH loc1 w1 Hms1 Hmono R1) as (evs' & L' & N').
        exists (evs ++ evs'). split; [|apply no_sleep_app; assumption].
        rewrite L', L, app_assoc. reflexivity.
      * exists evs. auto.
      * contradiction.
Qed.

(** X16: the loop of the second revision is not paced for any rate above 1.
    Its [SetTargetFps] gives a budget of 0 for every requested rate of 2 or
    more, and a loop started with it never sleeps, however its run goes and
    however long it is followed. *)
Theorem Rev2_unthrottled_above_1 fps fuel env w :
  2 <= fps ->
  monotone env ->
  msPerFrame (Rev2Run.SetTargetFps fps (loop w)) = 0 /\
  exists evs,
    log (world_of (Rev2Run.Start fuel env
           (with_loop (Rev2Run.SetTargetFps fps (loop w)) w)))
    = log w ++ evs /\
    no_sleep evs.
Proof.
  intros Hfps Hmono.
  pose proof (Rev2Run_budget fps (loop w) Hfps) as Hms.
  split; [exact Hms|].
  set (l := Rev2Run.SetTargetFps fps (loop w)) in *.
  unfold Rev2Run.Start, bind, get_loop, modify_loop, ret.
  cbn [with_loop loop clock reads calls log].
  destruct (update l) as [u|].
  2:{ exists []. split; [symmetry; apply app_nil_r | apply no_sleep_nil]. }
  destruct (isRunning l).
  { exists []. split; [symmetry; apply app_nil_r | apply no_sleep_nil]. }
  unfold Rev2Run.run, bind, modify_loop, time_Now.
  cbn [with_loop loop clock reads calls log].
  match goal with
  | |- context [Rev2Run.run_loop fuel env ?loc ?v] =>
      destruct (Rev2Run_run_loop_no_sleep fuel env loc v) as (evs & L & N);
        [exact Hms | exact Hmono | left; split; reflexivity |];
      destruct (Rev2Run.run_loop fuel env loc v) as [a1 w1|r1 w1|w1]
  end; cbn [world_of log] in *;
    rewrite L, <- !app_assoc; eexists; (split; [reflexivity|]);
    (apply no_sleep_cons; [reflexivity|]);
    (apply no_sleep_cons; [reflexivity|]); exact N.
Qed.

Lemma Rev2_unthrottled_above_1_witness :
  2 <= 60 /\
  monotone (sample_env 7 100) /\
  msPerFrame (Rev2Run.SetTargetFps 60 (loop (boot sample_loop))) = 0 /\
  exists evs,
    log (world_of (Rev2Run.Start 10 (sample_env 7 100)
           (with_loop (Rev2Run.SetTargetFps 60 (loop (boot sample_loop)))
                      (boot sample_loop))))
    = log (boot sample_loop) ++ evs /\
    no_sleep evs.
Proof.
  assert (H : 2 <= 60) by lia.
  split; [exact H|]. split; [exact (sample_env_monotone 7 100)|].
  exact (Rev2_unthrottled_above_1 60 10 (sample_env 7 100) (boot sample_loop)
           H (sample_env_monotone 7 100)).
Defined.

(** * The first revision *)

Lemma SafeMode_apply_frozen o l :
  SafeMode.isSafeMode l = true -> SafeMode.isRunning l = true ->
  let l' := SafeMode.apply o l in
  SafeMode.isSafeMode l' = true /\ SafeMode.isRunning l' = true /\
  SafeMode.input l' = SafeMode.input l /\
  SafeMode.update l' = SafeMode.update l /\
  SafeMode.render l' = SafeMode.render l.
Proof.
  intros Hs Hr. cbv zeta.
  destruct o; cbn [SafeMode.apply];
    unfold SafeMode.SetSafeMode, SafeMode.SetUpdateFunc, SafeMode.SetInputFunc,
      SafeMode.SetRenderFunc, SafeMode.SetDebug, SafeMode.SetTargetFps,
      SafeMode.Start_enter, SafeMode.shouldPreventSensitiveChanges;
    rewrite ?Hs, ?Hr; cbn [andb];
    try destruct (SafeMode.update l) eqn:Eu;
    cbn [SafeMode.isSafeMode SafeMode.isRunning SafeMode.input SafeMode.update
         SafeMode.render];
    rewrite ?Eu; auto.
Qed.

(** X14: first revision.  Once a loop in safe mode is running, no sequence
    of calls changes its input, update or render function, and safe mode
    cannot be switched off again; the target rate is not protected and can
    still be set. *)
Theorem safe_mode_freezes_callbacks os l :
  SafeMode.isSafeMode l = true ->
  SafeMode.isRunning l = true ->
  let l' := SafeMode.apply_all os l in
  SafeMode.isSafeMode l' = true /\ SafeMode.isRunning l' = true /\
  SafeMode.input l' = SafeMode.input l /\
  SafeMode.update l' = SafeMode.update l /\
  SafeMode.render l' = SafeMode.render l /\
  forall fps,
    SafeMode.GetTargetFps (SafeMode.SetTargetFps fps l') = clamp fps 1 65535.
Proof.
  cbv zeta. revert l.
  induction os as [|o os IH]; intros l Hs Hr; cbn [SafeMode.apply_all fold_left].
  - repeat (split; [assumption || reflexivity|]).
    intros fps. unfold SafeMode.GetTargetFps, SafeMode.SetTargetFps, clamp, uint16.
    cbn [SafeMode.targetFps]. change (2 ^ 16) with 65536.
    rewrite Z.mod_small by lia. lia.
  - destruct (SafeMode_apply_frozen o l Hs Hr) as (Hs' & Hr' & Ei & Eu & Er).
    cbv zeta in *.
    destruct (IH (SafeMode.apply o l) Hs' Hr') as (A & B & C & D & E & F).
    unfold SafeMode.apply_all in *.
    split; [exact A|]. split; [exact B|]. split; [congruence|].
    split; [congruence|]. split; [congruence | exact F].
Qed.

Lemma safe_mode_freezes_callbacks_witness :
  let l' := SafeMode.apply_all
              [SafeMode.op_UpdateFunc None; SafeMode.op_SafeMode false;
               SafeMode.op_TargetFps 30]
              started_loop in
  SafeMode.isSafeMode l' = true /\ SafeMode.isRunning l' = true /\
  SafeMode.input l' = SafeMode.input started_loop /\
  SafeMode.update l' = SafeMode.update started_loop /\
  SafeMode.render l' = SafeMode.render started_loop /\
  forall fps,
    SafeMode.GetTargetFps (SafeMode.SetTargetFps fps l') = clamp fps 1 65535.
Proof.
  apply (safe_mode_freezes_callbacks
           [SafeMode.op_UpdateFunc None; SafeMode.op_SafeMode false;
            SafeMode.op_TargetFps 30]
           started_loop).
  - reflexivity.
  - reflexivity.
Defined.

Lemma SafeMode_apply_quitCh o l :
  SafeMode.quitCh (SafeMode.apply o l) = SafeMode.quitCh l.
Proof.
  destruct o; cbn [SafeMode.apply];
    unfold SafeMode.SetSafeMode, SafeMode.SetUpdateFunc, SafeMode.SetInputFunc,
      SafeMode.SetRenderFunc, SafeMode.SetDebug, SafeMode.SetTargetFps,
      SafeMode.Start_enter;
    try destruct (SafeMode.shouldPreventSensitiveChanges l);
    try destruct (SafeMode.update l); reflexivity.
Qed.

(** X15: first revision.  [Quit] never gets its signal through: the channel
    it sends on is never made, so after any sequence of calls on a new loop,
    and whether or not the loop is waiting to receive, [Quit] returns the
    error for a blocked channel. *)
Theorem Quit_never_delivers msg receiving os :
  SafeMode.Quit msg receiving (SafeMode.apply_all os SafeMode.NewLoop)
  = inl (Some (errors_New msg)).
Proof.
  assert (H : forall l, SafeMode.quitCh l = chan_nil ->
                        SafeMode.quitCh (SafeMode.apply_all os l) = chan_nil).
  { induction os as [|o os IH]; intros l Hl; cbn [SafeMode.apply_all fold_left].
    - exact Hl.
    - apply IH. rewrite SafeMode_apply_quitCh. exact Hl. }
  unfold SafeMode.Quit. rewrite (H SafeMode.NewLoop eq_refl). reflexivity.
Qed.
